(** * PulseTrack wallet signal tracker: the real-time ingestion pipeline

    A shallow embedding of the JavaScript sources

    - [TransactionFilter]  (packages/core/src/filters/transaction-filter.js)
    - [CacheManager]       (packages/core/src/utils/cache-manager.js)
    - [TokenDataService]   (packages/core/src/services/token-data-service.js)
    - [WebSocketBackend]   (packages/core/src/services/websocket-backend.js)
    - [WalletTracker]      (packages/core/src/wallet-tracker.js)

    Conventions of the embedding.

    - [Date.now()] is an explicit argument [now : Z] (milliseconds); one
      handler invocation reads one clock value.
    - The amounts the relevance filter adds and compares (UI token
      amounts, lamport changes, [minAmount]) are JavaScript numbers:
      IEEE 754 binary64 values, here the primitive [float], with its
      rounding, its infinities and its [NaN].  Prices of token records
      are exact rationals [Q]; time stamps, counters and the lamport
      balances of raw notifications are integers [Z].
    - A JavaScript [Set] or [Map] keeps insertion order; where the source
      iterates one, it is a duplicate-free list ([JSSet], [JSMap]), and
      where it only tests membership it is a [gset].
    - A method that mutates [this] takes the object and returns the new
      object, together with its return value and the effects it performed
      (messages sent, listeners notified, timers armed); calls of the
      logger are left out.
    - The sources run on a single-threaded event loop.  A handler runs
      to its end; an asynchronous method runs to its first [await], and
      what follows the [await] is a suspended call that a later step
      resumes.  Between the suspension and the resumption other handlers
      and other calls may run: the state carries the suspended calls, and
      a sequence of steps chooses the order. *)

From Stdlib Require Import ZArith QArith Qabs Ascii String List Bool Lia Floats.
From stdpp Require Import base option list gmap strings sets.

#[local] Set Warnings "-clear-no-such-hyp".
#[local] Set Warnings "-inexact-float".

Local Open Scope string_scope.
Local Open Scope list_scope.
Local Open Scope Z_scope.

(** ** JavaScript truthiness of the values the sources test *)

Definition truthy_string (s : string) : bool :=
  match s with EmptyString => false | _ => true end.

Definition truthy_Z (z : Z) : bool := negb (z =? 0).

(** [x || d] on an optional number: [undefined] and [0] give [d]. *)
Definition or_default_Z (x : option Z) (d : Z) : Z :=
  match x with
  | Some z => if truthy_Z z then z else d
  | None => d
  end.

(** ** JavaScript numbers and values *)

Module Double.

(** [a >= b] on numbers: false as soon as one side is [NaN]. *)
Definition ge (a b : float) : bool := PrimFloat.leb b a.

Definition isNaN (x : float) : bool := negb (PrimFloat.eqb x x).

(** A number is falsy when it is [0], [-0] or [NaN]. *)
Definition truthy (x : float) : bool := negb (PrimFloat.eqb x 0 || isNaN x).

End Double.

(** A value of any type, as far as a truthiness test tells values
    apart. *)
Inductive JSValue :=
| JSUndefined
| JSNull
| JSBoolean (b : bool)
| JSNumber (x : float)
| JSString (s : string)
| JSObject.

Definition truthy (v : JSValue) : bool :=
  match v with
  | JSUndefined | JSNull => false
  | JSBoolean b => b
  | JSNumber x => Double.truthy x
  | JSString s => truthy_string s
  | JSObject => true
  end.

(** ** Insertion-ordered [Set] of strings *)

Module JSSet.

Definition t := list string.

Definition empty : t := [].

Definition has (x : string) (s : t) : bool := bool_decide (x ∈ s).

(** [s.add(x)]: a new element goes last, a known one keeps its place. *)
Definition add (x : string) (s : t) : t :=
  if has x s then s else s ++ [x].

(** [s.delete(x)] *)
Definition delete (x : string) (s : list string) : t :=
  filter (λ y, y ≠ x) s.

(** [new Set([...a, ...b])] *)
Definition of_spread (a b : t) : t := fold_left (λ acc x, add x acc) (a ++ b) empty.

Definition to_gset (s : t) : gset string := list_to_set s.

End JSSet.

(** ** Insertion-ordered [Map] with string keys *)

Module JSMap.

Section WithValue.
Context {V : Type}.

Definition t := list (string * V).

Definition empty : t := [].

Fixpoint get (k : string) (m : t) : option V :=
  match m with
  | [] => None
  | (k', v) :: m' => if String.eqb k' k then Some v else get k m'
  end.

Definition has (k : string) (m : t) : bool :=
  match get k m with Some _ => true | None => false end.

(** [m.set(k, v)]: an existing key keeps its position. *)
Fixpoint set (k : string) (v : V) (m : t) : t :=
  match m with
  | [] => [(k, v)]
  | (k', v') :: m' =>
      if String.eqb k' k then (k, v) :: m' else (k', v') :: set k v m'
  end.

Definition delete (k : string) (m : list (string * V)) : t :=
  filter (λ kv, kv.1 ≠ k) m.

Definition size (m : t) : Z := Z.of_nat (length m).

End WithValue.

Arguments t : clear implicits.

End JSMap.

(** ** TransactionFilter *)

Module TransactionFilter.

Record TokenTransfer := {
  tt_mint : string;
  tt_accountIndex : Z;
  tt_change : float;
  tt_decimals : Z;
  tt_uiChange : float
}.

Record BalanceChange := {
  bc_accountIndex : Z;
  bc_account : option string;
  bc_change : float;
  bc_preBalance : float;
  bc_postBalance : float
}.

Record Instruction := { programId : string }.

(** The transaction object built by
    [WebSocketBackend.processTransactionData].  A missing array field
    behaves like the empty array in every test of the filter
    ([x && x.length > 0], [!x || x.length === 0]), so the arrays are
    plain lists; [timestamp] may be missing. *)
Record Transaction := {
  signature : string;
  slot : Z;
  timestamp : option Z;
  fee : Z;
  accounts : list string;
  instructions : list Instruction;
  balanceChanges : list BalanceChange;
  tokenTransfers : list TokenTransfer;
  status : string
}.

(** [enableFiltering] is whatever value the caller passed: the filter
    only tests its truthiness. *)
Record Options := {
  enableFiltering : JSValue;
  minAmount : float;
  maxAge : Z
}.

Record Filter := {
  options : Options;
  blacklistAddresses : gset string;
  whitelistPrograms : gset string
}.

(** The constructor's rule sets and options.  The options object is
    spread last ([{ enableFiltering: options.enableFiltering !== false,
    minAmount: .., maxAge: .., ...options }]), so an option the caller
    passes is taken as it is, of whatever type, and the default stands
    only for an option left out ([undefined !== false] is [true]). *)
Definition new_TransactionFilter (enable : option JSValue) (minAmt : option float)
    (age : option Z) : Filter :=
  {| options :=
       {| enableFiltering := match enable with Some e => e | None => JSBoolean true end;
          minAmount := match minAmt with Some q => q | None => 0.001%float end;
          maxAge := match age with Some a => a | None => 86400000 end |};
     blacklistAddresses :=
       {[ "11111111111111111111111111111112";
          "TokenkegQfeZyiNwAJbNbGKPFXCWuBvf9Ss623VQ5DA";
          "ATokenGPvbdGVxr1b2hvZbsiqW5xWH25efTNsLJA8knL" ]};
     whitelistPrograms :=
       {[ "9WzDXwBbmkg8ZTbNMqUxvQRAyrZzDsGYdLVL9zYtAWWM";
          "JUP4Fb2cqiRUcaTHdrPC8h2gNsA2ETXiPDD33WcGuJB";
          "whirLbMiicVdio4qvUfM5KAg6Ct8VwpYzGff3uctyCc" ]} |}.

Definition passesAgeFilter (now : Z) (f : Filter) (tx : Transaction) : bool :=
  match timestamp tx with
  | None => true
  | Some ts =>
      if truthy_Z ts then now - ts <=? maxAge (options f) else true
  end.

(** [Math.abs(transfer.uiChange) >= minAmount] *)
Definition significant (f : Filter) (transfer : TokenTransfer) : bool :=
  Double.ge (PrimFloat.abs (tt_uiChange transfer)) (minAmount (options f)).

(** [balanceChanges.reduce((total, c) => total + Math.abs(c.change), 0)]:
    the doubles are added from the left, each sum rounded. *)
Definition solChange (changes : list BalanceChange) : float :=
  fold_left (λ total c, PrimFloat.add total (PrimFloat.abs (bc_change c))) changes 0%float.

(** [solChange / 1e9] *)
Definition lamports_to_sol (lamports : float) : float :=
  PrimFloat.div lamports 1000000000%float.

Definition passesAmountFilter (f : Filter) (tx : Transaction) : bool :=
  match tokenTransfers tx with
  | _ :: _ => existsb (significant f) (tokenTransfers tx)
  | [] =>
      match balanceChanges tx with
      | _ :: _ =>
          Double.ge (lamports_to_sol (solChange (balanceChanges tx)))
                      (minAmount (options f))
      | [] => true
      end
  end.

Definition passesProgramFilter (f : Filter) (tx : Transaction) : bool :=
  match instructions tx with
  | [] => true
  | _ :: _ =>
      existsb (λ i, bool_decide (programId i ∈ whitelistPrograms f))
              (instructions tx)
  end.

Definition passesAddressFilter (f : Filter) (tx : Transaction) : bool :=
  match accounts tx with
  | [] => true
  | _ :: _ =>
      let nonBlacklistedAccounts :=
        List.filter (λ a, negb (bool_decide (a ∈ blacklistAddresses f)))
                    (accounts tx) in
      0 <? Z.of_nat (length nonBlacklistedAccounts)
  end.

Definition nonempty {A} (l : list A) : bool :=
  match l with [] => false | _ :: _ => true end.

Definition passesTypeFilter (tx : Transaction) : bool :=
  if negb (String.eqb (status tx) "success") then false
  else
    let hasTokenTransfers := nonempty (tokenTransfers tx) in
    let hasBalanceChanges := nonempty (balanceChanges tx) in
    hasTokenTransfers || hasBalanceChanges.

Definition shouldInclude (now : Z) (f : Filter) (tx : Transaction) : bool :=
  if negb (truthy (enableFiltering (options f))) then true
  else if negb (passesAgeFilter now f tx) then false
  else if negb (passesAmountFilter f tx) then false
  else if negb (passesProgramFilter f tx) then false
  else if negb (passesAddressFilter f tx) then false
  else if negb (passesTypeFilter tx) then false
  else true.

(** Mutators of the two rule sets. *)
Definition addToBlacklist (address : string) (f : Filter) : Filter :=
  {| options := options f;
     blacklistAddresses := {[ address ]} ∪ blacklistAddresses f;
     whitelistPrograms := whitelistPrograms f |}.

Definition removeFromBlacklist (address : string) (f : Filter) : Filter :=
  {| options := options f;
     blacklistAddresses := blacklistAddresses f ∖ {[ address ]};
     whitelistPrograms := whitelistPrograms f |}.

Definition addToWhitelist (p : string) (f : Filter) : Filter :=
  {| options := options f;
     blacklistAddresses := blacklistAddresses f;
     whitelistPrograms := {[ p ]} ∪ whitelistPrograms f |}.

Definition removeFromWhitelist (p : string) (f : Filter) : Filter :=
  {| options := options f;
     blacklistAddresses := blacklistAddresses f;
     whitelistPrograms := whitelistPrograms f ∖ {[ p ]} |}.

End TransactionFilter.

(** ** CacheManager *)

Module CacheManager.

Section WithData.
Context {D : Type}.

Record Entry := {
  data : D;
  expiresAt : Z;
  createdAt : Z
}.

Record Manager := {
  defaultTTL : Z;
  maxSize : Z;
  cleanupInterval : Z;
  cache : JSMap.t Entry;
  accessTimes : JSMap.t Z
}.

Definition with_maps (m : Manager) (c : JSMap.t Entry) (a : JSMap.t Z) : Manager :=
  {| defaultTTL := defaultTTL m; maxSize := maxSize m;
     cleanupInterval := cleanupInterval m; cache := c; accessTimes := a |}.

(** [delete(key)] *)
Definition delete (key : string) (m : Manager) : bool * Manager :=
  (JSMap.has key (cache m),
   with_maps m (JSMap.delete key (cache m)) (JSMap.delete key (accessTimes m))).

(** The loop of [evictOldest]: the first key, in insertion order, whose
    access time is the smallest one below [Date.now()]. *)
Definition oldest (now : Z) (times : JSMap.t Z) : option string * Z :=
  fold_left (λ (acc : option string * Z) (kv : string * Z),
               if kv.2 <? acc.2 then (Some kv.1, kv.2) else acc)
            times (None, now).

Definition evictOldest (now : Z) (m : Manager) : Manager :=
  if JSMap.size (accessTimes m) =? 0 then m
  else
    match (oldest now (accessTimes m)).1 with
    | Some oldestKey =>
        if truthy_string oldestKey then (delete oldestKey m).2 else m
    | None => m
    end.

(** [set(key, data, ttl = this.options.defaultTTL)] *)
Definition set (now : Z) (key : string) (d : D) (ttl : option Z)
    (m : Manager) : Manager :=
  let m1 := if maxSize m <=? JSMap.size (cache m) then evictOldest now m else m in
  let ttl' := match ttl with Some t => t | None => defaultTTL m end in
  with_maps m1
    (JSMap.set key {| data := d; expiresAt := now + ttl'; createdAt := now |}
               (cache m1))
    (JSMap.set key now (accessTimes m1)).

(** [get(key)]: the cached data, or [None] for the source's [null]. *)
Definition get (now : Z) (key : string) (m : Manager) : option D * Manager :=
  match JSMap.get key (cache m) with
  | None => (None, m)
  | Some entry =>
      if expiresAt entry <? now then (None, (delete key m).2)
      else (Some (data entry),
            with_maps m (cache m) (JSMap.set key now (accessTimes m)))
  end.

(** [cleanup()] *)
Definition cleanup (now : Z) (m : Manager) : Manager :=
  let keysToDelete :=
    map fst (List.filter (λ kv : string * Entry, expiresAt kv.2 <? now) (cache m)) in
  fold_left (λ acc key, (delete key acc).2) keysToDelete m.

(** [clear()] *)
Definition clear (m : Manager) : Manager :=
  with_maps m JSMap.empty JSMap.empty.

(** [keys()] *)
Definition keys (m : Manager) : list string := map fst (cache m).

(** The object [getWithMetadata(key)] returns; [lastAccessed] is what
    [accessTimes.get(key)] gives. *)
Record Metadata := {
  md_data : D;
  md_createdAt : Z;
  md_expiresAt : Z;
  md_lastAccessed : option Z;
  md_ttl : Z
}.

Definition getWithMetadata (now : Z) (key : string) (m : Manager)
    : option Metadata * Manager :=
  match JSMap.get key (cache m) with
  | None => (None, m)
  | Some entry =>
      if expiresAt entry <? now then (None, (delete key m).2)
      else (Some {| md_data := data entry;
                    md_createdAt := createdAt entry;
                    md_expiresAt := expiresAt entry;
                    md_lastAccessed := JSMap.get key (accessTimes m);
                    md_ttl := expiresAt entry - now |},
            m)
  end.

(** The calls a user of the cache can make, and a sequence of them. *)
Inductive Call :=
| CallSet (now : Z) (key : string) (d : D) (ttl : option Z)
| CallGet (now : Z) (key : string)
| CallGetWithMetadata (now : Z) (key : string)
| CallDelete (key : string)
| CallClear
| CallCleanup (now : Z).

Definition call (m : Manager) (c : Call) : Manager :=
  match c with
  | CallSet now key d ttl => set now key d ttl m
  | CallGet now key => (get now key m).2
  | CallGetWithMetadata now key => (getWithMetadata now key m).2
  | CallDelete key => (delete key m).2
  | CallClear => clear m
  | CallCleanup now => cleanup now m
  end.

Definition calls (cs : list Call) (m : Manager) : Manager := fold_left call cs m.

(** The constructor, the options being given. *)
Definition new_CacheManager (ttl size interval : Z) : Manager :=
  {| defaultTTL := ttl; maxSize := size; cleanupInterval := interval;
     cache := JSMap.empty; accessTimes := JSMap.empty |}.

End WithData.

Arguments Entry : clear implicits.
Arguments Manager : clear implicits.
Arguments Metadata : clear implicits.
Arguments Call : clear implicits.

End CacheManager.

(** ** TokenDataService *)

Module TokenDataService.

(** The [data] object of a Birdeye [token_overview] reply; every field
    may be missing. *)
Record RawTokenData := {
  raw_address : option string;
  raw_symbol : option string;
  raw_name : option string;
  raw_decimals : option Z;
  raw_logo_uri : option string;
  raw_price : option Q;
  raw_price_change_24h : option Q;
  raw_volume_24h : option Q;
  raw_market_cap : option Q;
  raw_total_supply : option Q;
  raw_circulating_supply : option Q;
  raw_liquidity : option Q;
  raw_website : option string;
  raw_twitter : option string;
  raw_telegram : option string;
  raw_discord : option string
}.

Record Extensions := {
  website : option string;
  twitter : option string;
  telegram : option string;
  discord : option string
}.

Record TokenData := {
  address : option string;
  symbol : string;
  name : string;
  decimals : Z;
  logoURI : option string;
  price : Q;
  priceUsd : option Q;
  priceChange24h : Q;
  volume24h : Q;
  marketCap : Q;
  supply : Q;
  circulatingSupply : Q;
  liquidity : Q;
  lastUpdated : Z;
  extensions : Extensions
}.

(** [x || d] and [x || null] on strings, [x || 0] on numbers. *)
Definition or_string (x : option string) (d : string) : string :=
  match x with
  | Some s => if truthy_string s then s else d
  | None => d
  end.

Definition or_null (x : option string) : option string :=
  match x with
  | Some s => if truthy_string s then Some s else None
  | None => None
  end.

Definition or_zero (x : option Q) : Q :=
  match x with
  | Some q => if Qeq_bool q 0 then 0%Q else q
  | None => 0%Q
  end.

Definition processTokenData (now : Z) (rawData : RawTokenData) : TokenData :=
  {| address := raw_address rawData;
     symbol := or_string (raw_symbol rawData) "UNKNOWN";
     name := or_string (raw_name rawData) "Unknown Token";
     decimals := or_default_Z (raw_decimals rawData) 9;
     logoURI := or_null (raw_logo_uri rawData);
     price := or_zero (raw_price rawData);
     priceUsd := Some (or_zero (raw_price rawData));
     priceChange24h := or_zero (raw_price_change_24h rawData);
     volume24h := or_zero (raw_volume_24h rawData);
     marketCap := or_zero (raw_market_cap rawData);
     supply := or_zero (raw_total_supply rawData);
     circulatingSupply := or_zero (raw_circulating_supply rawData);
     liquidity := or_zero (raw_liquidity rawData);
     lastUpdated := now;
     extensions :=
       {| website := or_null (raw_website rawData);
          twitter := or_null (raw_twitter rawData);
          telegram := or_null (raw_telegram rawData);
          discord := or_null (raw_discord rawData) |} |}.

(** Entries of the three cache tiers. *)
Record CacheEntry := { ce_data : TokenData; ce_timestamp : Z }.
Record PriceEntry := { pe_price : Q; pe_timestamp : Z }.
Record LogoEntry := { le_logoURI : string; le_timestamp : Z }.

(** A promise is known by the number it was created under. *)
Definition PromiseId := nat.

Record Service := {
  cacheTimeout : Z;
  birdeyeApiKey : option string;
  maxRetries : Z;
  retryDelay : Z;
  cache : JSMap.t CacheEntry;
  priceCache : JSMap.t PriceEntry;
  logoCache : JSMap.t LogoEntry;
  pendingRequests : JSMap.t PromiseId;
  nextPromise : PromiseId
}.

Definition with_cache (s : Service) (c : JSMap.t CacheEntry) : Service :=
  {| cacheTimeout := cacheTimeout s; birdeyeApiKey := birdeyeApiKey s;
     maxRetries := maxRetries s; retryDelay := retryDelay s;
     cache := c; priceCache := priceCache s; logoCache := logoCache s;
     pendingRequests := pendingRequests s; nextPromise := nextPromise s |}.

Definition with_priceCache (s : Service) (c : JSMap.t PriceEntry) : Service :=
  {| cacheTimeout := cacheTimeout s; birdeyeApiKey := birdeyeApiKey s;
     maxRetries := maxRetries s; retryDelay := retryDelay s;
     cache := cache s; priceCache := c; logoCache := logoCache s;
     pendingRequests := pendingRequests s; nextPromise := nextPromise s |}.

Definition with_logoCache (s : Service) (c : JSMap.t LogoEntry) : Service :=
  {| cacheTimeout := cacheTimeout s; birdeyeApiKey := birdeyeApiKey s;
     maxRetries := maxRetries s; retryDelay := retryDelay s;
     cache := cache s; priceCache := priceCache s; logoCache := c;
     pendingRequests := pendingRequests s; nextPromise := nextPromise s |}.

Definition with_pending (s : Service) (p : JSMap.t PromiseId) (n : PromiseId) : Service :=
  {| cacheTimeout := cacheTimeout s; birdeyeApiKey := birdeyeApiKey s;
     maxRetries := maxRetries s; retryDelay := retryDelay s;
     cache := cache s; priceCache := priceCache s; logoCache := logoCache s;
     pendingRequests := p; nextPromise := n |}.

(** *** Lookups with expiry on read *)

Definition getCachedToken (now : Z) (tokenMint : string) (s : Service)
    : option TokenData * Service :=
  match JSMap.get tokenMint (cache s) with
  | None => (None, s)
  | Some cached =>
      if cacheTimeout s <? now - ce_timestamp cached
      then (None, with_cache s (JSMap.delete tokenMint (cache s)))
      else (Some (ce_data cached), s)
  end.

Definition getCachedPrice (now : Z) (tokenMint : string) (s : Service)
    : option Q * Service :=
  match JSMap.get tokenMint (priceCache s) with
  | None => (None, s)
  | Some cached =>
      if 60000 <? now - pe_timestamp cached
      then (None, with_priceCache s (JSMap.delete tokenMint (priceCache s)))
      else (Some (pe_price cached), s)
  end.

Definition getCachedLogo (now : Z) (tokenMint : string) (s : Service)
    : option string * Service :=
  match JSMap.get tokenMint (logoCache s) with
  | None => (None, s)
  | Some cached =>
      if 3600000 <? now - le_timestamp cached
      then (None, with_logoCache s (JSMap.delete tokenMint (logoCache s)))
      else (Some (le_logoURI cached), s)
  end.

(** *** Inserts *)

Definition cacheTokenLogo (now : Z) (tokenMint logo : string) (s : Service) : Service :=
  with_logoCache s
    (JSMap.set tokenMint {| le_logoURI := logo; le_timestamp := now |} (logoCache s)).

Definition cacheTokenData (now : Z) (tokenMint : string) (d : option TokenData)
    (s : Service) : Service :=
  match d with
  | None => s
  | Some d =>
      let s1 := with_cache s
                  (JSMap.set tokenMint {| ce_data := d; ce_timestamp := now |} (cache s)) in
      let s2 := match priceUsd d with
                | Some p =>
                    with_priceCache s1
                      (JSMap.set tokenMint {| pe_price := p; pe_timestamp := now |}
                                 (priceCache s1))
                | None => s1
                end in
      match logoURI d with
      | Some logo => if truthy_string logo then cacheTokenLogo now tokenMint logo s2 else s2
      | None => s2
      end
  end.

(** [cleanupExpiredCache()] *)
Definition cleanupExpiredCache (now : Z) (s : Service) : Service :=
  let s1 := with_cache s
              (List.filter (λ kv : string * CacheEntry,
                              negb (cacheTimeout s <? now - ce_timestamp kv.2)) (cache s)) in
  let s2 := with_priceCache s1
              (List.filter (λ kv : string * PriceEntry,
                              negb (60000 <? now - pe_timestamp kv.2)) (priceCache s1)) in
  with_logoCache s2
    (List.filter (λ kv : string * LogoEntry,
                    negb (3600000 <? now - le_timestamp kv.2)) (logoCache s2)).

(** *** The upstream and [fetchTokenData] *)

Record Body := { success : bool; data : option RawTokenData }.

(** What one [fetch(url, {headers})] of the retry loop comes back with:
    the request is rejected, or a response with a status arrives whose
    JSON body parses ([Some]) or not ([None]). *)
Inductive Outcome :=
| Rejected
| Replied (httpStatus : Z) (body : option Body).

Record Reply := { arrivedAt : Z; outcome : Outcome }.

Inductive FetchError :=
| NetworkError
| HttpError (httpStatus : Z)
| ParseError
| InvalidFormat.

Inductive IO :=
| FetchTokenData (tokenMint : string)
| HttpGet (tokenMint : string)
| Delay (ms : Z).

Definition response_ok (httpStatus : Z) : bool :=
  (200 <=? httpStatus) && (httpStatus <=? 299).

(** The body of the [try] of one attempt. *)
Definition attempt_result (r : Reply) : TokenData + FetchError :=
  match outcome r with
  | Rejected => inr NetworkError
  | Replied st body =>
      if negb (response_ok st) then inr (HttpError st)
      else
        match body with
        | None => inr ParseError
        | Some b =>
            match success b, data b with
            | true, Some raw => inl (processTokenData (arrivedAt r) raw)
            | _, _ => inr InvalidFormat
            end
        end
  end.

(** [for (attempt = 0; attempt < maxRetries; attempt++)], then
    [throw lastError]; [upstream i] answers the request of attempt [i]. *)
Fixpoint fetchLoop (s : Service) (tokenMint : string) (upstream : nat → Reply)
    (remaining attempt : nat) (lastError : option FetchError)
    : (TokenData + option FetchError) * list IO :=
  match remaining with
  | O => (inr lastError, [])
  | S remaining' =>
      match attempt_result (upstream attempt) with
      | inl d => (inl d, [HttpGet tokenMint])
      | inr e =>
          let pause :=
            if Z.of_nat attempt <? maxRetries s - 1
            then [Delay (retryDelay s * 2 ^ Z.of_nat attempt)] else [] in
          let rest := fetchLoop s tokenMint upstream remaining' (S attempt) (Some e) in
          (rest.1, HttpGet tokenMint :: pause ++ rest.2)
      end
  end.

Definition fetchTokenData (s : Service) (tokenMint : string) (upstream : nat → Reply)
    : (TokenData + option FetchError) * list IO :=
  fetchLoop s tokenMint upstream (Z.to_nat (maxRetries s)) 0%nat None.

(** *** [getTokenData]

    The asynchronous function runs in two pieces.  [getTokenData_call] is
    the synchronous piece up to its first [await]: it answers from the
    cache, joins the pending request of the same mint, or starts a fetch
    and registers it.  When the awaited promise settles,
    [getTokenData_settled] is the rest of the call that started the fetch
    ([try]/[catch]/[finally]) and [getTokenData_joined] the rest of a
    call that joined. *)

Inductive Started :=
| Resolved (result : option TokenData)
| Joined (p : PromiseId)
| Fetching (p : PromiseId).

Inductive Completion :=
| Returned (result : option TokenData)
| Thrown (error : option FetchError).

Definition getTokenData_call (now : Z) (tokenMint : string) (s : Service)
    : Started * Service * list IO :=
  if negb (truthy_string tokenMint) then (Resolved None, s, [])
  else
    match getCachedToken now tokenMint s with
    | (Some cached, s1) => (Resolved (Some cached), s1, [])
    | (None, s1) =>
        match JSMap.get tokenMint (pendingRequests s1) with
        | Some p => (Joined p, s1, [])
        | None =>
            let promise := nextPromise s1 in
            (Fetching promise,
             with_pending s1 (JSMap.set tokenMint promise (pendingRequests s1))
                          (S promise),
             [FetchTokenData tokenMint])
        end
    end.

Definition getTokenData_settled (now : Z) (tokenMint : string)
    (result : TokenData + option FetchError) (s : Service)
    : Completion * Service :=
  let s1 := match result with
            | inl d => cacheTokenData now tokenMint (Some d) s
            | inr _ => s
            end in
  (Returned match result with inl d => Some d | inr _ => None end,
   with_pending s1 (JSMap.delete tokenMint (pendingRequests s1)) (nextPromise s1)).

Definition getTokenData_joined (result : TokenData + option FetchError) : Completion :=
  match result with
  | inl d => Returned (Some d)
  | inr e => Thrown e
  end.

(** One call run to completion, [upstream] answering the request it
    awaits and [settledAt] being the clock when the promise settles. *)
Definition getTokenData (now : Z) (tokenMint : string) (upstream : nat → Reply)
    (settledAt : Z) (s : Service) : Completion * Service * list IO :=
  match getTokenData_call now tokenMint s with
  | (Resolved r, s1, io) => (Returned r, s1, io)
  | (Joined _, s1, io) =>
      (getTokenData_joined (fetchTokenData s1 tokenMint upstream).1, s1, io)
  | (Fetching _, s1, io) =>
      let fetched := fetchTokenData s1 tokenMint upstream in
      let done := getTokenData_settled settledAt tokenMint fetched.1 s1 in
      (done.1, done.2, io ++ fetched.2)
  end.

(** Calls issued one after the other, at the given clock values, before
    any promise settles. *)
Fixpoint getTokenData_calls (times : list Z) (tokenMint : string) (s : Service)
    : list Started * Service * list IO :=
  match times with
  | [] => ([], s, [])
  | now :: times' =>
      let '(st, s1, io) := getTokenData_call now tokenMint s in
      let '(sts, s2, ios) := getTokenData_calls times' tokenMint s1 in
      (st :: sts, s2, io ++ ios)
  end.

(** *** The derived lookups and the batch *)

(** [getTokenPrice(tokenMint)], run to completion like [getTokenData];
    a rejection of the awaited call is caught and gives [null]. *)
Definition getTokenPrice (now : Z) (tokenMint : string) (upstream : nat → Reply)
    (settledAt : Z) (s : Service) : option Q * Service * list IO :=
  match getCachedPrice now tokenMint s with
  | (Some cachedPrice, s1) => (Some cachedPrice, s1, [])
  | (None, s1) =>
      let r := getTokenData now tokenMint upstream settledAt s1 in
      (match r.1.1 with
       | Returned (Some tokenData) => priceUsd tokenData
       | Returned None => None
       | Thrown _ => None
       end, r.1.2, r.2)
  end.

(** [getTokenLogo(tokenMint)] *)
Definition getTokenLogo (now : Z) (tokenMint : string) (upstream : nat → Reply)
    (settledAt : Z) (s : Service) : option string * Service * list IO :=
  let fetched (s1 : Service) :=
    let r := getTokenData now tokenMint upstream settledAt s1 in
    match r.1.1 with
    | Returned (Some tokenData) =>
        match logoURI tokenData with
        | Some logo =>
            if truthy_string logo
            then (Some logo, cacheTokenLogo settledAt tokenMint logo r.1.2, r.2)
            else (Some logo, r.1.2, r.2)
        | None => (None, r.1.2, r.2)
        end
    | Returned None => (None, r.1.2, r.2)
    | Thrown _ => (None, r.1.2, r.2)
    end in
  match getCachedLogo now tokenMint s with
  | (Some cachedLogo, s1) =>
      if truthy_string cachedLogo then (Some cachedLogo, s1, []) else fetched s1
  | (None, s1) => fetched s1
  end.

(** [fetchBatchTokenData(tokenMints)]: one [fetchTokenData] per mint, each
    with the replies the upstream gives for that mint; only the fetches
    that succeed enter the result map.  The requests of the mints are
    listed one mint after the other. *)
Definition fetchBatchTokenData (s : Service) (tokenMints : list string)
    (upstream : string → nat → Reply) : JSMap.t TokenData * list IO :=
  fold_left
    (λ (acc : JSMap.t TokenData * list IO) mint,
       let fetched := fetchTokenData s mint (upstream mint) in
       (match fetched.1 with
        | inl d => JSMap.set mint d acc.1
        | inr _ => acc.1
        end, acc.2 ++ fetched.2))
    tokenMints (JSMap.empty, []).

(** The first loop of [getBatchTokenData], on
    [(results, toFetch, this)]. *)
Definition batch_lookup (now : Z) (acc : JSMap.t TokenData * list string * Service)
    (mint : string) : JSMap.t TokenData * list string * Service :=
  match getCachedToken now mint acc.2 with
  | (Some cached, s1) => (JSMap.set mint cached acc.1.1, acc.1.2, s1)
  | (None, s1) => (acc.1.1, acc.1.2 ++ [mint], s1)
  end.

(** The second loop, on [(results, this)]. *)
Definition batch_store (settledAt : Z) (acc : JSMap.t TokenData * Service)
    (kv : string * TokenData) : JSMap.t TokenData * Service :=
  (JSMap.set kv.1 kv.2 acc.1, cacheTokenData settledAt kv.1 (Some kv.2) acc.2).

Definition getBatchTokenData (now : Z) (tokenMints : list string)
    (upstream : string → nat → Reply) (settledAt : Z) (s : Service)
    : JSMap.t TokenData * Service * list IO :=
  let looked := fold_left (batch_lookup now) tokenMints (JSMap.empty, [], s) in
  match looked.1.2 with
  | [] => (looked.1.1, looked.2, [])
  | _ :: _ =>
      let fetched := fetchBatchTokenData looked.2 looked.1.2 upstream in
      let stored := fold_left (batch_store settledAt) fetched.1 (looked.1.1, looked.2) in
      (stored.1, stored.2, fetched.2)
  end.

(** [clearCache()] *)
Definition clearCache (s : Service) : Service :=
  with_logoCache (with_priceCache (with_cache s JSMap.empty) JSMap.empty) JSMap.empty.

End TokenDataService.

(** ** WebSocketBackend *)

Module WebSocketBackend.

Record Options := {
  apiKeys : list string;
  reconnectAttempts : Z;
  reconnectDelay : Z;
  maxReconnectDelay : Z;
  heartbeatInterval : Z
}.

Inductive ReadyState := CONNECTING | OPEN | CLOSING | CLOSED.

Inductive TimerKind :=
| ReconnectTimer
| HeartbeatTimer
| KeyRotationTimer
| ConnectTimeout
| FailureReset (keyIndex : nat).

(** The [transactionSubscribe] request for one wallet; its random [id]
    is left out. *)
Inductive Message :=
| TransactionSubscribe (accountInclude : list string).

Inductive Effect :=
| Emit (event : string)
| Send (message : Message)
| OpenSocket (url : string)
| CloseSocket (code : Z)
| SetTimeout (timer : TimerKind) (ms : Z)
| SetInterval (timer : TimerKind) (ms : Z)
| ClearTimer (timer : TimerKind).

(** A [connect()] call that reached its [await]: the promise it waits
    for and the two [once] listeners that settle it.  A listener stays
    registered until its event is emitted, also after the promise was
    settled by the other one.  [reschedules] tells that the call was made
    by the callback of the reconnect timer, which attaches
    [.catch(() => this.scheduleReconnect())] to it. *)
Record Attempt := {
  settled : bool;
  onConnected : bool;
  onError : bool;
  reschedules : bool
}.

(** An asynchronous call of the object that is suspended and will be
    resumed in a later turn of the event loop:
    - [resubscribeAll()] at the [await] in its loop, with the wallets of
      its snapshot it has not visited yet;
    - [connect()] whose awaited promise was rejected, about to enter its
      [catch] block;
    - the [.catch] handler of the reconnect callback, about to call
      [scheduleReconnect()]. *)
Inductive Frame :=
| Resubscribing (rest : list string)
| ConnectRejected (reschedules : bool)
| ReconnectFailed.

(** The fields of the object.  A timer field holds the delay the timer
    was armed with; [websocket] holds the ready state of the socket
    object, which the transport changes before it calls a handler.
    [attempts] and [frames] are the part of the run-time state that
    belongs to the object without being a field of it: the listeners
    [connect()] registered on it with their promises, in the order of the
    calls, and its suspended calls, in the order in which they were
    suspended. *)
Record Backend := {
  options : Options;
  websocket : option ReadyState;
  isConnected : bool;
  isConnecting : bool;
  reconnectCount : Z;
  currentApiKeyIndex : nat;
  subscriptions : JSSet.t;
  pendingSubscriptions : JSSet.t;
  lastApiKeyUsage : gmap nat Z;
  apiKeyFailures : gmap nat Z;
  reconnectTimer : option Z;
  heartbeatTimer : option Z;
  keyRotationTimer : option Z;
  attempts : list Attempt;
  frames : list Frame
}.

Definition new_WebSocketBackend (o : Options) : Backend * list Effect :=
  ({| options := o; websocket := None; isConnected := false; isConnecting := false;
      reconnectCount := 0; currentApiKeyIndex := 0%nat;
      subscriptions := JSSet.empty; pendingSubscriptions := JSSet.empty;
      lastApiKeyUsage := ∅; apiKeyFailures := ∅;
      reconnectTimer := None; heartbeatTimer := None;
      keyRotationTimer := Some (5 * 60 * 1000);
      attempts := []; frames := [] |},
   [SetInterval KeyRotationTimer (5 * 60 * 1000)]).

(** *** API key rotation *)

(** [map.get(i) || 0] *)
Definition usage_of (m : gmap nat Z) (i : nat) : Z := or_default_Z (m !! i) 0.

(** [failures > 3 && (currentTime - lastUsage) < 60000] *)
Definition recently_failed (currentTime : Z) (b : Backend) (i : nat) : bool :=
  (3 <? usage_of (apiKeyFailures b) i)
  && (currentTime - usage_of (lastApiKeyUsage b) i <? 60000).

(** One iteration of the selection loop on [(bestKeyIndex, oldestUsage)]. *)
Definition consider (currentTime : Z) (b : Backend) (acc : nat * Z) (i : nat) : nat * Z :=
  let lastUsage := usage_of (lastApiKeyUsage b) i in
  if recently_failed currentTime b i then acc
  else if lastUsage <? acc.2 then (i, lastUsage)
  else acc.

Definition selectKey (currentTime : Z) (b : Backend) : nat * Z :=
  fold_left (consider currentTime b)
            (seq 0 (length (apiKeys (options b)))) (0%nat, currentTime).

Definition getNextApiKey (currentTime : Z) (b : Backend) : option string * Backend :=
  match apiKeys (options b) with
  | [] => (None, b)
  | _ :: _ =>
      let bestKeyIndex := (selectKey currentTime b).1 in
      (apiKeys (options b) !! bestKeyIndex,
       {| options := options b; websocket := websocket b;
          isConnected := isConnected b; isConnecting := isConnecting b;
          reconnectCount := reconnectCount b;
          currentApiKeyIndex := bestKeyIndex;
          subscriptions := subscriptions b;
          pendingSubscriptions := pendingSubscriptions b;
          lastApiKeyUsage := <[bestKeyIndex := currentTime]> (lastApiKeyUsage b);
          apiKeyFailures := apiKeyFailures b;
          reconnectTimer := reconnectTimer b; heartbeatTimer := heartbeatTimer b;
          keyRotationTimer := keyRotationTimer b;
     attempts := attempts b; frames := frames b |})
  end.

Definition markApiKeyFailed (keyIndex : nat) (b : Backend) : Backend * list Effect :=
  let currentFailures := usage_of (apiKeyFailures b) keyIndex in
  ({| options := options b; websocket := websocket b;
      isConnected := isConnected b; isConnecting := isConnecting b;
      reconnectCount := reconnectCount b;
      currentApiKeyIndex := currentApiKeyIndex b;
      subscriptions := subscriptions b;
      pendingSubscriptions := pendingSubscriptions b;
      lastApiKeyUsage := lastApiKeyUsage b;
      apiKeyFailures := <[keyIndex := currentFailures + 1]> (apiKeyFailures b);
      reconnectTimer := reconnectTimer b; heartbeatTimer := heartbeatTimer b;
      keyRotationTimer := keyRotationTimer b;
     attempts := attempts b; frames := frames b |},
   [SetTimeout (FailureReset keyIndex) (10 * 60 * 1000)]).

(** The callback of the failure-reset timer. *)
Definition failureResetFired (keyIndex : nat) (b : Backend) : Backend :=
  {| options := options b; websocket := websocket b;
     isConnected := isConnected b; isConnecting := isConnecting b;
     reconnectCount := reconnectCount b;
     currentApiKeyIndex := currentApiKeyIndex b;
     subscriptions := subscriptions b;
     pendingSubscriptions := pendingSubscriptions b;
     lastApiKeyUsage := lastApiKeyUsage b;
     apiKeyFailures := <[keyIndex := 0]> (apiKeyFailures b);
     reconnectTimer := reconnectTimer b; heartbeatTimer := heartbeatTimer b;
     keyRotationTimer := keyRotationTimer b;
     attempts := attempts b; frames := frames b |}.

(** *** Field updates used by the handlers *)

Definition with_connection (b : Backend) (ws : option ReadyState)
    (connected connecting : bool) (count : Z) : Backend :=
  {| options := options b; websocket := ws;
     isConnected := connected; isConnecting := connecting;
     reconnectCount := count;
     currentApiKeyIndex := currentApiKeyIndex b;
     subscriptions := subscriptions b;
     pendingSubscriptions := pendingSubscriptions b;
     lastApiKeyUsage := lastApiKeyUsage b;
     apiKeyFailures := apiKeyFailures b;
     reconnectTimer := reconnectTimer b; heartbeatTimer := heartbeatTimer b;
     keyRotationTimer := keyRotationTimer b;
     attempts := attempts b; frames := frames b |}.

Definition with_subscriptions (b : Backend) (subs pending : JSSet.t) : Backend :=
  {| options := options b; websocket := websocket b;
     isConnected := isConnected b; isConnecting := isConnecting b;
     reconnectCount := reconnectCount b;
     currentApiKeyIndex := currentApiKeyIndex b;
     subscriptions := subs;
     pendingSubscriptions := pending;
     lastApiKeyUsage := lastApiKeyUsage b;
     apiKeyFailures := apiKeyFailures b;
     reconnectTimer := reconnectTimer b; heartbeatTimer := heartbeatTimer b;
     keyRotationTimer := keyRotationTimer b;
     attempts := attempts b; frames := frames b |}.

Definition with_timers (b : Backend) (rt ht kt : option Z) : Backend :=
  {| options := options b; websocket := websocket b;
     isConnected := isConnected b; isConnecting := isConnecting b;
     reconnectCount := reconnectCount b;
     currentApiKeyIndex := currentApiKeyIndex b;
     subscriptions := subscriptions b;
     pendingSubscriptions := pendingSubscriptions b;
     lastApiKeyUsage := lastApiKeyUsage b;
     apiKeyFailures := apiKeyFailures b;
     reconnectTimer := rt; heartbeatTimer := ht; keyRotationTimer := kt;
     attempts := attempts b; frames := frames b |}.

Definition with_attempts (b : Backend) (a : list Attempt) : Backend :=
  {| options := options b; websocket := websocket b;
     isConnected := isConnected b; isConnecting := isConnecting b;
     reconnectCount := reconnectCount b;
     currentApiKeyIndex := currentApiKeyIndex b;
     subscriptions := subscriptions b;
     pendingSubscriptions := pendingSubscriptions b;
     lastApiKeyUsage := lastApiKeyUsage b;
     apiKeyFailures := apiKeyFailures b;
     reconnectTimer := reconnectTimer b; heartbeatTimer := heartbeatTimer b;
     keyRotationTimer := keyRotationTimer b;
     attempts := a; frames := frames b |}.

Definition with_frames (b : Backend) (f : list Frame) : Backend :=
  {| options := options b; websocket := websocket b;
     isConnected := isConnected b; isConnecting := isConnecting b;
     reconnectCount := reconnectCount b;
     currentApiKeyIndex := currentApiKeyIndex b;
     subscriptions := subscriptions b;
     pendingSubscriptions := pendingSubscriptions b;
     lastApiKeyUsage := lastApiKeyUsage b;
     apiKeyFailures := apiKeyFailures b;
     reconnectTimer := reconnectTimer b; heartbeatTimer := heartbeatTimer b;
     keyRotationTimer := keyRotationTimer b;
     attempts := attempts b; frames := f |}.

(** A call suspends: its frame goes to the end of the queue. *)
Definition suspend (frame : Frame) (b : Backend) : Backend :=
  with_frames b (frames b ++ [frame]).

(** *** Subscriptions *)

Definition sendMessage (message : Message) (b : Backend) : list Effect :=
  match websocket b with
  | Some OPEN => [Send message]
  | _ => []
  end.

Definition subscribeToWallet (walletAddress : string) (b : Backend)
    : bool * Backend * list Effect :=
  if negb (isConnected b) then
    (false,
     with_subscriptions b (subscriptions b)
       (JSSet.add walletAddress (pendingSubscriptions b)),
     [])
  else
    (true,
     with_subscriptions b
       (JSSet.add walletAddress (subscriptions b))
       (JSSet.delete walletAddress (pendingSubscriptions b)),
     sendMessage (TransactionSubscribe [walletAddress]) b).

Definition unsubscribeFromWallet (walletAddress : string) (b : Backend)
    : bool * Backend * list Effect :=
  (true,
   with_subscriptions b
     (JSSet.delete walletAddress (subscriptions b))
     (JSSet.delete walletAddress (pendingSubscriptions b)),
   []).

(** [resubscribeAll()] up to its first [await]: the snapshot is taken,
    the first wallet is subscribed, and the call is suspended with the
    rest of the snapshot still to visit.
    [for (const walletAddress of allSubscriptions) await subscribeToWallet(..)] *)
Definition resubscribeAll (b : Backend) : Backend * list Effect :=
  let allSubscriptions := JSSet.of_spread (subscriptions b) (pendingSubscriptions b) in
  match allSubscriptions with
  | [] => (b, [])
  | walletAddress :: rest =>
      let '(_, b1, e1) := subscribeToWallet walletAddress b in
      (suspend (Resubscribing rest) b1, e1)
  end.

(** *** Connection life cycle *)

Definition setupHeartbeat (b : Backend) : Backend * list Effect :=
  (with_timers b (reconnectTimer b) (Some (heartbeatInterval (options b)))
               (keyRotationTimer b),
   match heartbeatTimer b with Some _ => [ClearTimer HeartbeatTimer] | None => [] end
     ++ [SetInterval HeartbeatTimer (heartbeatInterval (options b))]).

(** The listeners [connect()] left on ["connected"], as [emit] runs them:
    each clears the timeout of its call and resolves its promise, and is
    removed.  (The listeners of the owner of the object are run by the
    owner; they come first, having been registered first.) *)
Definition resolved (a : Attempt) : Attempt :=
  if onConnected a
  then {| settled := true; onConnected := false; onError := onError a;
          reschedules := reschedules a |}
  else a.

Definition connected_listeners (b : Backend) : Backend * list Effect :=
  (with_attempts b (map resolved (attempts b)),
   flat_map (λ a, if onConnected a then [ClearTimer ConnectTimeout] else [])
            (attempts b)).

(** The listeners [connect()] left on ["error"]: each clears the timeout
    of its call and rejects its promise, and is removed; a call whose
    promise was still pending will resume in its [catch] block. *)
Definition rejected (a : Attempt) : Attempt :=
  if onError a
  then {| settled := true; onConnected := onConnected a; onError := false;
          reschedules := reschedules a |}
  else a.

Definition error_listeners (b : Backend) : Backend * list Effect :=
  let thrown :=
    flat_map (λ a, if onError a && negb (settled a)
                   then [ConnectRejected (reschedules a)] else [])
             (attempts b) in
  (with_frames (with_attempts b (map rejected (attempts b))) (frames b ++ thrown),
   flat_map (λ a, if onError a then [ClearTimer ConnectTimeout] else [])
            (attempts b)).

Definition handleOpen (b : Backend) : Backend * list Effect :=
  let b1 := with_connection b (websocket b) true false 0 in
  let '(b2, e2) := connected_listeners b1 in
  let '(b3, e3) := setupHeartbeat b2 in
  let '(b4, e4) := resubscribeAll b3 in
  (b4, Emit "connected" :: e2 ++ e3 ++ e4).

(** [reconnectCount] starts at 0 and is only incremented or reset, so
    [Math.pow(2, reconnectCount)] is the integer power. *)
Definition scheduleReconnect (b : Backend) : Backend * list Effect :=
  if reconnectAttempts (options b) <=? reconnectCount b then
    (b, [Emit "maxReconnectAttemptsReached"])
  else
    let delay := Z.min (reconnectDelay (options b) * 2 ^ reconnectCount b)
                       (maxReconnectDelay (options b)) in
    (with_timers b (Some delay) (heartbeatTimer b) (keyRotationTimer b),
     [SetTimeout ReconnectTimer delay]).

(** [handleClose(event)], [code] being [event.code]. *)
Definition handleClose (code : Z) (b : Backend) : Backend * list Effect :=
  let b1 := with_connection b (websocket b) false false (reconnectCount b) in
  let '(b2, e2) :=
    match heartbeatTimer b1 with
    | Some _ =>
        (with_timers b1 (reconnectTimer b1) None (keyRotationTimer b1),
         [ClearTimer HeartbeatTimer])
    | None => (b1, [])
    end in
  let '(b3, e3) := if negb (code =? 1000) then scheduleReconnect b2 else (b2, []) in
  (b3, e2 ++ Emit "disconnected" :: e3).

Definition handleError (b : Backend) : Backend * list Effect :=
  let '(b1, e1) := markApiKeyFailed (currentApiKeyIndex b) b in
  let '(b2, e2) := error_listeners b1 in
  (b2, e1 ++ Emit "error" :: e2).

(** [connect()] up to its [await]. *)
Inductive Connecting :=
| AlreadyConnected
| NoApiKeys
| AwaitingOpen.

(** The call as it starts to wait: promise pending, both listeners
    registered, nothing attached by the caller yet. *)
Definition waiting : Attempt :=
  {| settled := false; onConnected := true; onError := true; reschedules := false |}.

Definition connect (now : Z) (b : Backend) : Connecting * Backend * list Effect :=
  if isConnected b || isConnecting b then (AlreadyConnected, b, [])
  else
    let '(apiKey, b1) := getNextApiKey now b in
    match apiKey with
    | None => (NoApiKeys, b1, [])
    | Some key =>
        if negb (truthy_string key) then (NoApiKeys, b1, [])
        else
          let b2 := with_connection b1 (Some CONNECTING) (isConnected b1) true
                                    (reconnectCount b1) in
          (AwaitingOpen,
           with_attempts b2 (attempts b2 ++ [waiting]),
           [OpenSocket ("wss://atlas-mainnet.helius-rpc.com/ws?api-key=" ++ key)%string;
            SetTimeout ConnectTimeout 10000])
    end.

(** [.catch(..)] on the promise of the [connect()] call just made. *)
Definition catching (a : list Attempt) : list Attempt :=
  alter (λ x, {| settled := settled x; onConnected := onConnected x;
                 onError := onError x; reschedules := true |})
        (length a - 1)%nat a.

(** The callback [scheduleReconnect] arms:
    [this.reconnectCount++; this.connect().catch(() => this.scheduleReconnect())].
    [connect()] is asynchronous: when it throws for lack of a key, the
    handler of [.catch] runs in a later turn; when it waits, the handler
    stays attached to its promise. *)
Definition reconnectTimerFired (now : Z) (b : Backend) : Backend * list Effect :=
  let b1 := with_connection b (websocket b) (isConnected b) (isConnecting b)
                            (reconnectCount b + 1) in
  let '(outcome, b2, e2) := connect now b1 in
  match outcome with
  | AlreadyConnected => (b2, e2)
  | NoApiKeys => (suspend ReconnectFailed b2, e2)
  | AwaitingOpen => (with_attempts b2 (catching (attempts b2)), e2)
  end.

(** The suspended call at position [k] of the queue is resumed and runs
    to its next [await] or to its end:
    - the replay subscribes the next wallet of its snapshot and is
      suspended again, or ends when none is left;
    - [connect()] runs its [catch] block,
      [this.isConnecting = false; this.markApiKeyFailed(..); throw error],
      which rejects the promise it returned;
    - the handler of [.catch] calls [scheduleReconnect()]. *)
Definition resume (k : nat) (b : Backend) : Backend * list Effect :=
  match frames b !! k with
  | None => (b, [])
  | Some frame =>
      let b0 := with_frames b (delete k (frames b)) in
      match frame with
      | Resubscribing [] => (b0, [])
      | Resubscribing (walletAddress :: rest) =>
          let '(_, b1, e1) := subscribeToWallet walletAddress b0 in
          (suspend (Resubscribing rest) b1, e1)
      | ConnectRejected reschedules =>
          let b1 := with_connection b0 (websocket b0) (isConnected b0) false
                                    (reconnectCount b0) in
          let '(b2, e2) := markApiKeyFailed (currentApiKeyIndex b1) b1 in
          (if reschedules then suspend ReconnectFailed b2 else b2, e2)
      | ReconnectFailed => scheduleReconnect b0
      end
  end.

(** What the transport does to the object: the socket opens, closes or
    fails, and the matching handler runs. *)
Definition socketOpened (b : Backend) : Backend * list Effect :=
  handleOpen (with_connection b (Some OPEN) (isConnected b) (isConnecting b)
                              (reconnectCount b)).

Definition socketClosed (code : Z) (b : Backend) : Backend * list Effect :=
  handleClose code
    (with_connection b (match websocket b with Some _ => Some CLOSED | None => None end)
                     (isConnected b) (isConnecting b) (reconnectCount b)).

Definition socketError (b : Backend) : Backend * list Effect := handleError b.

(** [disconnect()]: it clears the three timers the object holds a handle
    of; the timeout of a [connect()] call and the failure-reset timers of
    [markApiKeyFailed] are known to their closures only and are left
    running, and what is suspended stays suspended. *)
Definition disconnect (b : Backend) : Backend * list Effect :=
  let e1 := match reconnectTimer b with Some _ => [ClearTimer ReconnectTimer] | None => [] end in
  let e2 := match heartbeatTimer b with Some _ => [ClearTimer HeartbeatTimer] | None => [] end in
  let e3 := match keyRotationTimer b with Some _ => [ClearTimer KeyRotationTimer] | None => [] end in
  let e4 := match websocket b with Some _ => [CloseSocket 1000] | None => [] end in
  (with_subscriptions
     (with_timers (with_connection b None false false (reconnectCount b)) None None None)
     JSSet.empty JSSet.empty,
   e1 ++ e2 ++ e3 ++ e4).

(** The messages a list of effects puts on the wire. *)
Definition sent (effects : list Effect) : list string :=
  flat_map (λ e, match e with
                 | Send (TransactionSubscribe ws) => ws
                 | _ => []
                 end) effects.

Definition scheduled (effects : list Effect) : list Z :=
  flat_map (λ e, match e with
                 | SetTimeout ReconnectTimer ms => [ms]
                 | _ => []
                 end) effects.

(** *** Decoding balance changes *)

(** A JavaScript number that is an integer, or [NaN]. *)
Inductive Number := Num (z : Z) | NaN.

(** The parts of a raw notification [extractBalanceChanges] reads:
    [rawData.transaction?.meta] with its two balance arrays, and
    [rawData.transaction?.transaction?.message] with its [accountKeys];
    each may be missing. *)
Record RawMeta := {
  rm_preBalances : option (list Z);
  rm_postBalances : option (list Z)
}.

Record RawMessage := { rm_accountKeys : option (list string) }.

Record RawData := {
  rd_meta : option RawMeta;
  rd_message : option RawMessage
}.

Record RawBalanceChange := {
  rb_accountIndex : nat;
  rb_account : option string;
  rb_change : Number;
  rb_preBalance : Z;
  rb_postBalance : option Z
}.

(** [message?.accountKeys[i]]: [undefined] without a message, a
    [TypeError] (the outer [None]) for a message without [accountKeys]. *)
Definition account_at (message : option RawMessage) (i : nat) : option (option string) :=
  match message with
  | None => Some None
  | Some m =>
      match rm_accountKeys m with
      | None => None
      | Some keys => Some (keys !! i)
      end
  end.

Definition is_zero (n : Number) : bool :=
  match n with Num z => z =? 0 | NaN => false end.

(** The loop over [meta.preBalances], from index [i] on; [None] when the
    loop throws. *)
Fixpoint changes_from (message : option RawMessage) (postBalances : list Z)
    (preBalances : list Z) (i : nat) : option (list RawBalanceChange) :=
  match preBalances with
  | [] => Some []
  | preBalance :: rest =>
      let postBalance := postBalances !! i in
      let change := match postBalance with
                    | Some post => Num (post - preBalance)
                    | None => NaN
                    end in
      if is_zero change then changes_from message postBalances rest (S i)
      else
        match account_at message i with
        | None => None
        | Some account =>
            match changes_from message postBalances rest (S i) with
            | None => None
            | Some changes =>
                Some ({| rb_accountIndex := i; rb_account := account;
                         rb_change := change; rb_preBalance := preBalance;
                         rb_postBalance := postBalance |} :: changes)
            end
        end
  end.

Definition extractBalanceChanges (rawData : RawData) : option (list RawBalanceChange) :=
  match rd_meta rawData with
  | None => Some []
  | Some meta =>
      match rm_preBalances meta, rm_postBalances meta with
      | Some pre, Some post => changes_from (rd_message rawData) post pre 0
      | _, _ => Some []
      end
  end.

(** *** Replacing the pool *)

Definition updateApiKeys (newApiKeys : list string) (b : Backend) : Backend :=
  {| options :=
       {| apiKeys := newApiKeys;
          reconnectAttempts := reconnectAttempts (options b);
          reconnectDelay := reconnectDelay (options b);
          maxReconnectDelay := maxReconnectDelay (options b);
          heartbeatInterval := heartbeatInterval (options b) |};
     websocket := websocket b;
     isConnected := isConnected b; isConnecting := isConnecting b;
     reconnectCount := reconnectCount b;
     currentApiKeyIndex := 0%nat;
     subscriptions := subscriptions b;
     pendingSubscriptions := pendingSubscriptions b;
     lastApiKeyUsage := ∅;
     apiKeyFailures := ∅;
     reconnectTimer := reconnectTimer b; heartbeatTimer := heartbeatTimer b;
     keyRotationTimer := keyRotationTimer b;
     attempts := attempts b; frames := frames b |}.

End WebSocketBackend.

(** ** WalletTracker *)

Module WalletTracker.

Import WebSocketBackend.

(** [/^[1-9A-HJ-NP-Za-km-z]{32,44}$/] *)
Definition between (lo hi c : ascii) : bool :=
  (Ascii.leb lo c && Ascii.leb c hi)%bool.

Definition base58_char (c : ascii) : bool :=
  (between "1" "9" c || between "A" "H" c || between "J" "N" c
   || between "P" "Z" c || between "a" "k" c || between "m" "z" c)%char.

Definition validateWalletAddress (address : string) : bool :=
  if negb (truthy_string address) then false
  else
    forallb base58_char (list_ascii_of_string address)
    && (32 <=? Z.of_nat (String.length address))
    && (Z.of_nat (String.length address) <=? 44).

(** [array.slice(0, end)] for an integer [end]: a negative [end] counts
    from the end of the array. *)
Definition slice0 {A} (l : list A) (e : Z) : list A :=
  if e <? 0 then take (Z.to_nat (Z.max (Z.of_nat (length l) + e) 0)) l
  else take (Z.to_nat e) l.

(** [addTransaction(transaction)] on the [transactions] array. *)
Definition addTransaction {A} (maxTransactions : Z) (transaction : A)
    (transactions : list A) : list A :=
  let unshifted := transaction :: transactions in
  if maxTransactions <? Z.of_nat (length unshifted)
  then slice0 unshifted maxTransactions
  else unshifted.

Section WithTransaction.
Context {Tx : Type}.

(** The fields the modelled methods read or write, and [stopsPending]:
    the number of [stop()] calls suspended at
    [await this.websocketBackend.disconnect()], each of which has
    [this.trackedWallets.clear()] still to run. *)
Record Tracker := {
  maxTransactions : Z;
  websocketBackend : Backend;
  trackedWallets : JSSet.t;
  transactions : list Tx;
  isConnected : bool;
  stopsPending : nat
}.

Inductive Output :=
| FromBackend (e : Effect)
| Notify (event : string).

Definition new_WalletTracker (maxTx : Z) (o : Options) : Tracker :=
  {| maxTransactions := maxTx;
     websocketBackend := (new_WebSocketBackend o).1;
     trackedWallets := JSSet.empty;
     transactions := [];
     isConnected := false;
     stopsPending := 0%nat |}.

Definition with_backend (t : Tracker) (b : Backend) : Tracker :=
  {| maxTransactions := maxTransactions t; websocketBackend := b;
     trackedWallets := trackedWallets t; transactions := transactions t;
     isConnected := isConnected t; stopsPending := stopsPending t |}.

Definition with_tracked (t : Tracker) (w : JSSet.t) : Tracker :=
  {| maxTransactions := maxTransactions t; websocketBackend := websocketBackend t;
     trackedWallets := w; transactions := transactions t;
     isConnected := isConnected t; stopsPending := stopsPending t |}.

Definition with_isConnected (t : Tracker) (c : bool) : Tracker :=
  {| maxTransactions := maxTransactions t; websocketBackend := websocketBackend t;
     trackedWallets := trackedWallets t; transactions := transactions t;
     isConnected := c; stopsPending := stopsPending t |}.

Definition with_transactions (t : Tracker) (l : list Tx) : Tracker :=
  {| maxTransactions := maxTransactions t; websocketBackend := websocketBackend t;
     trackedWallets := trackedWallets t; transactions := l;
     isConnected := isConnected t; stopsPending := stopsPending t |}.

Definition with_stopsPending (t : Tracker) (n : nat) : Tracker :=
  {| maxTransactions := maxTransactions t; websocketBackend := websocketBackend t;
     trackedWallets := trackedWallets t; transactions := transactions t;
     isConnected := isConnected t; stopsPending := n |}.

(** [addWallet] and [removeWallet] change the tracker and its backend
    before their [await]; what follows it, the notification of the owner
    and the return, changes neither, and is listed with the call. *)
Definition addWallet (walletAddress : string) (t : Tracker)
    : bool * Tracker * list Output :=
  if negb (validateWalletAddress walletAddress) then (false, t, [Notify "error"])
  else if JSSet.has walletAddress (trackedWallets t) then (true, t, [])
  else
    let t1 := with_tracked t (JSSet.add walletAddress (trackedWallets t)) in
    let '(_, b, e) := subscribeToWallet walletAddress (websocketBackend t1) in
    (true, with_backend t1 b, map FromBackend e ++ [Notify "walletAdded"]).

Definition removeWallet (walletAddress : string) (t : Tracker)
    : bool * Tracker * list Output :=
  if negb (JSSet.has walletAddress (trackedWallets t)) then (true, t, [])
  else
    let t1 := with_tracked t (JSSet.delete walletAddress (trackedWallets t)) in
    let '(_, b, e) := unsubscribeFromWallet walletAddress (websocketBackend t1) in
    (true, with_backend t1 b, map FromBackend e ++ [Notify "walletRemoved"]).

(** The listeners [setupEventHandlers] puts on the backend's
    ["connected"] and ["disconnected"] events. *)
Definition forward_one (acc : Tracker * list Output) (e : Effect)
    : Tracker * list Output :=
  match e with
  | Emit ev =>
      if String.eqb ev "connected"
      then (with_isConnected acc.1 true, acc.2 ++ [FromBackend e; Notify "connected"])
      else if String.eqb ev "disconnected"
      then (with_isConnected acc.1 false, acc.2 ++ [FromBackend e; Notify "disconnected"])
      else if String.eqb ev "error"
      then (acc.1, acc.2 ++ [FromBackend e; Notify "error"])
      else (acc.1, acc.2 ++ [FromBackend e])
  | _ => (acc.1, acc.2 ++ [FromBackend e])
  end.

Definition forward (effects : list Effect) (t : Tracker) : Tracker * list Output :=
  fold_left forward_one effects (t, []).

Definition start (now : Z) (t : Tracker) : Tracker * list Output :=
  let '(_, b, e) := connect now (websocketBackend t) in
  forward e (with_backend t b).

(** [stop()] up to its [await]: the backend is disconnected, and the
    call is suspended before [this.trackedWallets.clear()]. *)
Definition stop (t : Tracker) : Tracker * list Output :=
  let '(b, e) := disconnect (websocketBackend t) in
  forward e (with_stopsPending (with_backend t b) (S (stopsPending t))).

(** A suspended [stop()] is resumed: [this.trackedWallets.clear()]. *)
Definition stopResumed (t : Tracker) : Tracker * list Output :=
  match stopsPending t with
  | O => (t, [])
  | S n => (with_stopsPending (with_tracked t JSSet.empty) n, [])
  end.

(** What can happen to a tracker: calls of its owner, events of the
    socket and of the reconnect timer of its backend, and the resumption
    of a suspended call, of the backend ([Resumed k], the call at
    position [k] of its queue) or of the tracker ([StopResumed]). *)
Inductive Step :=
| AddWallet (walletAddress : string)
| RemoveWallet (walletAddress : string)
| Start (now : Z)
| Stop
| SocketOpened
| SocketClosed (code : Z)
| SocketError
| ReconnectTimerFired (now : Z)
| Resumed (k : nat)
| StopResumed
| Accepted (transaction : Tx).

Definition step (t : Tracker) (s : Step) : Tracker * list Output :=
  match s with
  | AddWallet w => let '(_, t1, o) := addWallet w t in (t1, o)
  | RemoveWallet w => let '(_, t1, o) := removeWallet w t in (t1, o)
  | Start now => start now t
  | Stop => stop t
  | SocketOpened =>
      let '(b, e) := socketOpened (websocketBackend t) in
      forward e (with_backend t b)
  | SocketClosed code =>
      let '(b, e) := socketClosed code (websocketBackend t) in
      forward e (with_backend t b)
  | SocketError =>
      let '(b, e) := socketError (websocketBackend t) in
      forward e (with_backend t b)
  | ReconnectTimerFired now =>
      let '(b, e) := reconnectTimerFired now (websocketBackend t) in
      forward e (with_backend t b)
  | Resumed k =>
      let '(b, e) := resume k (websocketBackend t) in
      forward e (with_backend t b)
  | StopResumed => stopResumed t
  | Accepted tx =>
      (with_transactions t (addTransaction (maxTransactions t) tx (transactions t)),
       [Notify "transaction"])
  end.

Definition run (steps : list Step) (t : Tracker) : Tracker :=
  fold_left (λ acc s, (step acc s).1) steps t.

(** What a sequence of steps puts out, in order. *)
Fixpoint outputs (steps : list Step) (t : Tracker) : list Output :=
  match steps with
  | [] => []
  | s :: rest => (step t s).2 ++ outputs rest (step t s).1
  end.

(** The transactions a sequence of steps hands to [addTransaction],
    in the order of their arrival. *)
Definition accepted (steps : list Step) : list Tx :=
  flat_map (λ s, match s with Accepted tx => [tx] | _ => [] end) steps.

End WithTransaction.

Arguments Tracker : clear implicits.
Arguments Step : clear implicits.

(** [getTransactions(options)].  The two fields a stored transaction is
    filtered by are read through [walletAddressOf] and [tokenMintOf]. *)
Record Query := {
  q_walletAddress : option string;
  q_tokenMint : option string;
  q_limit : option Z
}.

Definition truthy_option (x : option string) : bool :=
  match x with Some s => truthy_string s | None => false end.

Definition getTransactions {A} (walletAddressOf tokenMintOf : A → option string)
    (options : Query) (transactions : list A) : list A :=
  let filtered := transactions in
  let filtered :=
    if truthy_option (q_walletAddress options)
    then List.filter (λ tx, bool_decide (walletAddressOf tx = q_walletAddress options)) filtered
    else filtered in
  let filtered :=
    if truthy_option (q_tokenMint options)
    then List.filter (λ tx, bool_decide (tokenMintOf tx = q_tokenMint options)) filtered
    else filtered in
  match q_limit options with
  | Some limit => if truthy_Z limit then slice0 filtered limit else filtered
  | None => filtered
  end.

End WalletTracker.

(** ** EventEmitter *)

Module EventEmitter.

(** A registered function.  A function is known by a number; the wrapper
    [once] builds around a function is a function of its own, known by
    the number it was created under. *)
Inductive Listener :=
| Fn (f : nat)
| OnceWrapper (w : nat) (f : nat).

#[global] Instance Listener_eq_dec : EqDecision Listener.
Proof. solve_decision. Defined.

(** The function a call of the listener runs. *)
Definition body (l : Listener) : nat :=
  match l with Fn f => f | OnceWrapper _ f => f end.

Record Emitter := {
  events : JSMap.t (list Listener);
  maxListeners : Z;
  nextWrapper : nat
}.

Definition new_EventEmitter : Emitter :=
  {| events := JSMap.empty; maxListeners := 10; nextWrapper := 0%nat |}.

Definition with_events (e : Emitter) (ev : JSMap.t (list Listener)) : Emitter :=
  {| events := ev; maxListeners := maxListeners e; nextWrapper := nextWrapper e |}.

(** [this.events.get(event)], the empty array standing for a missing key. *)
Definition registered (event : string) (e : Emitter) : list Listener :=
  match JSMap.get event (events e) with Some ls => ls | None => [] end.

(** [on(event, listener)] *)
Definition on (event : string) (listener : Listener) (e : Emitter) : Emitter :=
  let ev := if JSMap.has event (events e) then events e
            else JSMap.set event [] (events e) in
  let listeners := match JSMap.get event ev with Some ls => ls | None => [] end in
  with_events e (JSMap.set event (listeners ++ [listener]) ev).

(** [once(event, listener)]: the wrapper is registered, not the function. *)
Definition once (event : string) (f : nat) (e : Emitter) : Emitter :=
  let wrapper := OnceWrapper (nextWrapper e) f in
  let e1 := on event wrapper e in
  {| events := events e1; maxListeners := maxListeners e1;
     nextWrapper := S (nextWrapper e) |}.

(** [listeners.indexOf(listener)] followed by [splice(index, 1)]. *)
Fixpoint remove_first (listener : Listener) (listeners : list Listener) : list Listener :=
  match listeners with
  | [] => []
  | l :: rest => if decide (l = listener) then rest else l :: remove_first listener rest
  end.

(** [removeListener(event, listener)] *)
Definition removeListener (event : string) (listener : Listener) (e : Emitter) : Emitter :=
  match JSMap.get event (events e) with
  | None => e
  | Some listeners =>
      let spliced := remove_first listener listeners in
      match spliced with
      | [] => with_events e (JSMap.delete event (events e))
      | _ :: _ => with_events e (JSMap.set event spliced (events e))
      end
  end.

(** [removeAllListeners(event)], [None] standing for a call without
    argument. *)
Definition removeAllListeners (event : option string) (e : Emitter) : Emitter :=
  match event with
  | Some ev =>
      if truthy_string ev then with_events e (JSMap.delete ev (events e))
      else with_events e JSMap.empty
  | None => with_events e JSMap.empty
  end.

(** One turn of the loop of [emit]: the listener is called; a wrapper
    then removes itself, unless the function it wraps threw. *)
Definition invoke (event : string) (throws : nat → bool)
    (acc : Emitter * list nat) (listener : Listener) : Emitter * list nat :=
  let called := acc.2 ++ [body listener] in
  match listener with
  | Fn _ => (acc.1, called)
  | OnceWrapper _ f =>
      if throws f then (acc.1, called)
      else (removeListener event listener acc.1, called)
  end.

(** [emit(event, ...args)]: whether the event had listeners, the emitter
    afterwards, and the functions called, in order.  [throws f] tells
    whether function [f] throws; what the functions do besides is not
    part of the emitter. *)
Definition emit (event : string) (throws : nat → bool) (e : Emitter)
    : bool * Emitter * list nat :=
  match JSMap.get event (events e) with
  | None => (false, e, [])
  | Some listeners =>
      let r := fold_left (invoke event throws) listeners (e, []) in
      (true, r.1, r.2)
  end.

Definition listenerCount (event : string) (e : Emitter) : Z :=
  match JSMap.get event (events e) with
  | None => 0
  | Some listeners => Z.of_nat (length listeners)
  end.

Definition eventNames (e : Emitter) : list string := map fst (events e).

(** [prependListener(event, listener)] *)
Definition prependListener (event : string) (listener : Listener) (e : Emitter) : Emitter :=
  let ev := if JSMap.has event (events e) then events e
            else JSMap.set event [] (events e) in
  let listeners := match JSMap.get event ev with Some ls => ls | None => [] end in
  with_events e (JSMap.set event (listener :: listeners) ev).

Definition prependOnceListener (event : string) (f : nat) (e : Emitter) : Emitter :=
  let wrapper := OnceWrapper (nextWrapper e) f in
  let e1 := prependListener event wrapper e in
  {| events := events e1; maxListeners := maxListeners e1;
     nextWrapper := S (nextWrapper e) |}.

(** The calls that change an emitter, and a sequence of them. *)
Inductive Call :=
| CallOn (event : string) (f : nat)
| CallOnce (event : string) (f : nat)
| CallPrepend (event : string) (f : nat)
| CallPrependOnce (event : string) (f : nat)
| CallRemove (event : string) (listener : Listener)
| CallRemoveAll (event : option string)
| CallEmit (event : string) (throws : nat → bool).

Definition call (e : Emitter) (c : Call) : Emitter :=
  match c with
  | CallOn event f => on event (Fn f) e
  | CallOnce event f => once event f e
  | CallPrepend event f => prependListener event (Fn f) e
  | CallPrependOnce event f => prependOnceListener event f e
  | CallRemove event listener => removeListener event listener e
  | CallRemoveAll event => removeAllListeners event e
  | CallEmit event throws => (emit event throws e).1.2
  end.

Definition calls (cs : list Call) (e : Emitter) : Emitter := fold_left call cs e.

End EventEmitter.

(** ** Declarative readings and concrete inputs *)

Module Wording.

Import TransactionFilter.

(** The absolute balance changes added up from the left, starting from
    0, as doubles. *)
Definition abs_total (changes : list BalanceChange) : float :=
  fold_left PrimFloat.add (map (λ c, PrimFloat.abs (bc_change c)) changes) 0%float.

(** [x] reaches [minAmount]. *)
Definition reaches (f : Filter) (x : float) : Prop :=
  Double.ge x (minAmount (options f)) = true.

(** The amount predicate in the words of the specification: some asset
    delta is large enough, or some balance delta is, or there is no
    delta of either kind. *)
Definition amount_as_specified (f : Filter) (tx : Transaction) : Prop :=
  Exists (λ t, reaches f (PrimFloat.abs (tt_uiChange t))) (tokenTransfers tx)
  ∨ Exists (λ c, reaches f (lamports_to_sol (PrimFloat.abs (bc_change c))))
           (balanceChanges tx)
  ∨ (tokenTransfers tx = [] ∧ balanceChanges tx = []).

End Wording.

Module Replay.

(** The subscription sets of a backend, as one set. *)
Definition effective (b : WebSocketBackend.Backend) : gset string :=
  JSSet.to_gset (WebSocketBackend.subscriptions b)
  ∪ JSSet.to_gset (WebSocketBackend.pendingSubscriptions b).

(** The replay invariant: what the backend holds as active or pending is
    what the tracker tracks. *)
Definition in_step {Tx : Type} (t : WalletTracker.Tracker Tx) : Prop :=
  effective (WalletTracker.websocketBackend t)
  = JSSet.to_gset (WalletTracker.trackedWallets t).

(** The wallets for which a list of outputs puts a subscription request
    on the wire, in order. *)
Definition requested (outs : list WalletTracker.Output) : list string :=
  flat_map (λ o, match o with
                 | WalletTracker.FromBackend e => WebSocketBackend.sent [e]
                 | WalletTracker.Notify _ => []
                 end) outs.

End Replay.

Module Tracking.

Import WebSocketBackend WalletTracker.

(** Something is suspended: a call of the backend, or a [stop()]. *)
Definition busy {Tx : Type} (t : Tracker Tx) : bool :=
  match frames (websocketBackend t), stopsPending t with
  | [], O => false
  | _, _ => true
  end.

Definition is_resumption {Tx : Type} (s : Step Tx) : bool :=
  match s with
  | Resumed _ | StopResumed => true
  | _ => false
  end.

(** A schedule in which whatever is suspended is resumed before anything
    else happens: no call of the owner and no event falls between an
    [await] and the resumption of the call that waits at it. *)
Fixpoint undisturbed {Tx : Type} (steps : list (Step Tx)) (t : Tracker Tx) : bool :=
  match steps with
  | [] => true
  | s :: rest =>
      implb (busy t) (is_resumption s) && undisturbed rest (step t s).1
  end.

(** What the suspended replays of a queue have still to visit. *)
Definition replays (queue : list Frame) : list (list string) :=
  flat_map (λ f, match f with Resubscribing rest => [rest] | _ => [] end) queue.

(** A handler that touches neither subscription set, does not raise
    [isConnected] and suspends no replay. *)
Definition kept (b b' : Backend) : Prop :=
  subscriptions b' = subscriptions b
  ∧ pendingSubscriptions b' = pendingSubscriptions b
  ∧ (WebSocketBackend.isConnected b' = true → WebSocketBackend.isConnected b = true)
  ∧ replays (frames b') = replays (frames b).

(** What holds of a tracker along such a schedule: while no [stop()] is
    suspended the backend holds what the tracker tracks, and a replay
    has only tracked wallets to visit; while one is, the backend holds
    nothing; while the connection is up, a wallet that waits is one a
    replay has still to visit; and only valid addresses are tracked. *)
Definition orderly {Tx : Type} (t : Tracker Tx) : Prop :=
  (stopsPending t = 0%nat →
   Replay.in_step t
   ∧ ∀ rest w, rest ∈ replays (frames (websocketBackend t)) → w ∈ rest →
               w ∈ trackedWallets t)
  ∧ (stopsPending t ≠ 0%nat →
     frames (websocketBackend t) = []
     ∧ subscriptions (websocketBackend t) = []
     ∧ pendingSubscriptions (websocketBackend t) = [])
  ∧ (WebSocketBackend.isConnected (websocketBackend t) = true →
     ∀ w, w ∈ pendingSubscriptions (websocketBackend t) →
          ∃ rest, rest ∈ replays (frames (websocketBackend t)) ∧ w ∈ rest)
  ∧ (∀ w, w ∈ trackedWallets t → validateWalletAddress w = true).

End Tracking.

Module Traces.

Import TokenDataService.

(** The upstream requests in a trace, and the pauses between them. *)
Definition requests (io : list IO) : list string :=
  flat_map (λ x, match x with HttpGet mint => [mint] | _ => [] end) io.

Definition pauses (io : list IO) : list Z :=
  flat_map (λ x, match x with Delay ms => [ms] | _ => [] end) io.

(** The pauses of a retry loop that runs through the attempts
    [first], ..., [first + n - 1] and pauses after each of them. *)
Definition backoff (s : Service) (first n : nat) : list Z :=
  map (λ attempt, retryDelay s * 2 ^ Z.of_nat attempt) (seq first n).

(** The cached record of a mint at a clock value. *)
Definition hit (now : Z) (s : Service) (k : string) : option TokenData :=
  (getCachedToken now k s).1.

(** What the fetch of a mint brings back, as an optional record. *)
Definition brought (s : Service) (upstream : string → nat → Reply) (k : string)
    : option TokenData :=
  match (fetchTokenData s k (upstream k)).1 with
  | inl d => Some d
  | inr _ => None
  end.

End Traces.

Module Samples.

Import TransactionFilter.

Definition unit_filter : Filter :=
  {| options := {| enableFiltering := JSBoolean true; minAmount := 1%float;
                   maxAge := 86400000 |};
     blacklistAddresses := ∅; whitelistPrograms := ∅ |}.

Definition filtering_off : Filter :=
  {| options := {| enableFiltering := JSBoolean false; minAmount := 1%float;
                   maxAge := 86400000 |};
     blacklistAddresses := ∅; whitelistPrograms := ∅ |}.

Definition lamports (n : float) : BalanceChange :=
  {| bc_accountIndex := 0; bc_account := None; bc_change := n;
     bc_preBalance := 0%float; bc_postBalance := n |}.

(** Half a token moved, and five SOL. *)
Definition dust_and_sol : Transaction :=
  {| signature := "sigA"; slot := 1; timestamp := None; fee := 5000;
     accounts := []; instructions := [];
     balanceChanges := [lamports 5000000000%float];
     tokenTransfers := [ {| tt_mint := "mintA"; tt_accountIndex := 1;
                            tt_change := 500000%float; tt_decimals := 6;
                            tt_uiChange := 0.5%float |} ];
     status := "success" |}.

(** Two balance changes of 0.6 SOL each, no token transfer. *)
Definition two_small_changes : Transaction :=
  {| signature := "sigB"; slot := 2; timestamp := None; fee := 5000;
     accounts := []; instructions := [];
     balanceChanges := [lamports 600000000%float; lamports (-600000000)%float];
     tokenTransfers := [];
     status := "success" |}.

Definition failed_transfer : Transaction :=
  {| signature := "sigC"; slot := 3; timestamp := None; fee := 5000;
     accounts := []; instructions := [];
     balanceChanges := [lamports 5000000000%float];
     tokenTransfers := [];
     status := "failed" |}.

(** Balance changes only, as given. *)
Definition of_changes (changes : list float) : Transaction :=
  {| signature := "sigE"; slot := 5; timestamp := None; fee := 5000;
     accounts := []; instructions := [];
     balanceChanges := map lamports changes;
     tokenTransfers := [];
     status := "success" |}.

(** A filter whose threshold is [2^53 + 2] lamports, in SOL. *)
Definition above_two53 : Filter :=
  {| options := {| enableFiltering := JSBoolean true;
                   minAmount := PrimFloat.div 9007199254740994%float 1000000000%float;
                   maxAge := 86400000 |};
     blacklistAddresses := ∅; whitelistPrograms := ∅ |}.

End Samples.

Module CacheSamples.

Import TokenDataService.

Definition usdc_raw : RawTokenData :=
  {| raw_address := Some "EPjFWdd5AufqSSqeM2qN1xzybapC8G4wEGGkZwyTDt1v";
     raw_symbol := Some "USDC"; raw_name := Some "USD Coin";
     raw_decimals := Some 6;
     raw_logo_uri := Some "https://example.org/usdc.png";
     raw_price := Some 1%Q;
     raw_price_change_24h := None; raw_volume_24h := None;
     raw_market_cap := None; raw_total_supply := None;
     raw_circulating_supply := None; raw_liquidity := None;
     raw_website := None; raw_twitter := None;
     raw_telegram := None; raw_discord := None |}.

Definition usdc : TokenData := processTokenData 1000 usdc_raw.

Definition usdc_mint : string := "EPjFWdd5AufqSSqeM2qN1xzybapC8G4wEGGkZwyTDt1v".

(** A record as [processTokenData] builds it from an answer that
    carries nothing but the address: no logo, price 0. *)
Definition plain_raw : RawTokenData :=
  {| raw_address := Some "EPjFWdd5AufqSSqeM2qN1xzybapC8G4wEGGkZwyTDt1v";
     raw_symbol := None; raw_name := None; raw_decimals := None;
     raw_logo_uri := None; raw_price := None;
     raw_price_change_24h := None; raw_volume_24h := None;
     raw_market_cap := None; raw_total_supply := None;
     raw_circulating_supply := None; raw_liquidity := None;
     raw_website := None; raw_twitter := None;
     raw_telegram := None; raw_discord := None |}.

Definition plain_token : TokenData := processTokenData 1000 plain_raw.

(** A service as its constructor leaves it, with the default options. *)
Definition fresh_service : Service :=
  {| cacheTimeout := 300000; birdeyeApiKey := None; maxRetries := 3;
     retryDelay := 1000;
     cache := JSMap.empty; priceCache := JSMap.empty; logoCache := JSMap.empty;
     pendingRequests := JSMap.empty; nextPromise := 0%nat |}.

(** The same service after USDC was cached at clock 1000. *)
Definition service_with_usdc : Service :=
  cacheTokenData 1000 usdc_mint (Some usdc) fresh_service.

(** An upstream that rejects every request, and one that answers the
    first request with the USDC record. *)
Definition upstream_down : nat → Reply :=
  λ attempt, {| arrivedAt := 500000 + Z.of_nat attempt; outcome := Rejected |}.

Definition upstream_up : nat → Reply :=
  λ attempt, {| arrivedAt := 1000;
                outcome := Replied 200 (Some {| success := true; data := Some usdc_raw |}) |}.

Definition empty_manager : CacheManager.Manager string :=
  {| CacheManager.defaultTTL := 300000; CacheManager.maxSize := 1000;
     CacheManager.cleanupInterval := 60000;
     CacheManager.cache := JSMap.empty; CacheManager.accessTimes := JSMap.empty |}.

End CacheSamples.

Module BackendSamples.

Import WebSocketBackend.

Definition two_keys : Options :=
  {| apiKeys := ["key-one"; "key-two"]; reconnectAttempts := 5;
     reconnectDelay := 1000; maxReconnectDelay := 30000;
     heartbeatInterval := 30000 |}.

(** A backend with two keys whose usage and failure maps are given. *)
Definition rotating (usage failures : gmap nat Z) (count : Z) : Backend :=
  {| options := two_keys; websocket := Some OPEN;
     isConnected := true; isConnecting := false;
     reconnectCount := count; currentApiKeyIndex := 0%nat;
     subscriptions := ["walletA"]; pendingSubscriptions := ["walletB"];
     lastApiKeyUsage := usage; apiKeyFailures := failures;
     reconnectTimer := None; heartbeatTimer := Some 30000;
     keyRotationTimer := Some 300000;
     attempts := []; frames := [] |}.

(** Both keys failed four times and were used within the last minute;
    the second one was used before the first. *)
Definition both_cooling : Backend :=
  rotating (<[0%nat := 990000]> (<[1%nat := 980000]> ∅))
           (<[0%nat := 4]> (<[1%nat := 4]> ∅)) 0.

(** The first key is cooling down; the second never failed and was
    stamped at the very clock value of the call. *)
Definition second_just_used : Backend :=
  rotating (<[0%nat := 990000]> (<[1%nat := 1000000]> ∅))
           (<[0%nat := 4]> ∅) 0.

(** The first key is cooling down, the second was used a while ago. *)
Definition first_cooling : Backend :=
  rotating (<[0%nat := 990000]> (<[1%nat := 700000]> ∅))
           (<[0%nat := 4]> ∅) 2.

Definition exhausted : Backend :=
  rotating ∅ ∅ 5.

Definition wallet_one : string := "9WzDXwBbmkg8ZTbNMqUxvQRAyrZzDsGYdLVL9zYtAWWM".
Definition wallet_two : string := "JUP4Fb2cqiRUcaTHdrPC8h2gNsA2ETXiPDD33WcGuJB".

Definition wallet_three : string := "whirLbMiicVdio4qvUfM5KAg6Ct8VwpYzGff3uctyCc".
Definition wallet_four : string := "TokenkegQfeZyiNwAJbNbGKPFXCWuBvf9Ss623VQ5DA".

(** A session: two wallets are added before the socket opens, the socket
    opens and the replay runs to its end, the first wallet is removed,
    and the connection drops. *)
Definition session : list (WalletTracker.Step nat) :=
  [ WalletTracker.AddWallet wallet_one;
    WalletTracker.AddWallet wallet_two;
    WalletTracker.Start 1000;
    WalletTracker.SocketOpened;
    WalletTracker.Resumed 0;
    WalletTracker.Resumed 0;
    WalletTracker.Accepted 7%nat;
    WalletTracker.RemoveWallet wallet_one;
    WalletTracker.SocketClosed 1006 ].

(** Four wallets are added, the tracker is started and the socket opens.
    The start of the replay subscribes the first wallet; the owner, who
    waits for [start()], is resumed after the replay has subscribed the
    second and the third, and removes the fourth wallet; the replay then
    goes on with its snapshot. *)
Definition race : list (WalletTracker.Step nat) :=
  [ WalletTracker.AddWallet wallet_one;
    WalletTracker.AddWallet wallet_two;
    WalletTracker.AddWallet wallet_three;
    WalletTracker.AddWallet wallet_four;
    WalletTracker.Start 1000;
    WalletTracker.SocketOpened;
    WalletTracker.Resumed 0;
    WalletTracker.Resumed 0;
    WalletTracker.RemoveWallet wallet_four;
    WalletTracker.Resumed 0;
    WalletTracker.Resumed 0 ].

(** The connection drops, the reconnect timer fires, the new socket
    opens, and the replay runs undisturbed to its end. *)
Definition forced_reconnect : list (WalletTracker.Step nat) :=
  [ WalletTracker.SocketClosed 1006;
    WalletTracker.ReconnectTimerFired 3000;
    WalletTracker.SocketOpened;
    WalletTracker.Resumed 0;
    WalletTracker.Resumed 0;
    WalletTracker.Resumed 0;
    WalletTracker.Resumed 0 ].

(** The owner stops the tracker and adds a wallet before the suspended
    [stop()] is resumed. *)
Definition stop_and_add : list (WalletTracker.Step nat) :=
  [ WalletTracker.AddWallet wallet_one;
    WalletTracker.Stop;
    WalletTracker.AddWallet wallet_two;
    WalletTracker.StopResumed ].

End BackendSamples.

Module FilterSamples.

Import TransactionFilter.

(** The filter the constructor builds when no option is given. *)
Definition default_filter : Filter := new_TransactionFilter None None None.

(** A swap through Jupiter that moves two SOL, seen at clock 5000. *)
Definition jupiter_swap : Transaction :=
  {| signature := "sigD"; slot := 4; timestamp := Some 5000; fee := 5000;
     accounts := ["9WzDXwBbmkg8ZTbNMqUxvQRAyrZzDsGYdLVL9zYtAWWM";
                  "TokenkegQfeZyiNwAJbNbGKPFXCWuBvf9Ss623VQ5DA"];
     instructions := [ {| programId := "JUP4Fb2cqiRUcaTHdrPC8h2gNsA2ETXiPDD33WcGuJB" |} ];
     balanceChanges := [Samples.lamports 2000000000%float];
     tokenTransfers := [];
     status := "success" |}.

End FilterSamples.

Module Shape.

(** The keys of an insertion-ordered map, in order. *)
Definition keys_of {V} (m : JSMap.t V) : list string := map fst m.

(** What a [Map] guarantees: no key twice. *)
Definition unique_keys {V} (m : JSMap.t V) : Prop := NoDup (keys_of m).

(** The two maps of a cache manager go together: the same keys in the
    same order, none twice. *)
Definition aligned {D} (m : CacheManager.Manager D) : Prop :=
  keys_of (CacheManager.cache m) = keys_of (CacheManager.accessTimes m)
  ∧ unique_keys (CacheManager.cache m).

(** The clock value a call of the cache manager reads, if it reads one. *)
Definition clock_of {D} (c : CacheManager.Call D) : option Z :=
  match c with
  | CacheManager.CallSet now _ _ _ => Some now
  | CacheManager.CallGet now _ => Some now
  | CacheManager.CallGetWithMetadata now _ => Some now
  | CacheManager.CallCleanup now => Some now
  | CacheManager.CallDelete _ => None
  | CacheManager.CallClear => None
  end.

(** The key a call stores under, if it stores. *)
Definition stored_key {D} (c : CacheManager.Call D) : option string :=
  match c with
  | CacheManager.CallSet _ key _ _ => Some key
  | _ => None
  end.

(** Every call that reads the clock reads a later value than the call
    before it that did; [last] is the value read last, if any. *)
Fixpoint clocks_advance {D} (last : option Z) (cs : list (CacheManager.Call D)) : Prop :=
  match cs with
  | [] => True
  | c :: cs' =>
      match clock_of c with
      | Some now =>
          match last with Some t => t < now | None => True end
          ∧ clocks_advance (Some now) cs'
      | None => clocks_advance last cs'
      end
  end.

(** What the capacity argument carries along: the maps go together, the
    cache is within its capacity, every key is a non-empty string and
    every access time is at most the clock value read last. *)
Definition within {D} (m : CacheManager.Manager D) (last : option Z) : Prop :=
  aligned m
  ∧ JSMap.size (CacheManager.cache m) ≤ CacheManager.maxSize m
  ∧ ∀ k t, (k, t) ∈ CacheManager.accessTimes m →
           truthy_string k = true ∧ match last with Some T => t ≤ T | None => False end.

End Shape.

Module Wire.

Import WebSocketBackend.

(** The events a list of effects emits, in order. *)
Definition emitted (effects : list Effect) : list string :=
  flat_map (λ e, match e with Emit ev => [ev] | _ => [] end) effects.

(** [markApiKeyFailed(keyIndex)] called [n] times in a row. *)
Fixpoint marked (n : nat) (keyIndex : nat) (b : Backend) : Backend :=
  match n with
  | O => b
  | S n' => (markApiKeyFailed keyIndex (marked n' keyIndex b)).1
  end.

(** The sum of a list of balances, and of the changes reported. *)
Definition total (balances : list Z) : Z := foldr Z.add 0 balances.


(** A raw notification with the given balances and account keys. *)
Definition notification (pre post : list Z) (keys : list string) : RawData :=
  {| rd_meta := Some {| rm_preBalances := Some pre; rm_postBalances := Some post |};
     rd_message := Some {| rm_accountKeys := Some keys |} |}.

End Wire.

Module Listeners.

Import EventEmitter.

(** Whether a listener is still registered after [emit] has called it:
    a plain function stays, a wrapper stays when its function threw. *)
Definition survives (throws : nat → bool) (l : Listener) : bool :=
  match l with
  | Fn _ => true
  | OnceWrapper _ f => throws f
  end.

(** No event is kept with an empty array of listeners. *)
Definition populated (e : Emitter) : Prop :=
  ∀ event listeners, JSMap.get event (events e) = Some listeners → listeners ≠ [].

End Listeners.

(** * Properties *)

(** ** The relevance filter *)

Module TransactionFilterFacts.

Import TransactionFilter Wording Samples.

Lemma solChange_from (changes : list BalanceChange) (start : float) :
  fold_left (λ total c, PrimFloat.add total (PrimFloat.abs (bc_change c))) changes start
  = fold_left PrimFloat.add (map (λ c, PrimFloat.abs (bc_change c)) changes) start.
Proof.
  revert start. induction changes as [|c changes IH]; intros start; simpl; [done |].
  apply IH.
Qed.

Lemma solChange_total (changes : list BalanceChange) :
  solChange changes = abs_total changes.
Proof. apply solChange_from. Qed.

Lemma existsb_significant (f : Filter) (transfers : list TokenTransfer) :
  existsb (significant f) transfers = true ↔
  Exists (λ t, reaches f (PrimFloat.abs (tt_uiChange t))) transfers.
Proof.
  rewrite existsb_exists, Exists_exists. unfold significant, reaches.
  split; intros (t & Hin & Ht); exists t; split; try done;
    by apply list_elem_of_In.
Qed.

Example dust_and_sol_rejected : passesAmountFilter unit_filter dust_and_sol = false.
Proof. reflexivity. Qed.

Example two_small_changes_pass : passesAmountFilter unit_filter two_small_changes = true.
Proof. reflexivity. Qed.

(** The total is a sum of doubles: six changes of one lamport added to
    [2^53] lamports leave the total at [2^53], below a threshold of
    [2^53 + 2] lamports that the exact total would reach; added first,
    the same six changes count. *)
Example small_changes_lost_in_rounding :
  solChange (balanceChanges (of_changes [9007199254740992; 1; 1; 1; 1; 1; 1]%float))
  = 9007199254740992%float
  ∧ passesAmountFilter above_two53
      (of_changes [9007199254740992; 1; 1; 1; 1; 1; 1]%float) = false
  ∧ passesAmountFilter above_two53
      (of_changes [1; 1; 1; 1; 1; 1; 9007199254740992]%float) = true.
Proof. repeat split. Qed.

(** A change that is [NaN] makes the total [NaN], and the transaction
    is rejected whatever the other changes are. *)
Example nan_change_rejected :
  passesAmountFilter unit_filter (of_changes [5000000000; nan]%float) = false.
Proof. reflexivity. Qed.

(** C1, as stated, fails: a transaction with an insignificant token
    transfer and a five-SOL balance change is rejected although one of
    its balance deltas reaches [minAmount]; and two balance changes of
    0.6 SOL pass together although neither reaches [minAmount]. *)
Lemma amount_filter_not_as_specified :
  ¬ (passesAmountFilter unit_filter dust_and_sol = true
     ↔ amount_as_specified unit_filter dust_and_sol)
  ∧ ¬ (passesAmountFilter unit_filter two_small_changes = true
       ↔ amount_as_specified unit_filter two_small_changes).
Proof.
  split.
  - intros [_ H]. enough (passesAmountFilter unit_filter dust_and_sol = true) by done.
    apply H. right; left. apply Exists_cons_hd. reflexivity.
  - intros [H _]. specialize (H eq_refl).
    destruct H as [H | [H | [_ H]]].
    + inversion H.
    + apply Exists_cons in H as [H | H]; [discriminate H |].
      apply Exists_cons in H as [H | H]; [discriminate H | inversion H].
    + discriminate H.
Qed.

(** C1, amended: token transfers are judged first and alone, each by
    its own absolute UI change; balance changes are judged only when
    there is no token transfer, and by their total: the absolute
    changes added up in order as doubles, divided by [1e9]; with
    neither, the transaction passes. *)
Theorem amount_filter_by_code (f : Filter) (tx : Transaction) :
  passesAmountFilter f tx = true ↔
    Exists (λ t, reaches f (PrimFloat.abs (tt_uiChange t))) (tokenTransfers tx)
    ∨ (tokenTransfers tx = [] ∧ balanceChanges tx ≠ []
       ∧ reaches f (lamports_to_sol (abs_total (balanceChanges tx))))
    ∨ (tokenTransfers tx = [] ∧ balanceChanges tx = []).
Proof.
  unfold passesAmountFilter.
  destruct (tokenTransfers tx) as [|t ts] eqn:Ets.
  - destruct (balanceChanges tx) as [|c cs] eqn:Ebs.
    + split; [intros _; right; right; done | done].
    + rewrite solChange_total. unfold reaches. split.
      * intros H. right; left. done.
      * intros [H | [(_ & _ & H) | (_ & H)]]; [inversion H | done | discriminate H].
  - rewrite existsb_significant. split.
    + intros H. by left.
    + intros [H | [(H & _) | (H & _)]]; [done | discriminate H | discriminate H].
Qed.

(** C4, as stated, fails: with [enableFiltering] off every transaction
    is included, a failed one too. *)
Lemma failed_included_when_filtering_off :
  status failed_transfer ≠ "success"
  ∧ shouldInclude 0 filtering_off failed_transfer = true.
Proof. split; [discriminate | reflexivity]. Qed.

Lemma type_filter_rejects (tx : Transaction) :
  status tx ≠ "success" → passesTypeFilter tx = false.
Proof.
  intros H. unfold passesTypeFilter.
  destruct (String.eqb (status tx) "success") eqn:E; [| done].
  apply String.eqb_eq in E. done.
Qed.

(** C4, amended: while the stored [enableFiltering] is truthy, a
    transaction whose status is not ["success"] is excluded, whatever
    the clock, the rule sets and the rest of the transaction; while it
    is falsy, every transaction is included.  The constructor stores
    the value the caller passed, and [true] when the option is left
    out: filtering is on by default and off when [false] is passed. *)
Theorem failed_excluded_when_filtering (now : Z) (f : Filter) (tx : Transaction) :
  (truthy (enableFiltering (options f)) = true →
   status tx ≠ "success" →
   shouldInclude now f tx = false)
  ∧ (truthy (enableFiltering (options f)) = false → shouldInclude now f tx = true)
  ∧ (∀ enable minAmt age,
       enableFiltering (options (new_TransactionFilter enable minAmt age))
       = match enable with Some passed => passed | None => JSBoolean true end)
  ∧ (∀ minAmt age,
       truthy (enableFiltering (options (new_TransactionFilter None minAmt age))) = true
       ∧ truthy (enableFiltering
                   (options (new_TransactionFilter (Some (JSBoolean true)) minAmt age))) = true
       ∧ truthy (enableFiltering
                   (options (new_TransactionFilter (Some (JSBoolean false)) minAmt age))) = false).
Proof.
  split; [| split; [| split]].
  - intros Hon Hst. unfold shouldInclude. rewrite Hon, (type_filter_rejects tx Hst). simpl.
    destruct (passesAgeFilter now f tx), (passesAmountFilter f tx),
      (passesProgramFilter f tx), (passesAddressFilter f tx); reflexivity.
  - intros Hoff. unfold shouldInclude. by rewrite Hoff.
  - done.
  - done.
Qed.

Lemma failed_excluded_witness :
  shouldInclude 0 unit_filter failed_transfer = false
  ∧ shouldInclude 0 filtering_off failed_transfer = true.
Proof.
  destruct (failed_excluded_when_filtering 0 unit_filter failed_transfer) as (Hon & _).
  destruct (failed_excluded_when_filtering 0 filtering_off failed_transfer) as (_ & Hoff & _).
  split.
  - apply Hon; [reflexivity | discriminate].
  - apply Hoff. reflexivity.
Defined.

(** A value that is not [false] but falsy switches filtering off as
    well: the constructor stores it as it is. *)
Example falsy_option_switches_filtering_off :
  shouldInclude 0 (new_TransactionFilter (Some (JSNumber 0)) None None) failed_transfer = true
  ∧ shouldInclude 0 (new_TransactionFilter (Some JSNull) None None) failed_transfer = true
  ∧ shouldInclude 0 (new_TransactionFilter (Some (JSString EmptyString)) None None)
      failed_transfer = true.
Proof. repeat split. Qed.

End TransactionFilterFacts.

(** ** Insertion-ordered maps *)

Module JSMapFacts.

Section WithValue.
Context {V : Type}.
Implicit Types (m : JSMap.t V) (k : string) (v : V).

Lemma get_set_eq k v m : JSMap.get k (JSMap.set k v m) = Some v.
Proof.
  induction m as [|[k' v'] m IH]; simpl.
  - by rewrite String.eqb_refl.
  - destruct (String.eqb k' k) eqn:E; simpl.
    + by rewrite String.eqb_refl.
    + by rewrite E.
Qed.

Lemma get_set_ne k k' v m : k ≠ k' → JSMap.get k' (JSMap.set k v m) = JSMap.get k' m.
Proof.
  intros Hne. induction m as [|[k0 v0] m IH]; simpl.
  - destruct (String.eqb k k') eqn:E; [apply String.eqb_eq in E; done | done].
  - destruct (String.eqb k0 k) eqn:E; simpl.
    + apply String.eqb_eq in E; subst k0.
      destruct (String.eqb k k') eqn:E'; [apply String.eqb_eq in E'; done | done].
    + by rewrite IH.
Qed.

Lemma get_delete_eq k m : JSMap.get k (JSMap.delete k m) = None.
Proof.
  unfold JSMap.delete. induction m as [|[k' v'] m IH]; [done |].
  rewrite filter_cons. simpl. case_decide as Hk; simpl; [| done].
  destruct (String.eqb k' k) eqn:E; [apply String.eqb_eq in E; done | done].
Qed.

Lemma get_delete_ne k k' m : k ≠ k' → JSMap.get k' (JSMap.delete k m) = JSMap.get k' m.
Proof.
  intros Hne. unfold JSMap.delete. induction m as [|[k0 v0] m IH]; [done |].
  rewrite filter_cons. simpl. case_decide as Hk; simpl.
  - by rewrite IH.
  - destruct (String.eqb k0 k') eqn:E; [apply String.eqb_eq in E; congruence | done].
Qed.

Lemma delete_absent k m : JSMap.get k m = None → JSMap.delete k m = m.
Proof.
  unfold JSMap.delete. induction m as [|[k' v'] m IH]; [done |]. simpl.
  destruct (String.eqb k' k) eqn:E; [done |]. intros H.
  rewrite filter_cons. simpl. apply String.eqb_neq in E.
  case_decide; [| done]. by rewrite IH.
Qed.

Lemma delete_set_absent k v m :
  JSMap.get k m = None → JSMap.delete k (JSMap.set k v m) = m.
Proof.
  unfold JSMap.delete. induction m as [|[k' v'] m IH]; simpl.
  - intros _. rewrite filter_cons. simpl. by case_decide.
  - destruct (String.eqb k' k) eqn:E; [done |]. intros H.
    rewrite filter_cons. simpl. apply String.eqb_neq in E.
    case_decide; [| done]. by rewrite IH.
Qed.

End WithValue.

End JSMapFacts.

(** ** Expiry of cached entries *)

Module CacheFacts.

Import TokenDataService CacheSamples JSMapFacts.

Lemma cacheTokenData_cache now k d s :
  cache (cacheTokenData now k (Some d) s)
  = JSMap.set k {| ce_data := d; ce_timestamp := now |} (cache s).
Proof.
  unfold cacheTokenData, cacheTokenLogo.
  destruct (priceUsd d), (logoURI d) as [l|]; try destruct (truthy_string l); reflexivity.
Qed.

Lemma cacheTokenData_cacheTimeout now k d s :
  cacheTimeout (cacheTokenData now k d s) = cacheTimeout s.
Proof.
  unfold cacheTokenData, cacheTokenLogo. destruct d as [d|]; [| done].
  destruct (priceUsd d), (logoURI d) as [l|]; try destruct (truthy_string l); reflexivity.
Qed.

Lemma cacheTokenData_priceCache now k d p s :
  priceUsd d = Some p →
  priceCache (cacheTokenData now k (Some d) s)
  = JSMap.set k {| pe_price := p; pe_timestamp := now |} (priceCache s).
Proof.
  intros Hp. unfold cacheTokenData, cacheTokenLogo. rewrite Hp.
  destruct (logoURI d) as [l|]; try destruct (truthy_string l); reflexivity.
Qed.

Lemma cacheTokenData_logoCache now k d logo s :
  logoURI d = Some logo → truthy_string logo = true →
  logoCache (cacheTokenData now k (Some d) s)
  = JSMap.set k {| le_logoURI := logo; le_timestamp := now |} (logoCache s).
Proof.
  intros Hl Ht. unfold cacheTokenData, cacheTokenLogo. rewrite Hl, Ht.
  destruct (priceUsd d); reflexivity.
Qed.

Lemma elapsed_ltb (t0 t T : Z) : (T <? t0 + t - t0) = negb (t <=? T).
Proof. destruct (Z.ltb_spec T (t0 + t - t0)), (Z.leb_spec t T); simpl; lia. Qed.

(** C3, as stated, fails at the boundary: an entry whose age equals its
    time-to-live is still returned, by the full-record tier and by
    [CacheManager.get] alike. *)
Lemma entry_returned_at_ttl :
  (getCachedToken (1000 + cacheTimeout service_with_usdc) usdc_mint service_with_usdc).1
    = Some usdc
  ∧ (CacheManager.get (1000 + 300000) "key"
       (CacheManager.set 1000 "key" "value" (Some 300000) empty_manager)).1
    = Some "value".
Proof. split; reflexivity. Qed.

(** C3, amended: an entry inserted at clock [t0] with time-to-live [T]
    is returned unchanged by a lookup at [t0 + t] when [t <= T] and is
    absent when [t > T]: every record in the full-record tier
    ([T = cacheTimeout]), whether or not it carries a price or a logo;
    the price of every record that has one, in the price tier ([T] =
    one minute); the logo of every record that has one, and every logo
    stored by [cacheTokenLogo], in the logo tier ([T] = one hour); and
    every value given to [CacheManager.set], for the [ttl] given or for
    [defaultTTL]. *)
Theorem lookup_within_ttl {D : Type} (s : Service) (k : string) (d : TokenData)
    (stored : string) (m : CacheManager.Manager D) (x : D) (t0 t T : Z) :
  let s' := cacheTokenData t0 k (Some d) s in
  (getCachedToken (t0 + t) k s').1 = (if t <=? cacheTimeout s then Some d else None)
  ∧ (∀ p, priceUsd d = Some p →
          (getCachedPrice (t0 + t) k s').1 = (if t <=? 60000 then Some p else None))
  ∧ (∀ logo, logoURI d = Some logo → truthy_string logo = true →
             (getCachedLogo (t0 + t) k s').1 = (if t <=? 3600000 then Some logo else None))
  ∧ (getCachedLogo (t0 + t) k (cacheTokenLogo t0 k stored s)).1
    = (if t <=? 3600000 then Some stored else None)
  ∧ (CacheManager.get (t0 + t) k (CacheManager.set t0 k x (Some T) m)).1
    = (if t <=? T then Some x else None)
  ∧ (CacheManager.get (t0 + t) k (CacheManager.set t0 k x None m)).1
    = (if t <=? CacheManager.defaultTTL m then Some x else None).
Proof.
  intros s'. subst s'. repeat split.
  - unfold getCachedToken.
    rewrite cacheTokenData_cache, get_set_eq, cacheTokenData_cacheTimeout. simpl.
    rewrite elapsed_ltb. by destruct (t <=? cacheTimeout s).
  - intros p Hp. unfold getCachedPrice.
    rewrite (cacheTokenData_priceCache _ _ _ _ _ Hp), get_set_eq. simpl.
    rewrite elapsed_ltb. by destruct (t <=? 60000).
  - intros logo Hl Ht. unfold getCachedLogo.
    rewrite (cacheTokenData_logoCache _ _ _ _ _ Hl Ht), get_set_eq. simpl.
    rewrite elapsed_ltb. by destruct (t <=? 3600000).
  - unfold getCachedLogo, cacheTokenLogo. simpl. rewrite get_set_eq. simpl.
    rewrite elapsed_ltb. by destruct (t <=? 3600000).
  - unfold CacheManager.get, CacheManager.set. simpl. rewrite get_set_eq. simpl.
    replace (t0 + T <? t0 + t) with (negb (t <=? T))
      by (destruct (Z.ltb_spec (t0 + T) (t0 + t)), (Z.leb_spec t T); simpl; lia).
    by destruct (t <=? T).
  - unfold CacheManager.get, CacheManager.set. simpl. rewrite get_set_eq. simpl.
    replace (t0 + CacheManager.defaultTTL m <? t0 + t)
      with (negb (t <=? CacheManager.defaultTTL m))
      by (destruct (Z.ltb_spec (t0 + CacheManager.defaultTTL m) (t0 + t)),
            (Z.leb_spec t (CacheManager.defaultTTL m)); simpl; lia).
    by destruct (t <=? CacheManager.defaultTTL m).
Qed.

Lemma lookup_within_ttl_witness :
  (getCachedToken (1000 + 299999) usdc_mint service_with_usdc).1 = Some usdc
  ∧ (getCachedPrice (1000 + 60001) usdc_mint service_with_usdc).1 = None
  ∧ (getCachedToken (1000 + 300000) usdc_mint
       (cacheTokenData 1000 usdc_mint (Some plain_token) fresh_service)).1
    = Some plain_token.
Proof.
  pose proof (lookup_within_ttl (D := string) fresh_service usdc_mint usdc
                "https://example.org/usdc.png" empty_manager "value" 1000 299999 5)
    as (H1 & _).
  pose proof (lookup_within_ttl (D := string) fresh_service usdc_mint usdc
                "https://example.org/usdc.png" empty_manager "value" 1000 60001 5)
    as (_ & H2 & _).
  pose proof (lookup_within_ttl (D := string) fresh_service usdc_mint plain_token
                "https://example.org/usdc.png" empty_manager "value" 1000 300000 5)
    as (H3 & _).
  split; [exact H1 |]. split; [exact (H2 1%Q eq_refl) | exact H3].
Defined.

End CacheFacts.

(** ** Failed fetches and shared requests *)

Module MetadataFacts.

Import TokenDataService CacheSamples JSMapFacts.

(** A lookup that misses leaves no entry for the mint behind, and
    touches nothing but the full-record tier. *)
Lemma getCachedToken_miss now k s :
  (getCachedToken now k s).1 = None →
  let s1 := (getCachedToken now k s).2 in
  cache s1 = JSMap.delete k (cache s)
  ∧ JSMap.get k (cache s1) = None
  ∧ priceCache s1 = priceCache s ∧ logoCache s1 = logoCache s
  ∧ pendingRequests s1 = pendingRequests s ∧ nextPromise s1 = nextPromise s
  ∧ maxRetries s1 = maxRetries s ∧ retryDelay s1 = retryDelay s
  ∧ cacheTimeout s1 = cacheTimeout s.
Proof.
  unfold getCachedToken. destruct (JSMap.get k (cache s)) as [e|] eqn:E.
  - destruct (cacheTimeout s <? now - ce_timestamp e); [| done].
    intros _. simpl. rewrite get_delete_eq. done.
  - intros _. simpl. rewrite (delete_absent _ _ E). done.
Qed.

(** The retry loop gives up with an error when every attempt fails. *)
Lemma fetchLoop_all_fail s k upstream remaining attempt lastError :
  (∀ i, (attempt ≤ i < attempt + remaining)%nat →
        ∃ e, attempt_result (upstream i) = inr e) →
  ∃ e, (fetchLoop s k upstream remaining attempt lastError).1 = inr e.
Proof.
  revert attempt lastError.
  induction remaining as [|remaining IH]; intros attempt lastError Hfail; simpl.
  - by eexists.
  - destruct (Hfail attempt ltac:(lia)) as [e He]. rewrite He. simpl.
    apply IH. intros i Hi. apply Hfail. lia.
Qed.

Lemma fetchTokenData_all_fail s k upstream :
  (∀ i, (i < Z.to_nat (maxRetries s))%nat → ∃ e, attempt_result (upstream i) = inr e) →
  ∃ e, (fetchTokenData s k upstream).1 = inr e.
Proof.
  intros Hfail. apply fetchLoop_all_fail. intros i Hi. apply Hfail. lia.
Qed.

(** A call for a mint that is neither cached nor pending starts a fetch. *)
Lemma call_starts_fetch now k s :
  truthy_string k = true →
  (getCachedToken now k s).1 = None →
  JSMap.get k (pendingRequests s) = None →
  getTokenData_call now k s
  = (Fetching (nextPromise s),
     with_pending (getCachedToken now k s).2
       (JSMap.set k (nextPromise s) (pendingRequests s)) (S (nextPromise s)),
     [FetchTokenData k]).
Proof.
  intros Hk Hmiss Hpend. unfold getTokenData_call. rewrite Hk. simpl.
  destruct (getCachedToken_miss now k s Hmiss) as (_ & _ & _ & _ & Hp & Hn & _).
  destruct (getCachedToken now k s) as [r s1]. simpl in *. subst r.
  rewrite Hp, Hpend, Hn. reflexivity.
Qed.

(** A call for a mint that is pending and not cached joins the pending
    request: no fetch, no change of state. *)
Lemma call_joins now k p s :
  truthy_string k = true →
  JSMap.get k (cache s) = None →
  JSMap.get k (pendingRequests s) = Some p →
  getTokenData_call now k s = (Joined p, s, []).
Proof.
  intros Hk Hc Hp. unfold getTokenData_call, getCachedToken.
  rewrite Hk, Hc. simpl. by rewrite Hp.
Qed.

(** A fetch that succeeds fills the three tiers. *)
Example fetched_record_cached :
  let r := getTokenData 2000 usdc_mint upstream_up 2500 fresh_service in
  r.1.1 = Returned (Some usdc)
  ∧ (getCachedToken 3000 usdc_mint r.1.2).1 = Some usdc
  ∧ (getCachedPrice 3000 usdc_mint r.1.2).1 = Some 1%Q
  ∧ (getCachedLogo 3000 usdc_mint r.1.2).1 = Some "https://example.org/usdc.png"
  ∧ pendingRequests r.1.2 = JSMap.empty.
Proof. repeat split. Qed.

(** The retry loop of a failing fetch: three requests, two pauses. *)
Example failing_fetch_trace :
  (fetchTokenData fresh_service usdc_mint upstream_down).2
  = [HttpGet usdc_mint; Delay 1000; HttpGet usdc_mint; Delay 2000; HttpGet usdc_mint].
Proof. reflexivity. Qed.

(** A call that joins a pending request whose fetch fails does not
    return: the rejection of the shared promise reaches it outside the
    [try] of the call that started the fetch. *)
Example joined_call_rejects :
  let s1 := (getTokenData_call 2000 usdc_mint fresh_service).1.2 in
  (getTokenData 2001 usdc_mint upstream_down 9000 s1).1.1 = Thrown (Some NetworkError).
Proof. reflexivity. Qed.

(** C8, as stated, fails: when the mint has an expired entry, the call
    whose fetch fails on every attempt returns null but the full-record
    tier has changed, the lookup having deleted the expired entry. *)
Lemma failed_fetch_drops_expired_entry :
  let r := getTokenData 400000 usdc_mint upstream_down 500003 service_with_usdc in
  (∀ i, attempt_result (upstream_down i) = inr NetworkError)
  ∧ r.1.1 = Returned None
  ∧ JSMap.get usdc_mint (cache service_with_usdc) ≠ None
  ∧ cache r.1.2 = JSMap.empty
  ∧ cache r.1.2 ≠ cache service_with_usdc.
Proof. repeat split; try reflexivity; discriminate. Qed.

(** C8, amended: a call for a non-empty mint that is neither freshly
    cached nor pending, and whose fetch fails on every attempt, returns
    null and stores nothing: the price and logo tiers and the pending
    requests are as before, and so is the full-record tier except that
    an expired entry of this mint is gone (that tier too is unchanged
    when the mint had no entry); the next call for the mint starts a new
    fetch. *)
Theorem failed_fetch_not_cached (now settledAt later : Z) (k : string)
    (upstream : nat → Reply) (s : Service) :
  truthy_string k = true →
  (getCachedToken now k s).1 = None →
  JSMap.get k (pendingRequests s) = None →
  (∀ i, (i < Z.to_nat (maxRetries s))%nat → ∃ e, attempt_result (upstream i) = inr e) →
  let r := getTokenData now k upstream settledAt s in
  r.1.1 = Returned None
  ∧ cache r.1.2 = JSMap.delete k (cache s)
  ∧ (JSMap.get k (cache s) = None → cache r.1.2 = cache s)
  ∧ priceCache r.1.2 = priceCache s
  ∧ logoCache r.1.2 = logoCache s
  ∧ pendingRequests r.1.2 = pendingRequests s
  ∧ (getTokenData_call later k r.1.2).1.1 = Fetching (nextPromise r.1.2)
  ∧ (getTokenData_call later k r.1.2).2 = [FetchTokenData k].
Proof.
  intros Hk Hmiss Hpend Hfail r. subst r. unfold getTokenData.
  rewrite (call_starts_fetch now k s Hk Hmiss Hpend).
  destruct (getCachedToken_miss now k s Hmiss)
    as (Hc & Hget & Hpc & Hlc & Hp & Hn & Hmax & _).
  set (s1 := with_pending _ _ _).
  destruct (fetchTokenData_all_fail s1 k upstream) as [e He].
  { subst s1. simpl. rewrite Hmax. exact Hfail. }
  cbv zeta. rewrite He. unfold getTokenData_settled. simpl.
  rewrite (delete_set_absent _ _ _ Hpend).
  assert (Hnext : ∀ s2, cache s2 = cache (getCachedToken now k s).2 →
                        pendingRequests s2 = pendingRequests s →
                        getTokenData_call later k s2
                        = (Fetching (nextPromise s2),
                           with_pending (getCachedToken later k s2).2
                             (JSMap.set k (nextPromise s2) (pendingRequests s2))
                             (S (nextPromise s2)),
                           [FetchTokenData k])).
  { intros s2 Hc2 Hp2. apply call_starts_fetch; [done | | by rewrite Hp2].
    unfold getCachedToken. by rewrite Hc2, Hget. }
  repeat split; try done.
  - intros Habs. rewrite Hc. by apply delete_absent.
  - by rewrite Hnext.
  - by rewrite Hnext.
Qed.

Lemma failed_fetch_not_cached_witness :
  (getTokenData 2000 usdc_mint upstream_down 9000 fresh_service).1.1 = Returned None.
Proof.
  apply (failed_fetch_not_cached 2000 9000 10000 usdc_mint upstream_down fresh_service).
  - reflexivity.
  - reflexivity.
  - reflexivity.
  - intros i _. exists NetworkError. reflexivity.
Defined.

(** C9: calls for a mint issued one after the other while nothing has
    settled, the first one finding the mint neither cached nor pending:
    the first call starts the one fetch, and every later call joins the
    promise the first one registered. *)
Theorem concurrent_calls_share_one_fetch (first : Z) (rest : list Z) (k : string)
    (s : Service) :
  truthy_string k = true →
  (getCachedToken first k s).1 = None →
  JSMap.get k (pendingRequests s) = None →
  let r := getTokenData_calls (first :: rest) k s in
  r.1.1 = Fetching (nextPromise s) :: map (λ _, Joined (nextPromise s)) rest
  ∧ r.2 = [FetchTokenData k]
  ∧ JSMap.get k (pendingRequests r.1.2) = Some (nextPromise s).
Proof.
  intros Hk Hmiss Hpend r. subst r. simpl.
  rewrite (call_starts_fetch first k s Hk Hmiss Hpend).
  destruct (getCachedToken_miss first k s Hmiss) as (_ & Hget & _).
  set (s1 := with_pending _ _ _).
  assert (Hc1 : JSMap.get k (cache s1) = None) by exact Hget.
  assert (Hp1 : JSMap.get k (pendingRequests s1) = Some (nextPromise s))
    by (subst s1; simpl; apply get_set_eq).
  clearbody s1.
  assert (Hrest : getTokenData_calls rest k s1
                  = (map (λ _, Joined (nextPromise s)) rest, s1, [])).
  { induction rest as [|now rest IH]; [done |]. simpl.
    rewrite (call_joins now k _ s1 Hk Hc1 Hp1), IH. done. }
  rewrite Hrest. done.
Qed.

Lemma concurrent_calls_witness :
  (getTokenData_calls [2000; 2001; 2002] usdc_mint fresh_service).2
  = [FetchTokenData usdc_mint].
Proof.
  apply (concurrent_calls_share_one_fetch 2000 [2001; 2002] usdc_mint fresh_service).
  - reflexivity.
  - reflexivity.
  - reflexivity.
Defined.

End MetadataFacts.

(** ** Key rotation, reconnection and unsubscription *)

Module BackendFacts.

Import WebSocketBackend BackendSamples.

(** *** The selection loop *)

Lemma consider_eq (now : Z) (b : Backend) (acc : nat * Z) (i : nat) :
  consider now b acc i
  = if recently_failed now b i then acc
    else if usage_of (lastApiKeyUsage b) i <? acc.2
         then (i, usage_of (lastApiKeyUsage b) i) else acc.
Proof. reflexivity. Qed.

Lemma select_fold (now : Z) (b : Backend) (l : list nat) (b0 : nat) (u0 : Z) :
  let usage := usage_of (lastApiKeyUsage b) in
  let r := fold_left (consider now b) l (b0, u0) in
  (r = (b0, u0)
   ∧ ∀ i, i ∈ l → recently_failed now b i = false → u0 ≤ usage i)
  ∨ (r.1 ∈ l ∧ recently_failed now b r.1 = false ∧ r.2 = usage r.1 ∧ r.2 < u0
     ∧ ∀ i, i ∈ l → recently_failed now b i = false → r.2 ≤ usage i).
Proof.
  intros usage. revert b0 u0.
  induction l as [|i l IH]; intros b0 u0; simpl.
  { left. split; [done |]. intros i Hi. by apply elem_of_nil in Hi. }
  assert (Hcons : ∀ (P : nat → Prop), P i → (∀ j, j ∈ l → P j) → ∀ j, j ∈ i :: l → P j).
  { intros P Hi Hl j Hj. apply elem_of_cons in Hj as [-> | Hj]; auto. }
  rewrite consider_eq. simpl. fold usage.
  destruct (recently_failed now b i) eqn:Hrf.
  - destruct (IH b0 u0) as [[Hr Hall] | (Hin & Hok & Hu & Hlt & Hall)].
    + left. split; [done |].
      apply (Hcons (λ j, recently_failed now b j = false → u0 ≤ usage j)); [simpl; intros ?; congruence | done].
    + right. split; [apply elem_of_cons; by right |].
      do 3 (split; [done |]).
      apply (Hcons (λ j, recently_failed now b j = false → _ ≤ usage j)); [simpl; intros ?; congruence | done].
  - destruct (Z.ltb_spec (usage i) u0) as [Hlt0 | Hge0].
    + destruct (IH i (usage i)) as [[Hr Hall] | (Hin & Hok & Hu & Hlt & Hall)].
      * right. rewrite Hr. simpl. split; [apply elem_of_cons; by left |].
        do 3 (split; [done |]).
        apply (Hcons (λ j, recently_failed now b j = false → usage i ≤ usage j)); [simpl; intros ?; lia | done].
      * right. split; [apply elem_of_cons; by right |].
        do 2 (split; [done |]). split; [lia |].
        apply (Hcons (λ j, recently_failed now b j = false → _ ≤ usage j)); [simpl; intros ?; lia | done].
    + destruct (IH b0 u0) as [[Hr Hall] | (Hin & Hok & Hu & Hlt & Hall)].
      * left. split; [done |].
        apply (Hcons (λ j, recently_failed now b j = false → u0 ≤ usage j)); [simpl; intros ?; lia | done].
      * right. split; [apply elem_of_cons; by right |].
        do 3 (split; [done |]).
        apply (Hcons (λ j, recently_failed now b j = false → _ ≤ usage j)); [simpl; intros ?; lia | done].
Qed.

Lemma getNextApiKey_index (now : Z) (b : Backend) :
  apiKeys (options b) ≠ [] →
  currentApiKeyIndex (getNextApiKey now b).2 = (selectKey now b).1
  ∧ (getNextApiKey now b).1 = apiKeys (options b) !! (selectKey now b).1
  ∧ lastApiKeyUsage (getNextApiKey now b).2
    = <[(selectKey now b).1 := now]> (lastApiKeyUsage b).
Proof.
  intros Hne. unfold getNextApiKey.
  destruct (apiKeys (options b)) as [|key keys] eqn:E; [done |]. done.
Qed.

(** C2, as stated, fails, in both halves: with every key cooling down
    the first key is selected although the second was used longer ago;
    and a cooling key is selected although the other key is not cooling
    down, when that other key carries the clock value of the call. *)
Lemma next_key_not_as_specified :
  (recently_failed 1000000 both_cooling 0 = true
   ∧ recently_failed 1000000 both_cooling 1 = true
   ∧ usage_of (lastApiKeyUsage both_cooling) 1 < usage_of (lastApiKeyUsage both_cooling) 0
   ∧ currentApiKeyIndex (getNextApiKey 1000000 both_cooling).2 = 0%nat)
  ∧ (recently_failed 1000000 second_just_used 0 = true
     ∧ recently_failed 1000000 second_just_used 1 = false
     ∧ currentApiKeyIndex (getNextApiKey 1000000 second_just_used).2 = 0%nat).
Proof. vm_compute. repeat split. Qed.

(** C2, amended: the selected key is the least recently used among the
    keys that are not cooling down and were last used before the clock
    value of the call, so that it is not cooling down whenever such a
    key exists; when every key is cooling down, the first key of the
    pool is selected; the selected key is returned and stamped with the
    clock value. *)
Theorem next_key_by_code (now : Z) (b : Backend) :
  apiKeys (options b) ≠ [] →
  let n := length (apiKeys (options b)) in
  let usage := usage_of (lastApiKeyUsage b) in
  let r := getNextApiKey now b in
  let best := currentApiKeyIndex r.2 in
  ((∃ i, (i < n)%nat ∧ recently_failed now b i = false ∧ usage i < now) →
     (best < n)%nat ∧ recently_failed now b best = false
     ∧ ∀ i, (i < n)%nat → recently_failed now b i = false → usage best ≤ usage i)
  ∧ ((∀ i, (i < n)%nat → recently_failed now b i = true) → best = 0%nat)
  ∧ r.1 = apiKeys (options b) !! best
  ∧ lastApiKeyUsage r.2 !! best = Some now.
Proof.
  intros Hne n usage r best. subst r best.
  destruct (getNextApiKey_index now b Hne) as (-> & -> & ->).
  pose proof (select_fold now b (seq 0 n) 0%nat now) as Hsel.
  cbv zeta in Hsel. fold usage in Hsel. unfold selectKey. fold n.
  set (sel := fold_left (consider now b) (seq 0 n) (0%nat, now)) in *.
  clearbody sel.
  assert (Hseq : ∀ i, i ∈ seq 0 n ↔ (i < n)%nat).
  { intros i. rewrite elem_of_seq. lia. }
  split; [| split; [| split]].
  - intros (i & Hi & Hiok & Hilt).
    destruct Hsel as [[_ Hall] | (Hin & Hok & Hu & _ & Hall)].
    + specialize (Hall i (proj2 (Hseq i) Hi) Hiok). lia.
    + split; [by apply Hseq |]. split; [done |].
      intros j Hj Hjok. rewrite <- Hu. apply Hall; [by apply Hseq | done].
  - intros Hall.
    destruct Hsel as [[-> _] | (Hin & Hok & _)]; [done |].
    apply Hseq in Hin. rewrite (Hall _ Hin) in Hok. discriminate Hok.
  - reflexivity.
  - apply lookup_insert_eq.
Qed.

Lemma next_key_witness :
  recently_failed 1000000 first_cooling
    (currentApiKeyIndex (getNextApiKey 1000000 first_cooling).2) = false.
Proof.
  destruct (next_key_by_code 1000000 first_cooling ltac:(discriminate)) as (H & _).
  apply H. exists 1%nat.
  split; [simpl; lia | split; reflexivity].
Defined.


(** *** Reconnection *)

Lemma scheduleReconnect_count (b : Backend) :
  reconnectCount (scheduleReconnect b).1 = reconnectCount b.
Proof.
  unfold scheduleReconnect.
  by destruct (reconnectAttempts (options b) <=? reconnectCount b).
Qed.

Lemma getNextApiKey_count (now : Z) (b : Backend) :
  reconnectCount (getNextApiKey now b).2 = reconnectCount b.
Proof. unfold getNextApiKey. by destruct (apiKeys (options b)). Qed.

Lemma connect_count (now : Z) (b : Backend) :
  reconnectCount (connect now b).1.2 = reconnectCount b.
Proof.
  unfold connect. destruct (isConnected b || isConnecting b); [done |].
  pose proof (getNextApiKey_count now b) as Hc.
  destruct (getNextApiKey now b) as [[key|] b1]; simpl in *; [| done].
  by destruct (truthy_string key).
Qed.

Lemma connect_frames (now : Z) (b : Backend) :
  frames (connect now b).1.2 = frames b.
Proof.
  unfold connect. destruct (isConnected b || isConnecting b); [done |].
  unfold getNextApiKey. destruct (apiKeys (options b)) as [|key keys]; [done |].
  destruct (_ !! _) as [k|]; [| done]. simpl. by destruct (truthy_string k).
Qed.

Lemma reconnectTimerFired_count (now : Z) (b : Backend) :
  reconnectCount (reconnectTimerFired now b).1 = reconnectCount b + 1.
Proof.
  unfold reconnectTimerFired.
  set (b1 := with_connection _ _ _ _ _).
  pose proof (connect_count now b1) as Hc.
  destruct (connect now b1) as [[outcome b2] e2]. simpl in Hc.
  destruct outcome; simpl; done.
Qed.

Lemma subscribeToWallet_count (w : string) (b : Backend) :
  reconnectCount (subscribeToWallet w b).1.2 = reconnectCount b.
Proof. unfold subscribeToWallet. by destruct (isConnected b). Qed.

Lemma resubscribeAll_count (b : Backend) :
  reconnectCount (resubscribeAll b).1 = reconnectCount b.
Proof.
  unfold resubscribeAll. destruct (JSSet.of_spread _ _) as [|w rest]; [done |].
  pose proof (subscribeToWallet_count w b) as H.
  by destruct (subscribeToWallet w b) as [[? ?] ?].
Qed.

Lemma handleOpen_count (b : Backend) : reconnectCount (handleOpen b).1 = 0.
Proof.
  unfold handleOpen, connected_listeners, setupHeartbeat.
  match goal with |- context [resubscribeAll ?x] =>
    pose proof (resubscribeAll_count x) as H; destruct (resubscribeAll x) end.
  done.
Qed.

(** What [handleClose] does once the flags and the heartbeat are dealt
    with: it hands over to [scheduleReconnect] unless the close was a
    normal one. *)
Lemma handleClose_schedules (code : Z) (b : Backend) :
  code ≠ 1000 →
  ∃ b2 e2,
    reconnectCount b2 = reconnectCount b ∧ options b2 = options b
    ∧ scheduled e2 = [] ∧ (Emit "maxReconnectAttemptsReached" ∉ e2)
    ∧ handleClose code b
      = ((scheduleReconnect b2).1, e2 ++ Emit "disconnected" :: (scheduleReconnect b2).2).
Proof.
  intros Hcode. unfold handleClose.
  destruct (Z.eqb_spec code 1000) as [|_]; [done |]. simpl.
  set (b1 := with_connection b (websocket b) false false (reconnectCount b)).
  destruct (heartbeatTimer b) as [h|]; simpl.
  - exists (with_timers b1 (reconnectTimer b1) None (keyRotationTimer b1)),
           [ClearTimer HeartbeatTimer].
    do 3 (split; [done |]). split.
    + intros Hin. apply list_elem_of_singleton in Hin. discriminate Hin.
    + by destruct (scheduleReconnect _).
  - exists b1, [].
    do 3 (split; [done |]). split.
    + intros Hin. by apply elem_of_nil in Hin.
    + by destruct (scheduleReconnect _).
Qed.

Lemma scheduled_app (e1 e2 : list Effect) :
  scheduled (e1 ++ e2) = scheduled e1 ++ scheduled e2.
Proof. unfold scheduled. by rewrite flat_map_app. Qed.

(** The callback of the reconnect timer, when the backend is neither
    connected nor connecting and the rotation yields a key. *)
Lemma reconnectTimerFired_connects (now : Z) (b : Backend) (key : string) :
  isConnected b = false →
  isConnecting b = false →
  (getNextApiKey now b).1 = Some key →
  truthy_string key = true →
  (reconnectTimerFired now b).2
  = [OpenSocket ("wss://atlas-mainnet.helius-rpc.com/ws?api-key=" ++ key)%string;
     SetTimeout ConnectTimeout 10000]
  ∧ isConnecting (reconnectTimerFired now b).1 = true
  ∧ websocket (reconnectTimerFired now b).1 = Some CONNECTING
  ∧ attempts (reconnectTimerFired now b).1
    = attempts b ++ [ {| settled := false; onConnected := true; onError := true;
                         reschedules := true |} ]
  ∧ frames (reconnectTimerFired now b).1 = frames b.
Proof.
  intros Hc Hi Hkey Htruthy. unfold reconnectTimerFired, connect. simpl.
  rewrite Hc, Hi. simpl.
  set (b1 := with_connection b (websocket b) false false (reconnectCount b + 1)).
  assert (Hsame : (getNextApiKey now b1).1 = Some key
                  ∧ attempts (getNextApiKey now b1).2 = attempts b
                  ∧ frames (getNextApiKey now b1).2 = frames b).
  { revert Hkey. unfold getNextApiKey. subst b1. simpl.
    by destruct (apiKeys (options b)). }
  destruct Hsame as (Hk & Ha & Hf).
  destruct (getNextApiKey now b1) as [apiKey b2]. simpl in *. subst apiKey.
  rewrite Htruthy. simpl. rewrite Ha, Hf. do 3 (split; [done |]). split; [| done].
  unfold catching. rewrite length_app. simpl.
  replace (length (attempts b) + 1 - 1)%nat with (length (attempts b) + 0)%nat by lia.
  by rewrite alter_app_r.
Qed.

(** The same callback when the pool is empty: [connect()] throws, and
    the handler of [.catch] is suspended. *)
Lemma reconnectTimerFired_no_key (now : Z) (b : Backend) :
  isConnected b = false →
  isConnecting b = false →
  apiKeys (options b) = [] →
  (reconnectTimerFired now b).2 = []
  ∧ frames (reconnectTimerFired now b).1 = frames b ++ [ReconnectFailed].
Proof.
  intros Hc Hi Hkeys. unfold reconnectTimerFired, connect, getNextApiKey. simpl.
  by rewrite Hc, Hi, Hkeys.
Qed.

(** An ["error"] event reaches the listener of every attempt that left
    one: an attempt of the reconnect callback that is still waiting
    resumes in its [catch] block. *)
Lemma error_rejects_waiting (b : Backend) (a : Attempt) :
  a ∈ attempts b → onError a = true → settled a = false →
  ConnectRejected (reschedules a) ∈ frames (socketError b).1.
Proof.
  intros Hin Hon Hpending. unfold socketError, handleError, error_listeners. simpl.
  apply elem_of_app. right. apply list_elem_of_In, in_flat_map.
  exists a. split; [by apply list_elem_of_In |]. rewrite Hon, Hpending. simpl. by left.
Qed.

(** C7, as stated, fails: a close leaves the attempt count as it was.
    A new backend connects and its socket closes with code 1006: the
    retry is scheduled after 1000 ms and the count is still 0.  When the
    owner connects again before that timer has fired and the second
    socket closes as well, the second retry is scheduled after the same
    1000 ms, not after 2000 ms. *)
Lemma closure_leaves_attempt_count :
  let opening := (connect 1000 (new_WebSocketBackend two_keys).1).1.2 in
  let closed := socketClosed 1006 opening in
  let opening_again := connect 2000 closed.1 in
  let closed_again := socketClosed 1006 opening_again.1.2 in
  reconnectCount opening = 0
  ∧ scheduled closed.2 = [1000]
  ∧ reconnectCount closed.1 = 0
  ∧ reconnectCount closed.1 ≠ reconnectCount opening + 1
  ∧ opening_again.1.1 = AwaitingOpen
  ∧ scheduled closed_again.2 = [1000]
  ∧ reconnectCount closed_again.1 = 0.
Proof. vm_compute. repeat split; discriminate. Qed.

(** C7, amended: a close with a code other than 1000 while
    [reconnectCount] is below [reconnectAttempts] arms the reconnect
    timer with [min (reconnectDelay * 2 ^ reconnectCount)
    maxReconnectDelay], signals nothing and leaves [reconnectCount] as it
    is; the callback of the timer increments [reconnectCount] and calls
    [connect()], which opens one socket with the next key when the
    backend is neither connected nor connecting, and does nothing when
    it is; when that call fails, at once for lack of a key or later
    through an ["error"] event, the handler of its [.catch] calls
    [scheduleReconnect()], which follows the same rule; once
    [reconnectCount] has reached [reconnectAttempts], such a close arms
    no timer and emits ["maxReconnectAttemptsReached"]; [handleOpen]
    resets [reconnectCount] to 0. *)
Theorem reconnect_backoff (code now : Z) (b : Backend) :
  (code ≠ 1000 → reconnectCount b < reconnectAttempts (options b) →
     scheduled (handleClose code b).2
     = [Z.min (reconnectDelay (options b) * 2 ^ reconnectCount b)
              (maxReconnectDelay (options b))]
     ∧ (Emit "maxReconnectAttemptsReached" ∉ (handleClose code b).2)
     ∧ reconnectCount (handleClose code b).1 = reconnectCount b)
  ∧ reconnectCount (reconnectTimerFired now b).1 = reconnectCount b + 1
  ∧ (isConnected b || isConnecting b = true →
     reconnectTimerFired now b
     = (with_connection b (websocket b) (isConnected b) (isConnecting b)
                        (reconnectCount b + 1), []))
  ∧ (isConnected b = false → isConnecting b = false →
     ∀ key, (getNextApiKey now b).1 = Some key → truthy_string key = true →
       (reconnectTimerFired now b).2
       = [OpenSocket ("wss://atlas-mainnet.helius-rpc.com/ws?api-key=" ++ key)%string;
          SetTimeout ConnectTimeout 10000]
       ∧ isConnecting (reconnectTimerFired now b).1 = true
       ∧ websocket (reconnectTimerFired now b).1 = Some CONNECTING
       ∧ attempts (reconnectTimerFired now b).1
         = attempts b ++ [ {| settled := false; onConnected := true; onError := true;
                              reschedules := true |} ]
       ∧ ConnectRejected true ∈ frames (socketError (reconnectTimerFired now b).1).1)
  ∧ (isConnected b = false → isConnecting b = false → apiKeys (options b) = [] →
     frames (reconnectTimerFired now b).1 = frames b ++ [ReconnectFailed])
  ∧ (∀ k, frames b !! k = Some (ConnectRejected true) →
          isConnecting (resume k b).1 = false
          ∧ frames (resume k b).1 = delete k (frames b) ++ [ReconnectFailed])
  ∧ (∀ k, frames b !! k = Some ReconnectFailed →
          resume k b = scheduleReconnect (with_frames b (delete k (frames b))))
  ∧ scheduled (scheduleReconnect b).2
    = (if reconnectAttempts (options b) <=? reconnectCount b then []
       else [Z.min (reconnectDelay (options b) * 2 ^ reconnectCount b)
                   (maxReconnectDelay (options b))])
  ∧ (Emit "maxReconnectAttemptsReached" ∈ (scheduleReconnect b).2
     ↔ reconnectAttempts (options b) ≤ reconnectCount b)
  ∧ reconnectCount (scheduleReconnect b).1 = reconnectCount b
  ∧ (code ≠ 1000 → reconnectAttempts (options b) ≤ reconnectCount b →
     scheduled (handleClose code b).2 = []
     ∧ Emit "maxReconnectAttemptsReached" ∈ (handleClose code b).2
     ∧ reconnectCount (handleClose code b).1 = reconnectCount b)
  ∧ reconnectCount (handleOpen b).1 = 0.
Proof.
  split; [| split; [| split; [| split; [| split; [| split; [| split; [| split;
    [| split; [| split; [| split]]]]]]]]]].
  - intros Hcode Hlt.
    destruct (handleClose_schedules code b Hcode) as (b2 & e2 & Hc & Ho & Hs & Hn & ->).
    simpl. unfold scheduleReconnect. rewrite Hc, Ho.
    destruct (Z.leb_spec (reconnectAttempts (options b)) (reconnectCount b)); [lia |].
    simpl. rewrite scheduled_app, Hs. simpl. split; [done |]. split; [| done].
    intros Hin. apply elem_of_app in Hin as [Hin | Hin]; [exact (Hn Hin) |].
    apply elem_of_cons in Hin as [Hin | Hin]; [discriminate Hin |].
    apply list_elem_of_singleton in Hin. discriminate Hin.
  - apply reconnectTimerFired_count.
  - intros Hbusy. unfold reconnectTimerFired, connect. simpl. by rewrite Hbusy.
  - intros Hc Hi key Hkey Htruthy.
    destruct (reconnectTimerFired_connects now b key Hc Hi Hkey Htruthy)
      as (He & Hing & Hws & Ha & _).
    do 4 (split; [done |]).
    apply (error_rejects_waiting _
             {| settled := false; onConnected := true; onError := true;
                reschedules := true |}); try done.
    rewrite Ha. apply elem_of_app. right. by apply list_elem_of_singleton.
  - intros Hc Hi Hkeys. by apply reconnectTimerFired_no_key.
  - intros k Hk. unfold resume. rewrite Hk. simpl. done.
  - intros k Hk. unfold resume. by rewrite Hk.
  - unfold scheduleReconnect.
    by destruct (reconnectAttempts (options b) <=? reconnectCount b).
  - unfold scheduleReconnect.
    destruct (Z.leb_spec (reconnectAttempts (options b)) (reconnectCount b)); simpl.
    + split; [done |]. intros _. by apply list_elem_of_singleton.
    + split; [| lia]. intros Hin. apply list_elem_of_singleton in Hin. discriminate Hin.
  - unfold scheduleReconnect.
    by destruct (reconnectAttempts (options b) <=? reconnectCount b).
  - intros Hcode Hge.
    destruct (handleClose_schedules code b Hcode) as (b2 & e2 & Hc & Ho & Hs & Hn & ->).
    simpl. unfold scheduleReconnect. rewrite Hc, Ho.
    destruct (Z.leb_spec (reconnectAttempts (options b)) (reconnectCount b)); [| lia].
    simpl. rewrite scheduled_app, Hs. simpl. split; [done |]. split; [| done].
    apply elem_of_app. right. apply elem_of_cons. right. apply list_elem_of_singleton. done.
  - apply handleOpen_count.
Qed.

Lemma reconnect_backoff_witness :
  scheduled (handleClose 1006 first_cooling).2 = [4000]
  ∧ scheduled (handleClose 1006 exhausted).2 = []
  ∧ reconnectCount (reconnectTimerFired 1000000 first_cooling).1 = 3.
Proof.
  destruct (reconnect_backoff 1006 1000000 first_cooling) as (H1 & H3 & _).
  destruct (reconnect_backoff 1006 1000000 exhausted)
    as (_ & _ & _ & _ & _ & _ & _ & _ & _ & _ & H2 & _).
  split; [| split].
  - apply H1; [discriminate | reflexivity].
  - apply H2; [discriminate | discriminate].
  - exact H3.
Defined.

(** The reconnection cycle of a backend whose first attempt is rejected:
    close, timer, rejected attempt, and the retry scheduled for the
    incremented count. *)
Example rejected_attempt_is_rescheduled :
  let closed := (socketClosed 1006 (new_WebSocketBackend two_keys).1).1 in
  let trying := (reconnectTimerFired 5000 closed).1 in
  let failing := (socketError trying).1 in
  let caught := (resume 0 failing).1 in
  scheduled (socketClosed 1006 (new_WebSocketBackend two_keys).1).2 = [1000]
  ∧ frames failing = [ConnectRejected true]
  ∧ frames caught = [ReconnectFailed]
  ∧ scheduled (resume 0 caught).2 = [2000].
Proof. vm_compute. repeat split. Qed.

(** *** Unsubscription *)

(** C10: [unsubscribeFromWallet] returns [true] in every state, puts
    nothing on the wire and performs no other effect, takes the address
    out of both subscription sets, keeps every other address in them,
    and leaves every other field as it was, and with them the listeners
    and the suspended calls of the object. *)
Theorem unsubscribe_is_local (walletAddress : string) (b : Backend) :
  let r := unsubscribeFromWallet walletAddress b in
  r.1.1 = true
  ∧ r.2 = []
  ∧ subscriptions r.1.2 = JSSet.delete walletAddress (subscriptions b)
  ∧ pendingSubscriptions r.1.2 = JSSet.delete walletAddress (pendingSubscriptions b)
  ∧ (walletAddress ∉ subscriptions r.1.2)
  ∧ (walletAddress ∉ pendingSubscriptions r.1.2)
  ∧ (∀ other, other ≠ walletAddress →
       (other ∈ subscriptions r.1.2 ↔ other ∈ subscriptions b)
       ∧ (other ∈ pendingSubscriptions r.1.2 ↔ other ∈ pendingSubscriptions b))
  ∧ options r.1.2 = options b
  ∧ websocket r.1.2 = websocket b
  ∧ isConnected r.1.2 = isConnected b
  ∧ isConnecting r.1.2 = isConnecting b
  ∧ reconnectCount r.1.2 = reconnectCount b
  ∧ currentApiKeyIndex r.1.2 = currentApiKeyIndex b
  ∧ lastApiKeyUsage r.1.2 = lastApiKeyUsage b
  ∧ apiKeyFailures r.1.2 = apiKeyFailures b
  ∧ reconnectTimer r.1.2 = reconnectTimer b
  ∧ heartbeatTimer r.1.2 = heartbeatTimer b
  ∧ keyRotationTimer r.1.2 = keyRotationTimer b
  ∧ attempts r.1.2 = attempts b
  ∧ frames r.1.2 = frames b.
Proof.
  simpl. unfold JSSet.delete.
  repeat split; try reflexivity.
  - rewrite list_elem_of_filter. intros [Hne _]. done.
  - rewrite list_elem_of_filter. intros [Hne _]. done.
  - rewrite list_elem_of_filter. tauto.
  - rewrite list_elem_of_filter. tauto.
  - rewrite list_elem_of_filter. tauto.
  - rewrite list_elem_of_filter. tauto.
Qed.

Example unsubscribe_active :
  subscriptions (unsubscribeFromWallet "walletA" first_cooling).1.2 = []
  ∧ pendingSubscriptions (unsubscribeFromWallet "walletA" first_cooling).1.2 = ["walletB"].
Proof. split; reflexivity. Qed.

End BackendFacts.

(** ** The tracker: resubscription and the bounded history *)

Module JSSetFacts.

Lemma elem_of_add (x y : string) (s : list string) :
  x ∈ JSSet.add y s ↔ x = y ∨ x ∈ s.
Proof.
  unfold JSSet.add, JSSet.has. case_bool_decide as Hy.
  - split; [by right | intros [-> | H]; done].
  - rewrite elem_of_app, list_elem_of_singleton. tauto.
Qed.

Lemma to_gset_add (y : string) (s : list string) :
  JSSet.to_gset (JSSet.add y s) = {[ y ]} ∪ JSSet.to_gset s.
Proof.
  apply set_eq. intros x. unfold JSSet.to_gset.
  rewrite elem_of_union, elem_of_singleton, !elem_of_list_to_set.
  apply elem_of_add.
Qed.

Lemma to_gset_delete (y : string) (s : list string) :
  JSSet.to_gset (JSSet.delete y s) = JSSet.to_gset s ∖ {[ y ]}.
Proof.
  apply set_eq. intros x. unfold JSSet.to_gset, JSSet.delete.
  rewrite elem_of_difference, elem_of_singleton, !elem_of_list_to_set,
    list_elem_of_filter. tauto.
Qed.

Lemma to_gset_add_all (l s : list string) :
  JSSet.to_gset (fold_left (λ acc x, JSSet.add x acc) l s)
  = JSSet.to_gset s ∪ list_to_set l.
Proof.
  revert s. induction l as [|x l IH]; intros s; simpl.
  - set_solver.
  - rewrite IH, to_gset_add. set_solver.
Qed.

Lemma to_gset_delete_all (l s : list string) :
  JSSet.to_gset (fold_left (λ acc x, JSSet.delete x acc) l s)
  = JSSet.to_gset s ∖ list_to_set l.
Proof.
  revert s. induction l as [|x l IH]; intros s; simpl.
  - set_solver.
  - rewrite IH, to_gset_delete. set_solver.
Qed.

Lemma to_gset_of_spread (a b : list string) :
  JSSet.to_gset (JSSet.of_spread a b) = JSSet.to_gset a ∪ JSSet.to_gset b.
Proof.
  unfold JSSet.of_spread. rewrite to_gset_add_all.
  unfold JSSet.to_gset, JSSet.empty. rewrite list_to_set_app_L. set_solver.
Qed.

End JSSetFacts.

Module TrackerFacts.

Import WebSocketBackend WalletTracker Replay JSSetFacts.

Section WithTransaction.
Context {Tx : Type}.
Implicit Types (t : Tracker Tx) (s : Step Tx).

Lemma forward_fold_frame (effects : list Effect) (acc : Tracker Tx * list Output) :
  let r := fold_left forward_one effects acc in
  websocketBackend r.1 = websocketBackend acc.1
  ∧ trackedWallets r.1 = trackedWallets acc.1
  ∧ transactions r.1 = transactions acc.1
  ∧ maxTransactions r.1 = maxTransactions acc.1
  ∧ stopsPending r.1 = stopsPending acc.1.
Proof.
  revert acc. induction effects as [|e effects IH]; intros acc; [done |]. simpl.
  destruct (IH (forward_one acc e)) as (-> & -> & -> & -> & ->).
  unfold forward_one. destruct e as [ev| | | | | |]; try done.
  destruct (String.eqb ev "connected"); [done |].
  destruct (String.eqb ev "disconnected"); [done |].
  by destruct (String.eqb ev "error").
Qed.

Lemma forward_frame (effects : list Effect) t :
  websocketBackend (forward effects t).1 = websocketBackend t
  ∧ trackedWallets (forward effects t).1 = trackedWallets t
  ∧ transactions (forward effects t).1 = transactions t
  ∧ maxTransactions (forward effects t).1 = maxTransactions t
  ∧ stopsPending (forward effects t).1 = stopsPending t.
Proof. apply (forward_fold_frame effects (t, [])). Qed.

(** *** The bounded history *)

Lemma addTransaction_take {A} (N : Z) (e : A) (h : list A) :
  0 ≤ N → addTransaction N e h = take (Z.to_nat N) (e :: h).
Proof.
  intros HN. unfold addTransaction, slice0.
  destruct (Z.ltb_spec N (Z.of_nat (length (e :: h)))) as [Hlt | Hge].
  - destruct (Z.ltb_spec N 0); [lia | done].
  - symmetry. apply take_ge. lia.
Qed.

Lemma take_cons_take {A} (n : nat) (e : A) (l : list A) :
  take n (e :: take n l) = take n (e :: l).
Proof.
  destruct n as [|n]; [done |]. simpl. f_equal.
  rewrite take_take. f_equal. lia.
Qed.

Lemma step_history t s :
  maxTransactions (step t s).1 = maxTransactions t
  ∧ transactions (step t s).1
    = match s with
      | Accepted tx => addTransaction (maxTransactions t) tx (transactions t)
      | _ => transactions t
      end.
Proof.
  destruct s as [w|w|now| | |code| |now|k| |tx]; unfold step.
  - unfold addWallet. destruct (validateWalletAddress w); simpl; [| done].
    destruct (JSSet.has w (trackedWallets t)); simpl; [done |].
    by destruct (subscribeToWallet _ _) as [[? ?] ?].
  - unfold removeWallet. by destruct (JSSet.has w (trackedWallets t)).
  - unfold start. destruct (connect now (websocketBackend t)) as [[outcome b] e].
    by destruct (forward_frame e (with_backend t b)) as (_ & _ & -> & -> & _).
  - unfold stop. destruct (disconnect (websocketBackend t)) as [b e].
    match goal with |- context [forward e ?t'] =>
      by destruct (forward_frame e t') as (_ & _ & -> & -> & _) end.
  - destruct (socketOpened (websocketBackend t)) as [b e].
    by destruct (forward_frame e (with_backend t b)) as (_ & _ & -> & -> & _).
  - destruct (socketClosed code (websocketBackend t)) as [b e].
    by destruct (forward_frame e (with_backend t b)) as (_ & _ & -> & -> & _).
  - destruct (socketError (websocketBackend t)) as [b e].
    by destruct (forward_frame e (with_backend t b)) as (_ & _ & -> & -> & _).
  - destruct (reconnectTimerFired now (websocketBackend t)) as [b e].
    by destruct (forward_frame e (with_backend t b)) as (_ & _ & -> & -> & _).
  - destruct (resume k (websocketBackend t)) as [b e].
    by destruct (forward_frame e (with_backend t b)) as (_ & _ & -> & -> & _).
  - unfold stopResumed. by destruct (stopsPending t).
  - done.
Qed.

Lemma run_snoc (steps : list (Step Tx)) s t :
  run (steps ++ [s]) t = (step (run steps t) s).1.
Proof. unfold run. by rewrite fold_left_app. Qed.

Lemma accepted_snoc (steps : list (Step Tx)) s :
  accepted (steps ++ [s])
  = accepted steps ++ match s with Accepted tx => [tx] | _ => [] end.
Proof. unfold accepted. rewrite flat_map_app. simpl. by rewrite app_nil_r. Qed.

Lemma run_history (maxTx : Z) (o : Options) (steps : list (Step Tx)) :
  0 ≤ maxTx →
  let t := run steps (new_WalletTracker maxTx o) in
  maxTransactions t = maxTx
  ∧ transactions t = take (Z.to_nat maxTx) (rev (accepted steps)).
Proof.
  intros HN. induction steps as [|s steps IH] using rev_ind.
  - simpl. by rewrite take_nil.
  - cbv zeta in *. rewrite run_snoc, accepted_snoc.
    destruct IH as [IHmax IHtx].
    destruct (step_history (run steps (new_WalletTracker maxTx o)) s) as [-> ->].
    split; [done |]. rewrite IHmax, IHtx.
    destruct s; rewrite ?app_nil_r; try done.
    rewrite rev_app_distr. simpl.
    rewrite addTransaction_take by done. apply take_cons_take.
Qed.

(** C6: whatever happens to a tracker of capacity [N], its history
    is the [N] most recently accepted transactions, newest first, and
    never longer than [N]; so after [N + 1] distinct transactions the
    oldest one is gone and the other [N] are there in order of
    arrival read from the newest. *)
Theorem history_bounded (N : Z) (o : Options) (steps : list (Step Tx)) :
  0 ≤ N →
  let h := transactions (run steps (new_WalletTracker N o)) in
  h = take (Z.to_nat N) (rev (accepted steps))
  ∧ Z.of_nat (length h) ≤ N
  ∧ ∀ oldest newer,
      accepted steps = oldest :: newer →
      Z.of_nat (length newer) = N →
      NoDup (oldest :: newer) →
      h = rev newer ∧ oldest ∉ h.
Proof.
  intros HN h. subst h.
  destruct (run_history N o steps HN) as [_ ->].
  split; [done |]. split.
  - rewrite length_take. lia.
  - intros oldest newer Hacc Hlen Hnd. rewrite Hacc. simpl.
    rewrite take_app_length' by (rewrite length_rev; lia).
    split; [done |]. rewrite list_elem_of_In, <- in_rev, <- list_elem_of_In.
    by apply NoDup_cons in Hnd as [Hnotin _].
Qed.

End WithTransaction.

Example wallet_one_valid :
  validateWalletAddress BackendSamples.wallet_one = true
  ∧ validateWalletAddress "O0Il" = false
  ∧ validateWalletAddress "0WzDXwBbmkg8ZTbNMqUxvQRAyrZzDsGYdLVL9zYtAWWM" = false.
Proof. repeat split. Qed.

(** After the session the second wallet alone is tracked, and the
    reopening socket starts a replay with exactly that wallet. *)
Example session_replay :
  let t := run BackendSamples.session (new_WalletTracker 100 BackendSamples.two_keys) in
  trackedWallets t = [BackendSamples.wallet_two]
  ∧ transactions t = [7%nat]
  ∧ reconnectTimer (websocketBackend t) = Some 1000
  ∧ requested (outputs BackendSamples.session
                       (new_WalletTracker 100 BackendSamples.two_keys))
    = [BackendSamples.wallet_one; BackendSamples.wallet_two]
  ∧ sent (socketOpened (websocketBackend t)).2 = [BackendSamples.wallet_two].
Proof. vm_compute. repeat split. Qed.

(** C5 fails on the code.  The replay walks through a snapshot of the
    two sets and waits after every wallet; a wallet that is removed
    while the replay waits is subscribed all the same when the replay
    reaches it.  Here the fourth wallet is removed after the third was
    subscribed: it is no longer tracked, yet it ends in the active set,
    and the next opening of the socket sends a request for it again. *)
Example replay_resubscribes_removed_wallet :
  let t := run BackendSamples.race (new_WalletTracker 100 BackendSamples.two_keys) in
  let b := websocketBackend t in
  trackedWallets t
  = [BackendSamples.wallet_one; BackendSamples.wallet_two; BackendSamples.wallet_three]
  ∧ subscriptions b
    = [BackendSamples.wallet_one; BackendSamples.wallet_two; BackendSamples.wallet_three;
       BackendSamples.wallet_four]
  ∧ pendingSubscriptions b = []
  ∧ frames b = []
  ∧ JSSet.to_gset (subscriptions b) ∪ JSSet.to_gset (pendingSubscriptions b)
    ≠ JSSet.to_gset (trackedWallets t)
  ∧ requested (outputs BackendSamples.forced_reconnect t)
    = [BackendSamples.wallet_one; BackendSamples.wallet_two; BackendSamples.wallet_three;
       BackendSamples.wallet_four]
  ∧ trackedWallets (run BackendSamples.forced_reconnect t) = trackedWallets t.
Proof.
  intros t b.
  assert (Ht : trackedWallets t
               = [BackendSamples.wallet_one; BackendSamples.wallet_two;
                  BackendSamples.wallet_three]) by (vm_compute; reflexivity).
  assert (Hs : subscriptions b
               = [BackendSamples.wallet_one; BackendSamples.wallet_two;
                  BackendSamples.wallet_three; BackendSamples.wallet_four])
    by (vm_compute; reflexivity).
  assert (Hp : pendingSubscriptions b = []) by (vm_compute; reflexivity).
  split; [exact Ht |]. split; [exact Hs |]. split; [exact Hp |].
  split; [vm_compute; reflexivity |].
  split; [| split; vm_compute; reflexivity].
  rewrite Ht, Hs, Hp. unfold JSSet.to_gset. intros H.
  assert (Hin : BackendSamples.wallet_four
                ∈ (list_to_set [BackendSamples.wallet_one; BackendSamples.wallet_two;
                                BackendSamples.wallet_three] : gset string)).
  { rewrite <- H. set_solver. }
  apply elem_of_list_to_set in Hin.
  unfold BackendSamples.wallet_one, BackendSamples.wallet_two,
    BackendSamples.wallet_three, BackendSamples.wallet_four in Hin.
  repeat (apply elem_of_cons in Hin as [Hin | Hin]; [discriminate Hin |]).
  by apply elem_of_nil in Hin.
Qed.

(** The same happens around [stop()]: a wallet added while [stop()]
    waits for [disconnect()] is queued in the pending set and then
    dropped from the tracked set. *)
Example stop_forgets_pending_wallet :
  let t := run BackendSamples.stop_and_add (new_WalletTracker 100 BackendSamples.two_keys) in
  trackedWallets t = []
  ∧ pendingSubscriptions (websocketBackend t) = [BackendSamples.wallet_two].
Proof. vm_compute. repeat split. Qed.

Lemma history_bounded_witness :
  transactions (run [Accepted 1%nat; AddWallet "w"; Accepted 2%nat; Accepted 3%nat]
                    (new_WalletTracker 2 BackendSamples.two_keys))
  = [3%nat; 2%nat].
Proof.
  apply (history_bounded 2 BackendSamples.two_keys
           [Accepted 1%nat; AddWallet "w"; Accepted 2%nat; Accepted 3%nat]
           ltac:(lia)).
Defined.

End TrackerFacts.

(** ** More on the relevance filter *)

Module FilterRuleFacts.

Import TransactionFilter Samples FilterSamples.

Lemma nonblacklisted_nonempty (f : Filter) (l : list string) :
  (0 <? Z.of_nat (length (List.filter
                            (λ a, negb (bool_decide (a ∈ blacklistAddresses f))) l))) = true
  ↔ ∃ a, a ∈ l ∧ a ∉ blacklistAddresses f.
Proof.
  induction l as [|x l IH]; simpl.
  - split; [discriminate | intros (a & Ha & _); by apply elem_of_nil in Ha].
  - case_bool_decide as Hx; simpl.
    + rewrite IH. split.
      * intros (a & Ha & Hn). exists a. split; [by apply elem_of_cons; right | done].
      * intros (a & Ha & Hn). apply elem_of_cons in Ha as [-> | Ha]; [done |]. by exists a.
    + split; [| intros _; apply Z.ltb_lt; lia].
      intros _. exists x. split; [apply elem_of_cons; by left | done].
Qed.

(** X1: the address filter passes a transaction that names no account,
    and otherwise exactly the transactions with an account outside the
    blacklist. *)
Theorem address_filter_rule (f : Filter) (tx : Transaction) :
  passesAddressFilter f tx = true
  ↔ accounts tx = [] ∨ ∃ a, a ∈ accounts tx ∧ a ∉ blacklistAddresses f.
Proof.
  unfold passesAddressFilter. destruct (accounts tx) as [|x l] eqn:E.
  - split; [by left | done].
  - rewrite nonblacklisted_nonempty. split; [by right |].
    intros [H | H]; [discriminate H | done].
Qed.

Lemma whitelisted_exists (f : Filter) (l : list Instruction) :
  existsb (λ i, bool_decide (programId i ∈ whitelistPrograms f)) l = true
  ↔ ∃ i, i ∈ l ∧ programId i ∈ whitelistPrograms f.
Proof.
  rewrite existsb_exists. split.
  - intros (i & Hi & Hp). exists i.
    split; [by apply list_elem_of_In | by apply bool_decide_eq_true in Hp].
  - intros (i & Hi & Hp). exists i.
    split; [by apply list_elem_of_In | by apply bool_decide_eq_true].
Qed.

(** X2: the program filter passes a transaction without instructions,
    and otherwise exactly the transactions with an instruction of a
    whitelisted program. *)
Theorem program_filter_rule (f : Filter) (tx : Transaction) :
  passesProgramFilter f tx = true
  ↔ instructions tx = []
    ∨ ∃ i, i ∈ instructions tx ∧ programId i ∈ whitelistPrograms f.
Proof.
  unfold passesProgramFilter. destruct (instructions tx) as [|x l] eqn:E.
  - split; [by left | done].
  - rewrite whitelisted_exists. split; [by right |].
    intros [H | H]; [discriminate H | done].
Qed.

Lemma address_filter_ext (f g : Filter) (tx : Transaction) :
  (∀ a, a ∈ accounts tx → (a ∈ blacklistAddresses f ↔ a ∈ blacklistAddresses g)) →
  passesAddressFilter f tx = passesAddressFilter g tx.
Proof.
  intros Hsame. unfold passesAddressFilter.
  destruct (accounts tx) as [|x l] eqn:E; [done |].
  apply eq_true_iff_eq. rewrite !nonblacklisted_nonempty.
  split; intros (a & Ha & Hn); exists a; (split; [done |]);
    intros Hin; apply Hn; by apply (Hsame a Ha).
Qed.

Lemma program_filter_ext (f g : Filter) (tx : Transaction) :
  (∀ i, i ∈ instructions tx →
        (programId i ∈ whitelistPrograms f ↔ programId i ∈ whitelistPrograms g)) →
  passesProgramFilter f tx = passesProgramFilter g tx.
Proof.
  intros Hsame. unfold passesProgramFilter.
  destruct (instructions tx) as [|x l] eqn:E; [done |].
  apply eq_true_iff_eq. rewrite !whitelisted_exists.
  split; intros (i & Hi & Hp); exists i; (split; [done |]); by apply (Hsame i Hi).
Qed.

Lemma shouldInclude_ext (now : Z) (f g : Filter) (tx : Transaction) :
  options f = options g →
  passesProgramFilter f tx = passesProgramFilter g tx →
  passesAddressFilter f tx = passesAddressFilter g tx →
  shouldInclude now f tx = shouldInclude now g tx.
Proof.
  intros Ho Hp Ha. unfold shouldInclude, passesAgeFilter, passesAmountFilter, significant.
  by rewrite Ho, Hp, Ha.
Qed.

(** X3: putting an address on the blacklist, or taking it off, changes
    the verdict of [shouldInclude] for no transaction that does not name
    that address. *)
Theorem blacklist_change_is_local (now : Z) (address : string) (f : Filter)
    (tx : Transaction) :
  address ∉ accounts tx →
  shouldInclude now (addToBlacklist address f) tx = shouldInclude now f tx
  ∧ shouldInclude now (removeFromBlacklist address f) tx = shouldInclude now f tx.
Proof.
  intros Hout. split; apply shouldInclude_ext; try reflexivity;
    apply address_filter_ext; intros a Ha; simpl;
    assert (a ≠ address) by (intros ->; done); set_solver.
Qed.

Lemma blacklist_change_witness :
  shouldInclude 6000 (addToBlacklist "someOtherAddress" default_filter) jupiter_swap
  = shouldInclude 6000 default_filter jupiter_swap.
Proof.
  apply (blacklist_change_is_local 6000 "someOtherAddress" default_filter jupiter_swap).
  apply not_elem_of_cons. split; [discriminate |].
  apply not_elem_of_cons. split; [discriminate |]. apply not_elem_of_nil.
Defined.

(** X4: putting a program on the whitelist, or taking it off, changes
    the verdict of [shouldInclude] for no transaction without an
    instruction of that program. *)
Theorem whitelist_change_is_local (now : Z) (program : string) (f : Filter)
    (tx : Transaction) :
  (∀ i, i ∈ instructions tx → programId i ≠ program) →
  shouldInclude now (addToWhitelist program f) tx = shouldInclude now f tx
  ∧ shouldInclude now (removeFromWhitelist program f) tx = shouldInclude now f tx.
Proof.
  intros Hout. split; apply shouldInclude_ext; try reflexivity;
    apply program_filter_ext; intros i Hi; simpl;
    specialize (Hout i Hi); set_solver.
Qed.

Lemma whitelist_change_witness :
  shouldInclude 6000 (removeFromWhitelist "someOtherProgram" default_filter) jupiter_swap
  = shouldInclude 6000 default_filter jupiter_swap.
Proof.
  apply (whitelist_change_is_local 6000 "someOtherProgram" default_filter jupiter_swap).
  intros i Hi. apply list_elem_of_singleton in Hi. subst i. discriminate.
Defined.

Example jupiter_swap_included :
  shouldInclude 6000 default_filter jupiter_swap = true
  ∧ shouldInclude 6000 (removeFromWhitelist "JUP4Fb2cqiRUcaTHdrPC8h2gNsA2ETXiPDD33WcGuJB"
                          default_filter) jupiter_swap = false
  ∧ shouldInclude 6000 (addToBlacklist "9WzDXwBbmkg8ZTbNMqUxvQRAyrZzDsGYdLVL9zYtAWWM"
                          default_filter) jupiter_swap = false.
Proof. vm_compute. repeat split. Qed.

(** X5: age only ever excludes: a transaction the age filter rejects at
    one clock value is rejected at every later one, and with filtering
    enabled [shouldInclude] rejects it from then on. *)
Theorem too_old_stays_excluded (now later : Z) (f : Filter) (tx : Transaction) :
  passesAgeFilter now f tx = false →
  now ≤ later →
  passesAgeFilter later f tx = false
  ∧ (truthy (enableFiltering (options f)) = true → shouldInclude later f tx = false).
Proof.
  intros Hold Hle.
  assert (Hlater : passesAgeFilter later f tx = false).
  { revert Hold. unfold passesAgeFilter.
    destruct (timestamp tx) as [ts|]; [| done].
    destruct (truthy_Z ts); [| done].
    rewrite !Z.leb_gt. lia. }
  split; [done |]. intros Hon. unfold shouldInclude. by rewrite Hon, Hlater.
Qed.

Lemma too_old_witness :
  passesAgeFilter 90000000 default_filter jupiter_swap = false.
Proof.
  destruct (too_old_stays_excluded 86405001 90000000 default_filter jupiter_swap
              eq_refl ltac:(lia)) as [H _].
  exact H.
Defined.

End FilterRuleFacts.

(** ** The cache manager *)

Module KeyFacts.

Import Shape.

Section WithValue.
Context {V : Type}.
Implicit Types (m : JSMap.t V) (k : string) (v : V).

Lemma get_None_keys k m : JSMap.get k m = None ↔ k ∉ keys_of m.
Proof.
  unfold keys_of. induction m as [|[k' v'] m IH]; simpl.
  - split; [intros _; apply not_elem_of_nil | done].
  - destruct (String.eqb k' k) eqn:E.
    + apply String.eqb_eq in E. subst k'. split; [done |].
      intros H. exfalso. apply H. apply elem_of_cons. by left.
    + apply String.eqb_neq in E. rewrite IH, not_elem_of_cons. naive_solver.
Qed.

Lemma has_keys k m : JSMap.has k m = true ↔ k ∈ keys_of m.
Proof.
  unfold JSMap.has. pose proof (get_None_keys k m) as H.
  destruct (JSMap.get k m); split; try done.
  - intros _. destruct (decide (k ∈ keys_of m)); [done |]. by apply H in n.
  - intros Hin. by apply H in Hin.
Qed.

Lemma keys_set k v m :
  keys_of (JSMap.set k v m) = if JSMap.has k m then keys_of m else keys_of m ++ [k].
Proof.
  unfold keys_of, JSMap.has. induction m as [|[k' v'] m IH]; simpl; [done |].
  destruct (String.eqb k' k) eqn:E; simpl.
  - apply String.eqb_eq in E. by subst.
  - rewrite IH. by destruct (JSMap.get k m).
Qed.

Lemma keys_delete k m :
  keys_of (JSMap.delete k m) = filter (λ x, x ≠ k) (keys_of m).
Proof.
  unfold keys_of, JSMap.delete. induction m as [|[k' v'] m IH]; [done |].
  simpl. rewrite !filter_cons. simpl.
  destruct (decide (k' ≠ k)); simpl; by rewrite IH.
Qed.

Lemma unique_set k v m : unique_keys m → unique_keys (JSMap.set k v m).
Proof.
  unfold unique_keys. intros Hnd. rewrite keys_set.
  destruct (JSMap.has k m) eqn:E; [done |].
  apply NoDup_app. split; [done |]. split; [| apply NoDup_singleton].
  intros x Hx Hk. apply list_elem_of_singleton in Hk. subst x.
  apply has_keys in Hx. congruence.
Qed.

Lemma unique_delete k m : unique_keys m → unique_keys (JSMap.delete k m).
Proof. unfold unique_keys. rewrite keys_delete. apply NoDup_filter. Qed.

Lemma length_delete k m :
  unique_keys m → k ∈ keys_of m → S (length (JSMap.delete k m)) = length m.
Proof.
  unfold unique_keys, keys_of, JSMap.delete. induction m as [|[k' v'] m IH]; simpl.
  - intros _ H. by apply elem_of_nil in H.
  - intros Hnd Hin. apply NoDup_cons in Hnd as [Hk' Hnd].
    rewrite filter_cons. simpl. case_decide as Hne; simpl.
    + apply elem_of_cons in Hin as [-> | Hin]; [done |]. by rewrite IH.
    + subst k'. f_equal.
      assert (Habs : JSMap.get k m = None) by by apply get_None_keys.
      pose proof (JSMapFacts.delete_absent _ _ Habs) as Hd.
      unfold JSMap.delete in Hd. by rewrite Hd.
Qed.

Lemma length_delete_le k m : (length (JSMap.delete k m) ≤ length m)%nat.
Proof. unfold JSMap.delete. apply length_filter. Qed.

Lemma length_set k v m :
  length (JSMap.set k v m) = if JSMap.has k m then length m else S (length m).
Proof.
  unfold JSMap.has. induction m as [|[k' v'] m IH]; simpl; [done |].
  destruct (String.eqb k' k) eqn:E; simpl; [done |].
  rewrite IH. by destruct (JSMap.get k m).
Qed.

(** Filtering a map with unique keys keeps the entry of a key or drops
    it, and shows no other entry under that key. *)
Lemma get_filter (P : string * V → bool) k m :
  unique_keys m →
  JSMap.get k (List.filter P m)
  = match JSMap.get k m with
    | Some v => if P (k, v) then Some v else None
    | None => None
    end.
Proof.
  unfold unique_keys, keys_of. induction m as [|[k' v'] m IH]; simpl; [done |].
  intros Hnd. apply NoDup_cons in Hnd as [Hk' Hnd].
  destruct (String.eqb k' k) eqn:E.
  - apply String.eqb_eq in E. subst k'.
    destruct (P (k, v')) eqn:HP; simpl; [by rewrite String.eqb_refl |].
    rewrite (IH Hnd).
    assert (Habs : JSMap.get k m = None) by by apply get_None_keys.
    by rewrite Habs.
  - destruct (P (k', v')); simpl; [rewrite E |]; by apply IH.
Qed.

Lemma get_elem k v m : JSMap.get k m = Some v → (k, v) ∈ m.
Proof.
  induction m as [|[k' v'] m IH]; simpl; [done |].
  destruct (String.eqb k' k) eqn:E.
  - apply String.eqb_eq in E. subst k'. intros [= ->]. apply elem_of_cons. by left.
  - intros H. apply elem_of_cons. right. by apply IH.
Qed.

Lemma elem_get k v m : unique_keys m → (k, v) ∈ m → JSMap.get k m = Some v.
Proof.
  unfold unique_keys, keys_of. induction m as [|[k' v'] m IH]; simpl.
  - intros _ H. by apply elem_of_nil in H.
  - intros Hnd Hin. apply NoDup_cons in Hnd as [Hk' Hnd].
    apply elem_of_cons in Hin as [[= -> ->] | Hin]; [by rewrite String.eqb_refl |].
    destruct (String.eqb k' k) eqn:E; [| by apply IH].
    apply String.eqb_eq in E. subst k'. exfalso. apply Hk'.
    apply (list_elem_of_fmap_2 fst) in Hin. done.
Qed.

End WithValue.

End KeyFacts.

Module CacheManagerFacts.

Import CacheManager Shape KeyFacts JSMapFacts.

Section WithData.
Context {D : Type}.
Implicit Types (m : Manager D) (key : string).

Lemma aligned_delete key m : aligned m → aligned (delete key m).2.
Proof.
  intros [Hk Hu]. split; simpl.
  - by rewrite !keys_delete, Hk.
  - by apply unique_delete.
Qed.

Lemma aligned_evictOldest now m : aligned m → aligned (evictOldest now m).
Proof.
  intros Hal. unfold evictOldest.
  destruct (JSMap.size (accessTimes m) =? 0); [done |].
  destruct (oldest now (accessTimes m)).1 as [k|]; [| done].
  destruct (truthy_string k); [by apply aligned_delete | done].
Qed.

Lemma aligned_set now key (d : D) ttl m : aligned m → aligned (set now key d ttl m).
Proof.
  intros Hal. unfold set.
  set (m1 := if maxSize m <=? JSMap.size (cache m) then evictOldest now m else m).
  assert (Hal1 : aligned m1).
  { subst m1. destruct (maxSize m <=? JSMap.size (cache m)); [| done].
    by apply aligned_evictOldest. }
  destruct Hal1 as [Hk Hu]. split; simpl.
  - rewrite !keys_set. unfold JSMap.has at 1 2.
    assert (Hsame : JSMap.get key (cache m1) = None ↔ JSMap.get key (accessTimes m1) = None).
    { by rewrite !get_None_keys, Hk. }
    destruct (JSMap.get key (cache m1)), (JSMap.get key (accessTimes m1));
      try (by rewrite Hk); exfalso; naive_solver.
  - by apply unique_set.
Qed.

Lemma aligned_touch now key m :
  aligned m → JSMap.get key (cache m) ≠ None →
  aligned (with_maps m (cache m) (JSMap.set key now (accessTimes m))).
Proof.
  intros [Hk Hu] Hin. split; simpl; [| done].
  rewrite keys_set.
  assert (Hhas : JSMap.has key (accessTimes m) = true).
  { apply has_keys. rewrite <- Hk. apply has_keys. unfold JSMap.has.
    by destruct (JSMap.get key (cache m)). }
  by rewrite Hhas.
Qed.

Lemma aligned_get now key m : aligned m → aligned (get now key m).2.
Proof.
  intros Hal. unfold get. destruct (JSMap.get key (cache m)) as [e|] eqn:E; [| done].
  destruct (expiresAt e <? now); [by apply aligned_delete |].
  apply aligned_touch; [done | by rewrite E].
Qed.

Lemma aligned_getWithMetadata now key m : aligned m → aligned (getWithMetadata now key m).2.
Proof.
  intros Hal. unfold getWithMetadata.
  destruct (JSMap.get key (cache m)) as [e|]; [| done].
  destruct (expiresAt e <? now); [by apply aligned_delete | done].
Qed.

Lemma aligned_deletes (ks : list string) m :
  aligned m → aligned (fold_left (λ acc key, (delete key acc).2) ks m).
Proof.
  revert m. induction ks as [|k ks IH]; intros m Hal; [done |].
  simpl. apply IH. by apply aligned_delete.
Qed.

Lemma aligned_call m (c : Call D) : aligned m → aligned (call m c).
Proof.
  intros Hal. destruct c; simpl.
  - by apply aligned_set.
  - by apply aligned_get.
  - by apply aligned_getWithMetadata.
  - by apply aligned_delete.
  - split; [done | apply NoDup_nil_2].
  - by apply aligned_deletes.
Qed.

(** X6: whatever calls are made on a cache manager, its two maps keep
    the same keys in the same order, none twice: every cached entry has
    its access time and every access time its entry. *)
Theorem maps_stay_aligned (ttl size interval : Z) (cs : list (Call D)) :
  let m := calls cs (new_CacheManager ttl size interval) in
  keys_of (cache m) = keys_of (accessTimes m)
  ∧ NoDup (keys_of (cache m))
  ∧ ∀ key, JSMap.get key (cache m) = None ↔ JSMap.get key (accessTimes m) = None.
Proof.
  intros m.
  assert (Hal : aligned m).
  { subst m. unfold calls.
    assert (H0 : aligned (new_CacheManager (D := D) ttl size interval))
      by (split; [done | apply NoDup_nil_2]).
    revert H0. generalize (new_CacheManager (D := D) ttl size interval).
    induction cs as [|c cs IH]; intros m0 H0; [done |].
    simpl. apply IH. by apply aligned_call. }
  destruct Hal as [Hk Hu]. split; [done |]. split; [done |].
  intros key. by rewrite !get_None_keys, Hk.
Qed.

(** *** The sweep *)

Lemma get_after_deletes (ks : list string) key m :
  JSMap.get key (cache (fold_left (λ acc k, (delete k acc).2) ks m))
  = if decide (key ∈ ks) then None else JSMap.get key (cache m).
Proof.
  revert m. induction ks as [|k ks IH]; intros m.
  - reflexivity.
  - cbn [fold_left]. rewrite IH. cbn [delete snd cache with_maps].
    destruct (decide (key ∈ ks)) as [Hin | Hout].
    + case_decide as H; [done |]. exfalso. apply H. apply elem_of_cons. by right.
    + destruct (decide (key = k)) as [-> | Hne].
      * case_decide as H; [apply get_delete_eq |]. exfalso. apply H. apply elem_of_cons. by left.
      * case_decide as H; [| by apply get_delete_ne].
        apply elem_of_cons in H as [H | H]; done.
Qed.

Lemma swept_keys now key m :
  key ∈ map fst (List.filter (λ kv : string * Entry D, expiresAt kv.2 <? now) (cache m))
  ↔ ∃ e, (key, e) ∈ cache m ∧ expiresAt e < now.
Proof.
  rewrite list_elem_of_fmap. split.
  - intros ([k e] & -> & Hin). apply list_elem_of_In, filter_In in Hin as [Hin Hexp].
    exists e. split; [by apply list_elem_of_In | by apply Z.ltb_lt].
  - intros (e & Hin & Hexp). exists (key, e). split; [done |].
    apply list_elem_of_In, filter_In. split; [by apply list_elem_of_In | by apply Z.ltb_lt].
Qed.

(** X7: the periodic sweep is invisible to readers: with the clock at
    the value of the sweep, [get] returns for every key what it would
    have returned without the sweep; and no entry the sweep leaves
    behind has expired. *)
Theorem cleanup_is_transparent (now : Z) (key : string) (m : Manager D) :
  NoDup (keys_of (cache m)) →
  (get now key (cleanup now m)).1 = (get now key m).1
  ∧ ∀ e, JSMap.get key (cache (cleanup now m)) = Some e → now ≤ expiresAt e.
Proof.
  intros Hu. unfold cleanup.
  set (ks := map fst _).
  assert (Hks : key ∈ ks ↔ ∃ e, (key, e) ∈ cache m ∧ expiresAt e < now)
    by apply swept_keys.
  pose proof (get_after_deletes ks key m) as Hget.
  split.
  - unfold get at 1. rewrite Hget. unfold get.
    destruct (decide (key ∈ ks)) as [Hin | Hout].
    + apply Hks in Hin as (e & Hin & Hexp).
      rewrite (elem_get _ _ _ Hu Hin).
      by destruct (Z.ltb_spec (expiresAt e) now); [| lia].
    + destruct (JSMap.get key (cache m)) as [e|] eqn:E; [| done].
      destruct (Z.ltb_spec (expiresAt e) now) as [Hexp | Hok]; [| done].
      exfalso. apply Hout, Hks. exists e. split; [by apply get_elem | done].
  - intros e. rewrite Hget. destruct (decide (key ∈ ks)) as [Hin | Hout]; [done |].
    intros E. destruct (Z.le_gt_cases now (expiresAt e)) as [Hok | Hexp]; [done |].
    exfalso. apply Hout, Hks. exists e. split; [by apply get_elem | lia].
Qed.

(** X8: [getWithMetadata] and [get] agree on which keys are live and
    on the data; the remaining time-to-live it reports is not negative
    and leads to the expiry time; unlike [get], it leaves the access
    times of a live key as they are. *)
Theorem metadata_agrees_with_get (now : Z) (key : string) (m : Manager D) :
  let g := get now key m in
  let w := getWithMetadata now key m in
  (g.1 = None ↔ w.1 = None)
  ∧ (∀ md, w.1 = Some md →
           g.1 = Some (md_data md)
           ∧ 0 ≤ md_ttl md
           ∧ md_expiresAt md = now + md_ttl md
           ∧ md_lastAccessed md = JSMap.get key (accessTimes m)
           ∧ accessTimes w.2 = accessTimes m
           ∧ JSMap.get key (accessTimes g.2) = Some now)
  ∧ cache w.2 = cache g.2.
Proof.
  unfold get, getWithMetadata.
  destruct (JSMap.get key (cache m)) as [e|]; [| by repeat split].
  destruct (Z.ltb_spec (expiresAt e) now) as [Hexp | Hok]; [by repeat split |].
  simpl. split; [done |]. split; [| done].
  intros md [= <-]. simpl. rewrite get_set_eq. repeat split; try done; lia.
Qed.

(** X9: [delete] reports whether the key was cached; afterwards the key
    reads as absent and every other key reads as before. *)
Theorem delete_forgets_one_key (now : Z) (key other : string) (m : Manager D) :
  let r := delete key m in
  r.1 = JSMap.has key (cache m)
  ∧ (get now key r.2).1 = None
  ∧ (other ≠ key → (get now other r.2).1 = (get now other m).1).
Proof.
  simpl. split; [done |]. split.
  - unfold get. simpl. by rewrite get_delete_eq.
  - intros Hne. unfold get. simpl. rewrite get_delete_ne by done.
    destruct (JSMap.get other (cache m)) as [e|]; [| done].
    by destruct (expiresAt e <? now).
Qed.

(** *** Capacity *)

Lemma oldest_from_some (times : JSMap.t Z) (k0 : string) (t0 : Z) :
  ∃ k, (fold_left (λ (acc : option string * Z) (kv : string * Z),
                     if kv.2 <? acc.2 then (Some kv.1, kv.2) else acc)
                  times (Some k0, t0)).1 = Some k
       ∧ (k = k0 ∨ k ∈ keys_of times).
Proof.
  revert k0 t0. induction times as [|[k1 t1] times IH]; intros k0 t0; simpl.
  - exists k0. by split; [| left].
  - destruct (t1 <? t0).
    + destruct (IH k1 t1) as (k & Hk & Hor). exists k. split; [done |].
      right. apply elem_of_cons. destruct Hor; auto.
    + destruct (IH k0 t0) as (k & Hk & Hor). exists k. split; [done |].
      destruct Hor; [by left |]. right. apply elem_of_cons. by right.
Qed.

Lemma oldest_found now (times : JSMap.t Z) :
  times ≠ [] →
  (∀ k t, (k, t) ∈ times → t < now) →
  ∃ k, (oldest now times).1 = Some k ∧ k ∈ keys_of times.
Proof.
  destruct times as [|[k1 t1] times]; [done |]. intros _ Hbefore.
  unfold oldest. simpl.
  assert (Hlt : (t1 <? now) = true).
  { apply Z.ltb_lt. apply (Hbefore k1). apply elem_of_cons. by left. }
  rewrite Hlt.
  destruct (oldest_from_some times k1 t1) as (k & -> & Hk). exists k.
  split; [done |]. apply elem_of_cons. destruct Hk; auto.
Qed.

Lemma elem_delete {V} (k0 : string) (kv : string * V) (l : JSMap.t V) :
  kv ∈ JSMap.delete k0 l → kv ∈ l.
Proof. unfold JSMap.delete. rewrite list_elem_of_filter. tauto. Qed.

Lemma elem_set {V} (k0 : string) (v0 : V) (kv : string * V) (l : JSMap.t V) :
  kv ∈ JSMap.set k0 v0 l → kv = (k0, v0) ∨ kv ∈ l.
Proof.
  induction l as [|[k' v'] l IH]; simpl.
  - intros H. apply list_elem_of_singleton in H. by left.
  - destruct (String.eqb k' k0).
    + intros H. apply elem_of_cons in H as [-> | H]; [by left |].
      right. apply elem_of_cons. by right.
    + intros H. apply elem_of_cons in H as [-> | H].
      * right. apply elem_of_cons. by left.
      * destruct (IH H) as [-> | Hin]; [by left |]. right. apply elem_of_cons. by right.
Qed.

Lemma evictOldest_maxSize now m : maxSize (evictOldest now m) = maxSize m.
Proof.
  unfold evictOldest. destruct (JSMap.size (accessTimes m) =? 0); [done |].
  destruct (oldest now (accessTimes m)).1 as [k|]; [| done].
  by destruct (truthy_string k).
Qed.

Lemma set_maxSize now key (d : D) ttl m : maxSize (set now key d ttl m) = maxSize m.
Proof.
  unfold set. simpl. destruct (maxSize m <=? JSMap.size (cache m)); [| done].
  apply evictOldest_maxSize.
Qed.

Lemma deletes_maxSize (ks : list string) m :
  maxSize (fold_left (λ acc key, (delete key acc).2) ks m) = maxSize m.
Proof.
  revert m. induction ks as [|k ks IH]; intros m; [done |]. simpl. by rewrite IH.
Qed.

Lemma sizes_agree m : aligned m → length (accessTimes m) = length (cache m).
Proof.
  intros [Hk _]. unfold keys_of in Hk.
  by rewrite <- (length_map fst (cache m)), Hk, length_map.
Qed.

Lemma within_delete key m last : within m last → within (delete key m).2 last.
Proof.
  intros (Hal & Hsz & Hacc). split; [by apply aligned_delete |]. split.
  - simpl. unfold JSMap.size in *. pose proof (length_delete_le key (cache m)). lia.
  - intros k t Hin. apply (Hacc k t). by apply elem_delete in Hin.
Qed.

Lemma within_later m T now :
  within m T → match T with Some t => t < now | None => True end → within m (Some now).
Proof.
  intros (Hal & Hsz & Hacc) Hlt. split; [done |]. split; [done |].
  intros k t Hin. destruct (Hacc k t Hin) as [Hk Ht]. split; [done |].
  destruct T as [T|]; [lia | done].
Qed.

Lemma within_deletes (ks : list string) m last :
  within m last → within (fold_left (λ acc key, (delete key acc).2) ks m) last.
Proof.
  revert m. induction ks as [|k ks IH]; intros m H; [done |].
  simpl. apply IH. by apply within_delete.
Qed.

Lemma within_set now key (d : D) ttl m last :
  1 ≤ maxSize m →
  truthy_string key = true →
  match last with Some t => t < now | None => True end →
  within m last → within (set now key d ttl m) (Some now).
Proof.
  intros Hmax Hkey Hlt Hin.
  assert (Hal' : aligned (set now key d ttl m)) by (apply aligned_set; apply Hin).
  split; [done |].
  destruct Hin as (Hal & Hsz & Hacc). unfold set in *.
  set (m1 := if maxSize m <=? JSMap.size (cache m) then evictOldest now m else m) in *.
  assert (H1 : JSMap.size (cache m1) + 1 ≤ maxSize m
               ∧ ∀ kv, kv ∈ accessTimes m1 → kv ∈ accessTimes m).
  { subst m1. destruct (Z.leb_spec (maxSize m) (JSMap.size (cache m))) as [Hfull | Hroom];
      [| split; [lia | done]].
    unfold evictOldest. pose proof (sizes_agree m Hal) as Hlen.
    unfold JSMap.size in *.
    destruct (Z.eqb_spec (Z.of_nat (length (accessTimes m))) 0) as [H0 | _]; [lia |].
    destruct (oldest_found now (accessTimes m)) as (k0 & -> & Hk0).
    { intros E. rewrite E in Hlen. simpl in Hlen. lia. }
    { intros k t Hkt. destruct (Hacc k t Hkt) as [_ Ht].
      destruct last as [T|]; [lia | done]. }
    assert (Htruthy : truthy_string k0 = true).
    { unfold keys_of in Hk0. apply list_elem_of_fmap in Hk0 as ([k t] & -> & Hkt).
      by destruct (Hacc k t Hkt). }
    rewrite Htruthy. simpl. split.
    - destruct Hal as [Hk Hu]. rewrite <- Hk in Hk0.
      pose proof (length_delete k0 (cache m) Hu Hk0). lia.
    - intros kv. apply elem_delete. }
  destruct H1 as [Hsz1 Hsub].
  split; simpl.
  - unfold JSMap.size in *. rewrite length_set.
    assert (maxSize m1 = maxSize m) as ->.
    { subst m1. destruct (maxSize m <=? _); [apply evictOldest_maxSize | done]. }
    destruct (JSMap.has key (cache m1)); lia.
  - intros k t Hkt. apply elem_set in Hkt as [[= -> ->] | Hkt]; [split; [done | lia] |].
    destruct (Hacc k t (Hsub _ Hkt)) as [Hk Ht]. split; [done |].
    destruct last as [T|]; [lia | done].
Qed.

Lemma within_get now key m last :
  match last with Some t => t < now | None => True end →
  within m last → within (get now key m).2 (Some now).
Proof.
  intros Hlt Hin. unfold get.
  destruct (JSMap.get key (cache m)) as [e|] eqn:E; [| by apply (within_later m last)].
  destruct (expiresAt e <? now).
  { apply (within_later _ last); [by apply within_delete | done]. }
  destruct Hin as (Hal & Hsz & Hacc).
  split; [apply aligned_touch; [done | by rewrite E] |]. split; [done |].
  simpl. intros k t Hkt. apply elem_set in Hkt as [[= -> ->] | Hkt].
  - split; [| lia].
    assert (Hk : key ∈ keys_of (accessTimes m)).
    { destruct Hal as [<- _]. apply has_keys. unfold JSMap.has. by rewrite E. }
    unfold keys_of in Hk. apply list_elem_of_fmap in Hk as ([k t] & -> & Hkt).
    by destruct (Hacc k t Hkt).
  - destruct (Hacc k t Hkt) as [Hk Ht]. split; [done |].
    destruct last as [T|]; [lia | done].
Qed.

Lemma within_run (cs : list (Call D)) m last :
  1 ≤ maxSize m →
  clocks_advance last cs →
  (∀ c key, c ∈ cs → stored_key c = Some key → truthy_string key = true) →
  within m last →
  ∃ last', within (calls cs m) last' ∧ maxSize (calls cs m) = maxSize m.
Proof.
  revert m last. induction cs as [|c cs IH]; intros m last Hmax Hclk Hkeys Hin.
  { by exists last. }
  assert (Hkeys' : ∀ c' key, c' ∈ cs → stored_key c' = Some key → truthy_string key = true).
  { intros c' key Hc'. apply Hkeys. apply elem_of_cons. by right. }
  assert (Hstep : ∃ last1, within (call m c) last1 ∧ clocks_advance last1 cs
                           ∧ maxSize (call m c) = maxSize m).
  { destruct c as [now key d ttl | now key | now key | key | | now]; simpl in Hclk.
    - destruct Hclk as [Hlt Hclk]. exists (Some now). split; [| split; [done |]].
      + apply (within_set now key d ttl m last); try done.
        apply (Hkeys (CallSet now key d ttl)); [apply elem_of_cons; by left | done].
      + apply set_maxSize.
    - destruct Hclk as [Hlt Hclk]. exists (Some now). split; [| split; [done |]].
      + by apply (within_get now key m last).
      + simpl. unfold get. destruct (JSMap.get key (cache m)) as [e|]; [| done].
        by destruct (expiresAt e <? now).
    - destruct Hclk as [Hlt Hclk]. exists (Some now). split; [| split; [done |]].
      + simpl. unfold getWithMetadata.
        destruct (JSMap.get key (cache m)) as [e|]; [| by apply (within_later m last)].
        destruct (expiresAt e <? now); [| by apply (within_later m last)].
        apply (within_later _ last); [by apply within_delete | done].
      + simpl. unfold getWithMetadata. destruct (JSMap.get key (cache m)) as [e|]; [| done].
        by destruct (expiresAt e <? now).
    - exists last. split; [by apply within_delete | done].
    - exists last. split; [| done]. split; [split; [done | apply NoDup_nil_2] |].
      split; [simpl; unfold JSMap.size; simpl; lia |].
      intros k t H. by apply elem_of_nil in H.
    - destruct Hclk as [Hlt Hclk]. exists (Some now). split; [| split; [done |]].
      + apply (within_later _ last); [by apply within_deletes | done].
      + apply deletes_maxSize. }
  destruct Hstep as (last1 & Hin1 & Hclk1 & Hmax1).
  destruct (IH (call m c) last1) as (last' & Hfin & Hmaxfin); try done; [lia |].
  exists last'. simpl. split; [done | congruence].
Qed.

(** X10: a cache manager built with capacity [size >= 1], used with
    non-empty keys and a clock that advances from one call to the next,
    never holds more than [size] entries. *)
Theorem capacity_respected (ttl size interval : Z) (cs : list (Call D)) :
  1 ≤ size →
  clocks_advance None cs →
  (∀ c key, c ∈ cs → stored_key c = Some key → truthy_string key = true) →
  JSMap.size (cache (calls cs (new_CacheManager ttl size interval))) ≤ size.
Proof.
  intros Hsize Hclk Hkeys.
  destruct (within_run cs (new_CacheManager ttl size interval) None) as (last & Hin & Hmax);
    try done.
  - split; [split; [done | apply NoDup_nil_2] |]. split; [simpl; unfold JSMap.size; simpl; lia |].
    intros k t H. by apply elem_of_nil in H.
  - destruct Hin as (_ & Hsz & _). simpl in Hmax. lia.
Qed.

End WithData.

Lemma cleanup_is_transparent_witness :
  (get 100 "a" (cleanup 100 (calls [CallSet 10 "a" 1%nat (Some 5); CallSet 20 "b" 2%nat None]
                                   (new_CacheManager 300000 2 60000)))).1
  = (get 100 "a" (calls [CallSet 10 "a" 1%nat (Some 5); CallSet 20 "b" 2%nat None]
                        (new_CacheManager 300000 2 60000))).1.
Proof.
  apply (cleanup_is_transparent 100 "a").
  apply (bool_decide_unpack _). vm_compute. exact I.
Defined.

Lemma delete_forgets_witness :
  (get 30 "b" (delete "a" (calls [CallSet 10 "a" 1%nat None; CallSet 20 "b" 2%nat None]
                                 (new_CacheManager 300000 2 60000))).2).1
  = Some 2%nat.
Proof.
  destruct (delete_forgets_one_key 30 "a" "b"
              (calls [CallSet 10 "a" 1%nat None; CallSet 20 "b" 2%nat None]
                     (new_CacheManager 300000 2 60000))) as (_ & _ & H).
  rewrite H; [reflexivity | discriminate].
Defined.

Lemma capacity_respected_witness :
  JSMap.size (cache (calls [CallSet 10 "a" 1%nat None; CallSet 20 "b" 2%nat None;
                            CallGet 30 "a"; CallSet 40 "c" 3%nat None]
                           (new_CacheManager 300000 2 60000))) ≤ 2.
Proof.
  apply (capacity_respected 300000 2 60000).
  - lia.
  - simpl. lia.
  - intros c key Hc Hk.
    repeat (apply elem_of_cons in Hc as [-> | Hc];
            [simpl in Hk; first [discriminate Hk | by injection Hk as <-] |]).
    by apply elem_of_nil in Hc.
Defined.

(** The entry used least recently makes room: after the fourth call the
    cache holds ["a"] and ["c"]. *)
Example eviction_order :
  keys (calls [CallSet 10 "a" 1%nat None; CallSet 20 "b" 2%nat None;
               CallGet 30 "a"; CallSet 40 "c" 3%nat None]
              (new_CacheManager 300000 2 60000))
  = ["a"; "c"].
Proof. reflexivity. Qed.

(** Without an advancing clock nothing is evicted: three entries stored
    at one clock value all stay, in a cache of capacity two. *)
Example no_eviction_within_one_tick :
  keys (calls [CallSet 10 "a" 1%nat None; CallSet 10 "b" 2%nat None;
               CallSet 10 "c" 3%nat None]
              (new_CacheManager 300000 2 60000))
  = ["a"; "b"; "c"].
Proof. reflexivity. Qed.

End CacheManagerFacts.

(** ** The token data service: retries, sweeps and derived lookups *)

Module FetchFacts.

Import TokenDataService Traces CacheSamples Shape KeyFacts JSMapFacts.

(** The retry loop reads nothing of the service but its two retry
    options. *)
Lemma fetchLoop_config (s s' : Service) k upstream remaining attempt lastError :
  maxRetries s' = maxRetries s → retryDelay s' = retryDelay s →
  fetchLoop s' k upstream remaining attempt lastError
  = fetchLoop s k upstream remaining attempt lastError.
Proof.
  intros Hm Hd. revert attempt lastError.
  induction remaining as [|remaining IH]; intros attempt lastError; simpl; [done |].
  destruct (attempt_result (upstream attempt)); [done |]. by rewrite IH, Hm, Hd.
Qed.

Lemma fetchTokenData_config (s s' : Service) k upstream :
  maxRetries s' = maxRetries s → retryDelay s' = retryDelay s →
  fetchTokenData s' k upstream = fetchTokenData s k upstream.
Proof.
  intros Hm Hd. unfold fetchTokenData. rewrite Hm. by apply fetchLoop_config.
Qed.

Lemma fetchLoop_success s k upstream remaining attempt lastError (i : nat) d :
  (attempt ≤ i < attempt + remaining)%nat →
  (attempt + remaining ≤ Z.to_nat (maxRetries s))%nat →
  attempt_result (upstream i) = inl d →
  (∀ j, (attempt ≤ j < i)%nat → ∃ e, attempt_result (upstream j) = inr e) →
  let r := fetchLoop s k upstream remaining attempt lastError in
  r.1 = inl d
  ∧ requests r.2 = replicate (S (i - attempt)) k
  ∧ pauses r.2 = backoff s attempt (i - attempt).
Proof.
  revert attempt lastError.
  induction remaining as [|remaining IH]; intros attempt lastError Hi Hmax Hok Hfail;
    [lia |].
  simpl. destruct (decide (attempt = i)) as [-> | Hne].
  - rewrite Hok. simpl. replace (i - i)%nat with 0%nat by lia. done.
  - destruct (Hfail attempt ltac:(lia)) as [e He]. rewrite He.
    destruct (IH (S attempt) (Some e)) as (Hr & Hreq & Hp); try done; try lia.
    { intros j Hj. apply Hfail. lia. }
    cbv zeta in Hr, Hreq, Hp |- *. unfold requests, pauses in *. simpl.
    assert (Hpause : (Z.of_nat attempt <? maxRetries s - 1) = true) by (apply Z.ltb_lt; lia).
    rewrite Hpause. simpl. rewrite Hr, Hreq, Hp.
    replace (i - attempt)%nat with (S (i - S attempt)) by lia. done.
Qed.

Lemma fetchLoop_failure s k upstream remaining attempt lastError :
  (attempt + remaining = Z.to_nat (maxRetries s))%nat →
  (∀ j, (attempt ≤ j < attempt + remaining)%nat → ∃ e, attempt_result (upstream j) = inr e) →
  let r := fetchLoop s k upstream remaining attempt lastError in
  (∃ e, r.1 = inr e ∧ (remaining = 0%nat → e = lastError)
        ∧ (remaining ≠ 0%nat →
           ∃ err, e = Some err
                  ∧ attempt_result (upstream (attempt + remaining - 1)%nat) = inr err))
  ∧ requests r.2 = replicate remaining k
  ∧ pauses r.2 = backoff s attempt (remaining - 1).
Proof.
  revert attempt lastError.
  induction remaining as [|remaining IH]; intros attempt lastError Hmax Hfail.
  { simpl. split; [| done]. exists lastError. done. }
  cbn [fetchLoop]. destruct (Hfail attempt ltac:(lia)) as [e He]. rewrite He.
  destruct (IH (S attempt) (Some e)) as ((e' & Hr & H0 & Hlast) & Hreq & Hp); try lia.
  { intros j Hj. apply Hfail. lia. }
  cbv zeta in Hr, Hreq, Hp |- *. unfold requests, pauses in *.
  destruct remaining as [|remaining].
  - assert (Hpause : (Z.of_nat attempt <? maxRetries s - 1) = false)
      by (apply Z.ltb_ge; lia).
    rewrite Hpause. simpl in *. split; [| done].
    exists (Some e). split; [done |]. split; [done |]. intros _. exists e. split; [done |].
    by replace (attempt + 1 - 1)%nat with attempt by lia.
  - assert (Hpause : (Z.of_nat attempt <? maxRetries s - 1) = true)
      by (apply Z.ltb_lt; lia).
    rewrite Hpause. cbn [fst snd app flat_map]. rewrite Hr, Hreq, Hp.
    split; [| split; [done |]].
    + exists e'. split; [done |]. split; [done |]. intros _.
      destruct (Hlast ltac:(done)) as (err & -> & Herr). exists err. split; [done |].
      by replace (attempt + S (S remaining) - 1)%nat with (S attempt + S remaining - 1)%nat
        by lia.
    + simpl. by replace (remaining - 0)%nat with remaining by lia.
Qed.

(** X11: when attempt [i] is the first that succeeds, within the allowed
    number of attempts, [fetchTokenData] returns the record of that
    attempt after exactly [i + 1] requests, having paused
    [retryDelay * 2 ^ j] after each failed attempt [j]. *)
Theorem fetch_stops_at_first_success (s : Service) (k : string) (upstream : nat → Reply)
    (i : nat) (d : TokenData) :
  (i < Z.to_nat (maxRetries s))%nat →
  attempt_result (upstream i) = inl d →
  (∀ j, (j < i)%nat → ∃ e, attempt_result (upstream j) = inr e) →
  let r := fetchTokenData s k upstream in
  r.1 = inl d
  ∧ requests r.2 = replicate (S i) k
  ∧ pauses r.2 = backoff s 0 i.
Proof.
  intros Hi Hok Hfail. unfold fetchTokenData.
  pose proof (fetchLoop_success s k upstream (Z.to_nat (maxRetries s)) 0 None i d) as H.
  replace (i - 0)%nat with i in H by lia. apply H; try done; try lia.
  intros j Hj. apply Hfail. lia.
Qed.

Lemma fetch_stops_witness :
  (fetchTokenData fresh_service usdc_mint
     (λ attempt, if (attempt <? 1)%nat then upstream_down attempt else upstream_up attempt)).1
  = inl usdc.
Proof.
  apply (fetch_stops_at_first_success fresh_service usdc_mint
           (λ attempt, if (attempt <? 1)%nat then upstream_down attempt
                       else upstream_up attempt) 1 usdc).
  - simpl. lia.
  - reflexivity.
  - intros j Hj. exists NetworkError. by replace j with 0%nat by lia.
Defined.

(** X12: when every allowed attempt fails, [fetchTokenData] gives up
    with the error of the last attempt after exactly [maxRetries]
    requests, having paused after every attempt but the last. *)
Theorem fetch_gives_up_after_max_retries (s : Service) (k : string)
    (upstream : nat → Reply) :
  0 < maxRetries s →
  (∀ j, (j < Z.to_nat (maxRetries s))%nat → ∃ e, attempt_result (upstream j) = inr e) →
  let r := fetchTokenData s k upstream in
  (∃ err, r.1 = inr (Some err)
          ∧ attempt_result (upstream (Z.to_nat (maxRetries s) - 1)%nat) = inr err)
  ∧ requests r.2 = replicate (Z.to_nat (maxRetries s)) k
  ∧ pauses r.2 = backoff s 0 (Z.to_nat (maxRetries s) - 1).
Proof.
  intros Hpos Hfail. unfold fetchTokenData.
  destruct (fetchLoop_failure s k upstream (Z.to_nat (maxRetries s)) 0 None)
    as ((e & Hr & _ & Hlast) & Hreq & Hp); try done.
  { intros j Hj. apply Hfail. lia. }
  split; [| done].
  destruct (Hlast ltac:(lia)) as (err & -> & Herr). simpl in Herr. by exists err.
Qed.

Lemma fetch_gives_up_witness :
  requests (fetchTokenData fresh_service usdc_mint upstream_down).2
  = [usdc_mint; usdc_mint; usdc_mint].
Proof.
  apply (fetch_gives_up_after_max_retries fresh_service usdc_mint upstream_down).
  - reflexivity.
  - intros j _. by exists NetworkError.
Defined.

End FetchFacts.

Module ServiceFacts.

Import TokenDataService Traces CacheSamples Shape KeyFacts JSMapFacts FetchFacts.

(** A record the upstream gave always carries a price. *)
Lemma attempt_priced (r : Reply) (d : TokenData) :
  attempt_result r = inl d → ∃ p, priceUsd d = Some p.
Proof.
  unfold attempt_result. destruct (outcome r) as [|st body]; [done |].
  destruct (negb (response_ok st)); [done |]. destruct body as [b|]; [| done].
  destruct (success b); [| done]. destruct (data b) as [raw|]; [| done].
  intros [= <-]. by eexists.
Qed.

Lemma fetchLoop_priced s k upstream remaining attempt lastError d :
  (fetchLoop s k upstream remaining attempt lastError).1 = inl d →
  ∃ p, priceUsd d = Some p.
Proof.
  revert attempt lastError. induction remaining as [|remaining IH];
    intros attempt lastError; simpl; [done |].
  destruct (attempt_result (upstream attempt)) as [d'|e] eqn:E; simpl.
  - intros [= <-]. by apply (attempt_priced _ _ E).
  - apply IH.
Qed.

(** A call whose fetch succeeds: what it returns and what it leaves. *)
Lemma fetched_state_core (now settledAt : Z) (k : string) (upstream : nat → Reply)
    (s : Service) (d : TokenData) :
  truthy_string k = true →
  (getCachedToken now k s).1 = None →
  JSMap.get k (pendingRequests s) = None →
  (fetchTokenData s k upstream).1 = inl d →
  let r := getTokenData now k upstream settledAt s in
  r.1.1 = Returned (Some d)
  ∧ r.1.2 = with_pending (cacheTokenData settledAt k (Some d) (getCachedToken now k s).2)
              (pendingRequests s) (S (nextPromise s)).
Proof.
  intros Hk Hmiss Hpend Hok r. subst r. unfold getTokenData.
  rewrite (MetadataFacts.call_starts_fetch now k s Hk Hmiss Hpend).
  destruct (MetadataFacts.getCachedToken_miss now k s Hmiss)
    as (_ & _ & _ & _ & Hp & Hn & Hmax & Hdelay & _).
  set (s0 := (getCachedToken now k s).2) in *.
  set (s1 := with_pending _ _ _).
  rewrite (fetchTokenData_config s s1) by (subst s1; simpl; congruence).
  cbv zeta. rewrite Hok. unfold getTokenData_settled. simpl. split; [done |].
  subst s1. unfold cacheTokenData, cacheTokenLogo.
  destruct (priceUsd d), (logoURI d) as [l|]; try destruct (truthy_string l); simpl;
    rewrite (delete_set_absent _ _ _ Hpend); rewrite ?Hn; reflexivity.
Qed.

Lemma fetched_state (now settledAt : Z) (k : string) (upstream : nat → Reply)
    (s : Service) (d : TokenData) :
  truthy_string k = true →
  (getCachedToken now k s).1 = None →
  JSMap.get k (pendingRequests s) = None →
  (fetchTokenData s k upstream).1 = inl d →
  let r := getTokenData now k upstream settledAt s in
  r.1.1 = Returned (Some d)
  ∧ cache r.1.2
    = JSMap.set k {| ce_data := d; ce_timestamp := settledAt |}
                (cache (getCachedToken now k s).2)
  ∧ cacheTimeout r.1.2 = cacheTimeout s
  ∧ (∀ p, priceUsd d = Some p →
          priceCache r.1.2
          = JSMap.set k {| pe_price := p; pe_timestamp := settledAt |} (priceCache s)).
Proof.
  intros Hk Hmiss Hpend Hok r.
  destruct (fetched_state_core now settledAt k upstream s d Hk Hmiss Hpend Hok) as [H1 H2].
  fold r in H1, H2.
  destruct (MetadataFacts.getCachedToken_miss now k s Hmiss)
    as (_ & _ & Hpc & _ & _ & _ & _ & _ & Hto).
  split; [done |]. rewrite H2.
  change (cache (with_pending ?x _ _)) with (cache x).
  change (cacheTimeout (with_pending ?x _ _)) with (cacheTimeout x).
  change (priceCache (with_pending ?x _ _)) with (priceCache x).
  rewrite CacheFacts.cacheTokenData_cache, CacheFacts.cacheTokenData_cacheTimeout.
  split; [done |]. split; [done |]. intros p Hp.
  by rewrite (CacheFacts.cacheTokenData_priceCache _ _ _ _ _ Hp), Hpc.
Qed.

(** A call that finds a live record answers from the cache. *)
Lemma call_hit (later : Z) (k : string) (c : CacheEntry) (s : Service) :
  truthy_string k = true →
  JSMap.get k (cache s) = Some c →
  later - ce_timestamp c ≤ cacheTimeout s →
  getTokenData_call later k s = (Resolved (Some (ce_data c)), s, []).
Proof.
  intros Hk Hc Hlive. unfold getTokenData_call, getCachedToken. rewrite Hk, Hc.
  cbn [negb]. destruct (Z.ltb_spec (cacheTimeout s) (later - ce_timestamp c)); [lia | done].
Qed.

(** X13: after a call whose fetch succeeded, every call for the same
    mint made within [cacheTimeout] of the moment the record was cached
    is answered from the cache: the same record, no request, no change
    of state. *)
Theorem fetched_record_is_reused (now settledAt later : Z) (k : string)
    (upstream : nat → Reply) (s : Service) (d : TokenData) :
  truthy_string k = true →
  (getCachedToken now k s).1 = None →
  JSMap.get k (pendingRequests s) = None →
  (fetchTokenData s k upstream).1 = inl d →
  later - settledAt ≤ cacheTimeout s →
  let r := getTokenData now k upstream settledAt s in
  r.1.1 = Returned (Some d)
  ∧ getTokenData_call later k r.1.2 = (Resolved (Some d), r.1.2, []).
Proof.
  intros Hk Hmiss Hpend Hok Hfresh r.
  destruct (fetched_state now settledAt k upstream s d Hk Hmiss Hpend Hok)
    as (Hret & Hcache & Hto & _).
  subst r. split; [done |].
  apply (call_hit later k {| ce_data := d; ce_timestamp := settledAt |}); [done | |].
  - rewrite Hcache. apply get_set_eq.
  - rewrite Hto. done.
Qed.

Lemma fetched_record_witness :
  getTokenData_call 200000 usdc_mint
    (getTokenData 2000 usdc_mint upstream_up 2500 fresh_service).1.2
  = (Resolved (Some usdc),
     (getTokenData 2000 usdc_mint upstream_up 2500 fresh_service).1.2, []).
Proof.
  apply (fetched_record_is_reused 2000 2500 200000 usdc_mint upstream_up fresh_service usdc);
    try reflexivity.
  simpl. lia.
Defined.

(** X14: after a call whose fetch succeeded, [getTokenPrice] for the
    same mint gives the price of that record without any request for as
    long as the record itself is cached: from the price tier during the
    first minute, from the full record after that. *)
Theorem price_served_while_record_cached (now settledAt later settledLater : Z)
    (k : string) (upstream other : nat → Reply) (s : Service) (d : TokenData) :
  truthy_string k = true →
  (getCachedToken now k s).1 = None →
  JSMap.get k (pendingRequests s) = None →
  (fetchTokenData s k upstream).1 = inl d →
  later - settledAt ≤ cacheTimeout s →
  let r := getTokenData now k upstream settledAt s in
  let q := getTokenPrice later k other settledLater r.1.2 in
  q.1.1 = priceUsd d ∧ priceUsd d ≠ None ∧ q.2 = [].
Proof.
  intros Hk Hmiss Hpend Hok Hfresh r q.
  destruct (fetchLoop_priced _ _ _ _ _ _ _ Hok) as [p Hp].
  destruct (fetched_state now settledAt k upstream s d Hk Hmiss Hpend Hok)
    as (_ & Hcache & Hto & Hpc).
  fold r in Hcache, Hto, Hpc. subst q. unfold getTokenPrice, getCachedPrice.
  assert (Hprice : JSMap.get k (priceCache r.1.2)
                   = Some {| pe_price := p; pe_timestamp := settledAt |}).
  { rewrite (Hpc p Hp). apply get_set_eq. }
  rewrite Hprice. cbn [pe_timestamp pe_price].
  destruct (Z.ltb_spec 60000 (later - settledAt)) as [Hstale | Hlive].
  - set (s2 := with_priceCache _ _).
    assert (Hcall2 : getTokenData_call later k s2 = (Resolved (Some d), s2, [])).
    { apply (call_hit later k {| ce_data := d; ce_timestamp := settledAt |}); [done | |].
      - subst s2. cbn [cache with_priceCache]. rewrite Hcache. apply get_set_eq.
      - subst s2. cbn [cacheTimeout with_priceCache]. rewrite Hto. done. }
    unfold getTokenData. rewrite Hcall2. simpl. rewrite Hp. done.
  - simpl. rewrite Hp. done.
Qed.

Lemma price_served_witness :
  (getTokenPrice 200000 usdc_mint upstream_down 200001
     (getTokenData 2000 usdc_mint upstream_up 2500 fresh_service).1.2).1.1
  = Some 1%Q.
Proof.
  apply (price_served_while_record_cached 2000 2500 200000 200001 usdc_mint
           upstream_up upstream_down fresh_service usdc); try reflexivity.
  simpl. lia.
Defined.

(** X15: the periodic sweep is invisible to readers of the three tiers:
    with the clock at the value of the sweep, each lookup returns what it
    would have returned without the sweep. *)
Theorem sweep_is_transparent (now : Z) (k : string) (s : Service) :
  NoDup (keys_of (cache s)) →
  NoDup (keys_of (priceCache s)) →
  NoDup (keys_of (logoCache s)) →
  let s' := cleanupExpiredCache now s in
  (getCachedToken now k s').1 = (getCachedToken now k s).1
  ∧ (getCachedPrice now k s').1 = (getCachedPrice now k s).1
  ∧ (getCachedLogo now k s').1 = (getCachedLogo now k s).1.
Proof.
  intros Hc Hp Hl. unfold cleanupExpiredCache, getCachedToken, getCachedPrice, getCachedLogo.
  simpl. rewrite !get_filter by done. repeat split.
  - destruct (JSMap.get k (cache s)) as [e|]; [| done]. simpl.
    by destruct (cacheTimeout s <? now - ce_timestamp e) eqn:E; simpl; rewrite ?E.
  - destruct (JSMap.get k (priceCache s)) as [e|]; [| done]. simpl.
    by destruct (60000 <? now - pe_timestamp e) eqn:E; simpl; rewrite ?E.
  - destruct (JSMap.get k (logoCache s)) as [e|]; [| done]. simpl.
    by destruct (3600000 <? now - le_timestamp e) eqn:E; simpl; rewrite ?E.
Qed.

Lemma sweep_is_transparent_witness :
  (getCachedPrice 100000 usdc_mint (cleanupExpiredCache 100000 service_with_usdc)).1 = None.
Proof.
  destruct (sweep_is_transparent 100000 usdc_mint service_with_usdc
              ltac:(apply (bool_decide_unpack _); vm_compute; exact I)
              ltac:(apply (bool_decide_unpack _); vm_compute; exact I)
              ltac:(apply (bool_decide_unpack _); vm_compute; exact I)) as (_ & H & _).
  rewrite H. reflexivity.
Defined.

End ServiceFacts.

Module BatchFacts.

Import TokenDataService Traces CacheSamples Shape KeyFacts JSMapFacts FetchFacts.

Lemma lookup_state (now : Z) (mint : string) (s : Service) :
  (getCachedToken now mint s).2 = s
  ∨ ∃ c, JSMap.get mint (cache s) = Some c
         ∧ (cacheTimeout s <? now - ce_timestamp c) = true
         ∧ (getCachedToken now mint s).2 = with_cache s (JSMap.delete mint (cache s)).
Proof.
  unfold getCachedToken. destruct (JSMap.get mint (cache s)) as [c|]; [| by left].
  destruct (cacheTimeout s <? now - ce_timestamp c) eqn:E; [| by left].
  right. by exists c.
Qed.

(** A lookup changes the answer of no later lookup made at the same
    clock value, and none of the retry options. *)
Lemma lookup_keeps_lookups (now : Z) (mint k : string) (s : Service) :
  let s1 := (getCachedToken now mint s).2 in
  (getCachedToken now k s1).1 = (getCachedToken now k s).1
  ∧ maxRetries s1 = maxRetries s ∧ retryDelay s1 = retryDelay s.
Proof.
  destruct (lookup_state now mint s) as [-> | (c & E & Hexp & ->)]; [done |].
  simpl. split; [| done]. unfold getCachedToken. simpl.
  destruct (decide (mint = k)) as [-> | Hne].
  - rewrite get_delete_eq, E. by rewrite Hexp.
  - rewrite get_delete_ne by done.
    destruct (JSMap.get k (cache s)) as [c'|]; [| done].
    by destruct (cacheTimeout s <? now - ce_timestamp c').
Qed.

Lemma first_loop (now : Z) (mints : list string)
    (acc : JSMap.t TokenData * list string * Service) :
  let r := fold_left (batch_lookup now) mints acc in
  (∀ k, hit now r.2 k = hit now acc.2 k)
  ∧ maxRetries r.2 = maxRetries acc.2 ∧ retryDelay r.2 = retryDelay acc.2
  ∧ (∀ k, k ∈ r.1.2 ↔ k ∈ acc.1.2 ∨ (k ∈ mints ∧ hit now acc.2 k = None))
  ∧ (∀ k, JSMap.get k r.1.1
          = match (if decide (k ∈ mints) then hit now acc.2 k else None) with
            | Some d => Some d
            | None => JSMap.get k acc.1.1
            end).
Proof.
  revert acc. induction mints as [|mint mints IH]; intros acc.
  { simpl. repeat split; try done.
    - by left.
    - intros [H | [H _]]; [done | by apply elem_of_nil in H]. }
  cbn [fold_left]. specialize (IH (batch_lookup now acc mint)).
  cbv zeta in IH |- *. destruct IH as (Hhit & Hmax & Hdelay & Hfetch & Hres).
  assert (Hstep : ∀ k, hit now (batch_lookup now acc mint).2 k = hit now acc.2 k).
  { intros k. unfold batch_lookup, hit.
    pose proof (lookup_keeps_lookups now mint k acc.2) as (H & _).
    by destruct (getCachedToken now mint acc.2) as [[c|] s1]. }
  assert (Hcfg : maxRetries (batch_lookup now acc mint).2 = maxRetries acc.2
                 ∧ retryDelay (batch_lookup now acc mint).2 = retryDelay acc.2).
  { unfold batch_lookup.
    pose proof (lookup_keeps_lookups now mint mint acc.2) as (_ & H).
    by destruct (getCachedToken now mint acc.2) as [[c|] s1]. }
  split; [intros k; by rewrite Hhit, Hstep |].
  split; [rewrite Hmax; apply Hcfg |]. split; [rewrite Hdelay; apply Hcfg |].
  assert (Hlook : (batch_lookup now acc mint).1
                  = match hit now acc.2 mint with
                    | Some d => (JSMap.set mint d acc.1.1, acc.1.2)
                    | None => (acc.1.1, acc.1.2 ++ [mint])
                    end).
  { unfold batch_lookup, hit. by destruct (getCachedToken now mint acc.2) as [[c|] s1]. }
  split.
  - intros k. rewrite Hfetch, Hstep, Hlook, elem_of_cons.
    destruct (hit now acc.2 mint) as [d|] eqn:Hm; simpl.
    + split; [naive_solver |]. intros [H | [[-> | H] Hk]]; [by left | congruence | by right].
    + rewrite elem_of_app, list_elem_of_singleton. split; [naive_solver |].
      intros [H | [[-> | H] Hk]]; [by left; left | by left; right | by right].
  - intros k. rewrite Hres, Hstep, Hlook.
    destruct (decide (k ∈ mints)) as [Hin | Hout].
    + rewrite decide_True by (apply elem_of_cons; by right).
      destruct (hit now acc.2 k) as [d|] eqn:Hk; [done |].
      destruct (hit now acc.2 mint) as [d|] eqn:Hm; simpl; [| done].
      apply get_set_ne. intros ->. congruence.
    + destruct (decide (k = mint)) as [-> | Hne].
      * rewrite decide_True by (apply elem_of_cons; by left).
        destruct (hit now acc.2 mint) as [d|]; simpl; [apply get_set_eq | done].
      * rewrite decide_False by (rewrite not_elem_of_cons; done).
        destruct (hit now acc.2 mint) as [d|]; simpl; [by apply get_set_ne | done].
Qed.

(** Every request of a fetch is for the mint of the fetch. *)
Lemma fetchLoop_requests s k upstream remaining attempt lastError x :
  x ∈ requests (fetchLoop s k upstream remaining attempt lastError).2 → x = k.
Proof.
  revert attempt lastError. induction remaining as [|remaining IH];
    intros attempt lastError; simpl.
  - intros H. by apply elem_of_nil in H.
  - destruct (attempt_result (upstream attempt)); simpl.
    + intros H. by apply list_elem_of_singleton in H.
    + intros H. apply elem_of_cons in H as [-> | H]; [done |].
      unfold requests in H. rewrite flat_map_app in H.
      apply elem_of_app in H as [H | H]; [| by apply (IH _ _ H)].
      destruct (Z.of_nat attempt <? maxRetries s - 1); simpl in H; by apply elem_of_nil in H.
Qed.

Lemma fetch_loop (s : Service) (upstream : string → nat → Reply) (mints : list string)
    (acc : JSMap.t TokenData * list IO) :
  let r := fold_left
             (λ (acc : JSMap.t TokenData * list IO) mint,
                let fetched := fetchTokenData s mint (upstream mint) in
                (match fetched.1 with
                 | inl d => JSMap.set mint d acc.1
                 | inr _ => acc.1
                 end, acc.2 ++ fetched.2))
             mints acc in
  (unique_keys acc.1 → unique_keys r.1)
  ∧ (∀ x, x ∈ requests r.2 → x ∈ requests acc.2 ∨ x ∈ mints)
  ∧ (∀ k, JSMap.get k r.1
          = match (if decide (k ∈ mints) then brought s upstream k else None) with
            | Some d => Some d
            | None => JSMap.get k acc.1
            end).
Proof.
  revert acc. induction mints as [|mint mints IH]; intros acc.
  { simpl. repeat split; try done. by left. }
  cbn [fold_left]. set (acc1 := (_, _)). specialize (IH acc1).
  cbv zeta in IH |- *. destruct IH as (Hu & Hreq & Hres).
  split; [| split].
  - intros Hacc. apply Hu. subst acc1. simpl.
    destruct (fetchTokenData s mint (upstream mint)).1; [by apply unique_set | done].
  - intros x Hx. destruct (Hreq x Hx) as [H | H]; [| right; apply elem_of_cons; by right].
    subst acc1. simpl in H. unfold requests in H. rewrite flat_map_app in H.
    apply elem_of_app in H as [H | H]; [by left |].
    right. apply elem_of_cons. left. by apply fetchLoop_requests in H.
  - intros k. rewrite Hres. subst acc1. simpl.
    destruct (decide (k ∈ mints)) as [Hin | Hout].
    + rewrite decide_True by (apply elem_of_cons; by right).
      destruct (brought s upstream k) as [d|] eqn:Hk; [done |].
      unfold brought in Hk.
      destruct (fetchTokenData s mint (upstream mint)).1 as [d|] eqn:Hm; [| done].
      apply get_set_ne. intros ->. by rewrite Hm in Hk.
    + destruct (decide (k = mint)) as [-> | Hne].
      * rewrite decide_True by (apply elem_of_cons; by left). unfold brought.
        destruct (fetchTokenData s mint (upstream mint)).1; [apply get_set_eq | done].
      * rewrite decide_False by (rewrite not_elem_of_cons; done).
        destruct (fetchTokenData s mint (upstream mint)).1; [by apply get_set_ne | done].
Qed.

Lemma store_loop (settledAt : Z) (pairs : JSMap.t TokenData)
    (acc : JSMap.t TokenData * Service) :
  unique_keys pairs →
  let r := fold_left (batch_store settledAt) pairs acc in
  ∀ k, JSMap.get k r.1
       = match JSMap.get k pairs with
         | Some d => Some d
         | None => JSMap.get k acc.1
         end.
Proof.
  revert acc. induction pairs as [|[k1 d1] pairs IH]; intros acc Hu; [done |].
  unfold unique_keys, keys_of in Hu. simpl in Hu. apply NoDup_cons in Hu as [Hk1 Hu].
  cbn [fold_left]. intros k. rewrite (IH _ Hu). simpl.
  destruct (String.eqb k1 k) eqn:E.
  - apply String.eqb_eq in E. subst k1.
    assert (Habs : JSMap.get k pairs = None) by by apply get_None_keys.
    rewrite Habs. apply get_set_eq.
  - apply String.eqb_neq in E. destruct (JSMap.get k pairs); [done |]. by apply get_set_ne.
Qed.

(** X16: the result map of [getBatchTokenData] holds, for each requested
    mint, its cached record if it has a live one, and otherwise the
    record its own fetch brings back, or nothing when that fetch fails;
    a mint's entry depends on no other mint, and no request is made for
    a mint that was cached or not asked for. *)
Theorem batch_tolerates_partial_failure (now settledAt : Z) (mints : list string)
    (upstream : string → nat → Reply) (s : Service) (k : string) :
  let r := getBatchTokenData now mints upstream settledAt s in
  JSMap.get k r.1.1
  = (if decide (k ∈ mints)
     then match (getCachedToken now k s).1 with
          | Some d => Some d
          | None =>
              match (fetchTokenData s k (upstream k)).1 with
              | inl d => Some d
              | inr _ => None
              end
          end
     else None)
  ∧ ∀ x, x ∈ requests r.2 → x ∈ mints ∧ (getCachedToken now x s).1 = None.
Proof.
  unfold getBatchTokenData.
  pose proof (first_loop now mints (JSMap.empty, [], s)) as H1.
  cbv zeta in H1. set (looked := fold_left (batch_lookup now) mints _) in *.
  destruct H1 as (_ & Hmax & Hdelay & Hfetch & Hres). simpl in Hmax, Hdelay, Hfetch, Hres.
  assert (Htf : ∀ x, x ∈ looked.1.2 ↔ x ∈ mints ∧ hit now s x = None).
  { intros x. rewrite Hfetch. split; [intros [H | H]; [by apply elem_of_nil in H | done] |].
    by right. }
  destruct (looked.1.2) as [|m0 tf] eqn:Etf.
  - simpl. split; [| intros x H; by apply elem_of_nil in H].
    rewrite Hres. destruct (decide (k ∈ mints)) as [Hin | Hout]; [| done].
    fold (hit now s k). destruct (hit now s k) as [d|] eqn:Hk; [done |].
    exfalso. assert (Hno : k ∈ []) by (by apply Htf). by apply elem_of_nil in Hno.
  - rewrite <- Etf in *. clear Etf m0 tf. unfold fetchBatchTokenData.
    pose proof (fetch_loop looked.2 upstream looked.1.2 (JSMap.empty, [])) as H2.
    cbv zeta in H2. set (fetched := fold_left _ looked.1.2 _) in *.
    destruct H2 as (Hu & Hreq & Hget).
    pose proof (store_loop settledAt fetched.1 (looked.1.1, looked.2)
                  (Hu ltac:(apply NoDup_nil_2))) as H3.
    cbv zeta in H3. split.
    + cbn [fst snd]. rewrite H3, Hget, Hres. cbn [fst snd JSMap.get JSMap.empty].
      assert (Hb : brought looked.2 upstream k = brought s upstream k).
      { unfold brought. by rewrite (fetchTokenData_config s looked.2). }
      rewrite Hb. fold (hit now s k).
      destruct (decide (k ∈ mints)) as [Hin | Hout].
      * destruct (hit now s k) as [d|] eqn:Hk.
        -- rewrite decide_False; [done |]. rewrite Htf. intros [_ H]. congruence.
        -- rewrite decide_True by (by apply Htf). unfold brought.
           by destruct (fetchTokenData s k (upstream k)).1.
      * rewrite decide_False; [done |]. rewrite Htf. tauto.
    + cbn [fst snd]. intros x Hx. destruct (Hreq x Hx) as [H | H];
        [by apply elem_of_nil in H | by apply Htf].
Qed.

(** Three mints, the second of them unknown to the upstream: the batch
    brings back the other two. *)
Example batch_of_three :
  let upstream := λ mint : string,
        if String.eqb mint "unknownMint" then upstream_down else upstream_up in
  let r := getBatchTokenData 2000 ["mintOne"; "unknownMint"; "mintTwo"] upstream 2500
             fresh_service in
  map fst r.1.1 = ["mintOne"; "mintTwo"]
  ∧ requests r.2 = ["mintOne"; "unknownMint"; "unknownMint"; "unknownMint"; "mintTwo"]
  ∧ map fst (cache r.1.2) = ["mintOne"; "mintTwo"].
Proof. repeat split. Qed.

End BatchFacts.

(** ** More on the backend: teardown, connecting, rotation, decoding *)

Module ConnectionFacts.

Import WebSocketBackend BackendSamples Wire.

(** X17: [disconnect] leaves no socket, none of the three timers the
    object holds a handle of (reconnect, heartbeat, key rotation), no
    subscription and both flags down.  It clears nothing else: each of
    its effects is the clearing of one of these three timers or the
    closing of the socket with code 1000, so the timeout armed by
    [connect] and the failure-reset timers armed by [markApiKeyFailed]
    keep running, and the listeners and the suspended calls of the
    object stay as they are; a timer is cleared exactly when its field
    holds one, and the socket closed exactly when there is one.  It
    keeps the pool and its records, and is
    idempotent: a second [disconnect] changes nothing and performs no
    effect; a socket that opens afterwards finds nothing to replay. *)
Theorem disconnect_is_idempotent (b : Backend) :
  let r := disconnect b in
  websocket r.1 = None
  ∧ isConnected r.1 = false ∧ isConnecting r.1 = false
  ∧ reconnectTimer r.1 = None ∧ heartbeatTimer r.1 = None ∧ keyRotationTimer r.1 = None
  ∧ subscriptions r.1 = [] ∧ pendingSubscriptions r.1 = []
  ∧ options r.1 = options b
  ∧ lastApiKeyUsage r.1 = lastApiKeyUsage b ∧ apiKeyFailures r.1 = apiKeyFailures b
  ∧ attempts r.1 = attempts b ∧ frames r.1 = frames b
  ∧ (∀ e, e ∈ r.2 →
          e = ClearTimer ReconnectTimer ∨ e = ClearTimer HeartbeatTimer
          ∨ e = ClearTimer KeyRotationTimer ∨ e = CloseSocket 1000)
  ∧ (ClearTimer ReconnectTimer ∈ r.2 ↔ is_Some (reconnectTimer b))
  ∧ (ClearTimer HeartbeatTimer ∈ r.2 ↔ is_Some (heartbeatTimer b))
  ∧ (ClearTimer KeyRotationTimer ∈ r.2 ↔ is_Some (keyRotationTimer b))
  ∧ (CloseSocket 1000 ∈ r.2 ↔ is_Some (websocket b))
  ∧ (∀ keyIndex, (ClearTimer ConnectTimeout ∉ r.2)
                 ∧ (ClearTimer (FailureReset keyIndex) ∉ r.2))
  ∧ disconnect r.1 = (r.1, [])
  ∧ sent (socketOpened r.1).2 = []
  ∧ frames (socketOpened r.1).1 = frames b.
Proof.
  assert (Hall : ∀ e, e ∈ (disconnect b).2 →
            e = ClearTimer ReconnectTimer ∨ e = ClearTimer HeartbeatTimer
            ∨ e = ClearTimer KeyRotationTimer ∨ e = CloseSocket 1000).
  { intros e. unfold disconnect. simpl. rewrite !elem_of_app.
    destruct (reconnectTimer b), (heartbeatTimer b), (keyRotationTimer b), (websocket b);
      rewrite ?list_elem_of_singleton, ?elem_of_nil; tauto. }
  assert (Hsome : ∀ A (x : option A), is_Some x ↔ ∃ y, x = Some y) by done.
  cbv zeta. do 13 (split; [done |]). split; [exact Hall |].
  do 4 (split;
        [unfold disconnect; simpl; rewrite !elem_of_app, !Hsome;
         destruct (reconnectTimer b), (heartbeatTimer b), (keyRotationTimer b), (websocket b);
           rewrite ?list_elem_of_singleton, ?elem_of_nil;
           (split;
            [intros H; repeat (destruct H as [H | H]); try discriminate H; try done; eauto
            | intros [y Hy]; try discriminate Hy; tauto]) |]).
  split.
  - intros keyIndex.
    split; intros Hin; apply Hall in Hin as [H | [H | [H | H]]]; discriminate H.
  - split; [done |]. split; [| done].
    unfold socketOpened, handleOpen, connected_listeners, setupHeartbeat, resubscribeAll, sent.
    simpl. rewrite !flat_map_app. simpl.
    assert (Hquiet : ∀ l : list Attempt,
              flat_map (λ e, match e with
                             | Send (TransactionSubscribe ws) => ws
                             | _ => []
                             end)
                (flat_map (λ a, if onConnected a then [ClearTimer ConnectTimeout] else []) l)
              = []).
    { induction l as [|a l IH]; [done |]. simpl. by destruct (onConnected a). }
    by rewrite Hquiet.
Qed.

(** The timeout of a [connect()] call outlives [disconnect]. *)
Example connect_timeout_survives_disconnect :
  let connecting := (connect 1000 (new_WebSocketBackend two_keys).1) in
  SetTimeout ConnectTimeout 10000 ∈ connecting.2
  ∧ (disconnect connecting.1.2).2 = [ClearTimer KeyRotationTimer; CloseSocket 1000].
Proof. split; [| reflexivity]. vm_compute. apply elem_of_cons. right. apply elem_of_cons. by left. Qed.

Lemma emitted_app (e1 e2 : list Effect) : emitted (e1 ++ e2) = emitted e1 ++ emitted e2.
Proof. unfold emitted. by rewrite flat_map_app. Qed.

(** X18: every close takes both flags and the heartbeat down and emits
    ["disconnected"] once; it emits ["maxReconnectAttemptsReached"]
    after it exactly when the close was not a normal one and the
    attempts are used up; a normal close (code 1000) arms no reconnect
    timer and leaves the reconnect state as it was. *)
Theorem close_reports_once (code : Z) (b : Backend) :
  let r := handleClose code b in
  isConnected r.1 = false ∧ isConnecting r.1 = false ∧ heartbeatTimer r.1 = None
  ∧ emitted r.2
    = "disconnected"
      :: (if (code =? 1000) || (reconnectCount b <? reconnectAttempts (options b))
          then [] else ["maxReconnectAttemptsReached"])
  ∧ (code = 1000 →
     scheduled r.2 = [] ∧ reconnectTimer r.1 = reconnectTimer b
     ∧ reconnectCount r.1 = reconnectCount b).
Proof.
  unfold handleClose, scheduleReconnect. simpl.
  destruct (Z.eqb_spec code 1000) as [-> | Hne]; simpl.
  - destruct (heartbeatTimer b) eqn:Hh; simpl; rewrite ?Hh; repeat split; done.
  - destruct (heartbeatTimer b) eqn:Hh; simpl;
      destruct (Z.leb_spec (reconnectAttempts (options b)) (reconnectCount b)),
               (Z.ltb_spec (reconnectCount b) (reconnectAttempts (options b)));
      simpl; rewrite ?Hh; repeat split; try done; lia.
Qed.

Lemma close_reports_witness :
  scheduled (handleClose 1000 first_cooling).2 = [].
Proof.
  destruct (close_reports_once 1000 first_cooling) as (_ & _ & _ & _ & H).
  apply H. reflexivity.
Defined.

(** X19: [connect] fails fast on an empty pool, changing nothing; and
    when it starts a connection it opens one socket, with the key it
    selected, arms the ten-second timeout and raises [isConnecting], so
    that a further [connect] before the socket opens does nothing. *)
Theorem connect_opens_one_socket (now later : Z) (b : Backend) :
  (isConnected b = false → isConnecting b = false → apiKeys (options b) = [] →
   connect now b = (NoApiKeys, b, []))
  ∧ ((connect now b).1.1 = AwaitingOpen →
     let b' := (connect now b).1.2 in
     isConnecting b' = true
     ∧ websocket b' = Some CONNECTING
     ∧ (∃ key, apiKeys (options b) !! currentApiKeyIndex b' = Some key
               ∧ (connect now b).2
                 = [OpenSocket ("wss://atlas-mainnet.helius-rpc.com/ws?api-key=" ++ key)%string;
                    SetTimeout ConnectTimeout 10000])
     ∧ connect later b' = (AlreadyConnected, b', [])).
Proof.
  split.
  - intros Hc Hg Hk. unfold connect, getNextApiKey. by rewrite Hc, Hg, Hk.
  - unfold connect. destruct (isConnected b || isConnecting b) eqn:Hidle; [done |].
    unfold getNextApiKey. destruct (apiKeys (options b)) as [|k0 ks] eqn:Hkeys; [done |].
    destruct ((k0 :: ks) !! (selectKey now b).1) as [key|] eqn:Hkey; [| done].
    simpl. destruct (truthy_string key) eqn:Ht; [| done]. simpl. intros _.
    repeat split; try done.
    + exists key. by rewrite Hkey.
    + by rewrite orb_true_r.
Qed.

Lemma connect_opens_witness :
  connect 2000 (connect 1000 (new_WebSocketBackend two_keys).1).1.2
  = (AlreadyConnected, (connect 1000 (new_WebSocketBackend two_keys).1).1.2, []).
Proof.
  destruct (connect_opens_one_socket 1000 2000 (new_WebSocketBackend two_keys).1)
    as (_ & H).
  destruct (H eq_refl) as (_ & _ & _ & H'). exact H'.
Defined.

End ConnectionFacts.

Module RotationFacts.

Import WebSocketBackend BackendSamples Wire.

Lemma usage_insert_eq (m : gmap nat Z) (i : nat) (v : Z) : usage_of (<[i := v]> m) i = v.
Proof.
  unfold usage_of, or_default_Z, truthy_Z. rewrite lookup_insert_eq.
  by destruct (Z.eqb_spec v 0).
Qed.

Lemma usage_insert_ne (m : gmap nat Z) (i j : nat) (v : Z) :
  i ≠ j → usage_of (<[i := v]> m) j = usage_of m j.
Proof. intros Hne. unfold usage_of. by rewrite lookup_insert_ne. Qed.

Lemma selected_in_pool (now : Z) (b : Backend) :
  let n := length (apiKeys (options b)) in
  (∃ i, (i < n)%nat ∧ recently_failed now b i = false
        ∧ usage_of (lastApiKeyUsage b) i < now) →
  ((selectKey now b).1 < n)%nat
  ∧ ∀ i, (i < n)%nat → recently_failed now b i = false →
         usage_of (lastApiKeyUsage b) (selectKey now b).1 ≤ usage_of (lastApiKeyUsage b) i.
Proof.
  intros n (i & Hi & Hok & Hlt).
  pose proof (BackendFacts.select_fold now b (seq 0 n) 0%nat now) as Hsel.
  cbv zeta in Hsel.
  change (fold_left (consider now b) (seq 0 n) (0%nat, now)) with (selectKey now b) in Hsel.
  set (r := selectKey now b) in *. clearbody r.
  destruct Hsel as [[_ Hall] | (Hin & _ & Hu & _ & Hall)].
  - assert (Hi' : i ∈ seq 0 n) by (apply elem_of_seq; lia).
    specialize (Hall i Hi' Hok). lia.
  - split; [apply elem_of_seq in Hin; lia |].
    intros j Hj Hjok. rewrite <- Hu. apply Hall; [apply elem_of_seq; lia | done].
Qed.

(** X20: in a pool of at least two keys none of which has more than
    three failures on record, all last used before the first of two
    calls, two calls of [getNextApiKey] at advancing clock values select
    different keys. *)
Theorem consecutive_keys_differ (now1 now2 : Z) (b : Backend) :
  (2 ≤ length (apiKeys (options b)))%nat →
  (∀ i, (i < length (apiKeys (options b)))%nat → usage_of (apiKeyFailures b) i ≤ 3) →
  (∀ i, (i < length (apiKeys (options b)))%nat → usage_of (lastApiKeyUsage b) i < now1) →
  now1 < now2 →
  let b1 := (getNextApiKey now1 b).2 in
  let b2 := (getNextApiKey now2 b1).2 in
  currentApiKeyIndex b2 ≠ currentApiKeyIndex b1.
Proof.
  intros Hn Hfail Hused Hlt b1 b2.
  assert (Hne : apiKeys (options b) ≠ []) by (destruct (apiKeys (options b)); simpl in Hn; [lia | done]).
  destruct (BackendFacts.getNextApiKey_index now1 b Hne) as (Hi1 & _ & Hu1).
  fold b1 in Hi1, Hu1.
  assert (Hopts : options b1 = options b ∧ apiKeyFailures b1 = apiKeyFailures b).
  { subst b1. unfold getNextApiKey. by destruct (apiKeys (options b)). }
  destruct Hopts as [Ho1 Hf1].
  assert (Hne1 : apiKeys (options b1) ≠ []) by by rewrite Ho1.
  destruct (BackendFacts.getNextApiKey_index now2 b1 Hne1) as (Hi2 & _ & _).
  fold b2 in Hi2. rewrite Hi2, Hi1.
  assert (Hnot : ∀ now b', apiKeyFailures b' = apiKeyFailures b → ∀ i,
                   (i < length (apiKeys (options b)))%nat → recently_failed now b' i = false).
  { intros now b' Hb' i Hi. unfold recently_failed. rewrite Hb'.
    destruct (Z.ltb_spec 3 (usage_of (apiKeyFailures b) i)); [| done].
    specialize (Hfail i Hi). lia. }
  destruct (selected_in_pool now1 b) as [Hin1 _].
  { exists 0%nat. split; [lia |]. split; [apply (Hnot now1 b eq_refl); lia | apply Hused; lia]. }
  set (i1 := (selectKey now1 b).1) in *.
  set (j := if decide (i1 = 0%nat) then 1%nat else 0%nat).
  assert (Hj : (j < length (apiKeys (options b)))%nat ∧ j ≠ i1).
  { subst j. case_decide; split; lia. }
  destruct Hj as [Hj Hji].
  assert (Huj : usage_of (lastApiKeyUsage b1) j = usage_of (lastApiKeyUsage b) j).
  { rewrite Hu1. by apply usage_insert_ne. }
  destruct (selected_in_pool now2 b1) as [_ Hmin2].
  { exists j. rewrite Ho1. split; [done |]. split; [by apply (Hnot now2 b1 Hf1) |].
    rewrite Huj. specialize (Hused j Hj). lia. }
  intros Heq. specialize (Hmin2 j). rewrite Ho1 in Hmin2.
  specialize (Hmin2 Hj (Hnot now2 b1 Hf1 j Hj)).
  rewrite Heq, Huj, Hu1, usage_insert_eq in Hmin2.
  specialize (Hused j Hj). lia.
Qed.

Lemma consecutive_keys_witness :
  currentApiKeyIndex
    (getNextApiKey 2000 (getNextApiKey 1000 (new_WebSocketBackend two_keys).1).2).2
  ≠ currentApiKeyIndex (getNextApiKey 1000 (new_WebSocketBackend two_keys).1).2.
Proof.
  apply (consecutive_keys_differ 1000 2000 (new_WebSocketBackend two_keys).1).
  - simpl. lia.
  - intros i _. vm_compute. discriminate.
  - intros i _. vm_compute. reflexivity.
  - lia.
Defined.

(** Three calls on a fresh pool of two keys take the keys in turn. *)
Example round_robin :
  let b0 := (new_WebSocketBackend two_keys).1 in
  let r1 := getNextApiKey 1000 b0 in
  let r2 := getNextApiKey 2000 r1.2 in
  let r3 := getNextApiKey 3000 r2.2 in
  (r1.1, r2.1, r3.1) = (Some "key-one", Some "key-two", Some "key-one").
Proof. vm_compute. reflexivity. Qed.

Lemma marked_failures (n i : nat) (b : Backend) :
  usage_of (apiKeyFailures (marked n i b)) i = usage_of (apiKeyFailures b) i + Z.of_nat n
  ∧ (∀ j, j ≠ i → usage_of (apiKeyFailures (marked n i b)) j = usage_of (apiKeyFailures b) j)
  ∧ lastApiKeyUsage (marked n i b) = lastApiKeyUsage b.
Proof.
  induction n as [|n (IHi & IHj & IHu)]; simpl.
  - split; [lia | done].
  - rewrite usage_insert_eq, IHi. split; [lia |]. split; [| done].
    intros j Hj. rewrite usage_insert_ne by done. by apply IHj.
Qed.

(** X21: a key with no failure on record is passed over by the rotation
    exactly after more than three calls of [markApiKeyFailed], and then
    only during the minute after its last use; marking one key touches
    the standing of no other key; the reset timer of the key, once
    fired, ends the cooldown. *)
Theorem cooldown_after_four_failures (n i : nat) (now : Z) (b : Backend) :
  usage_of (apiKeyFailures b) i = 0 →
  recently_failed now (marked n i b) i
  = (3 <? Z.of_nat n) && (now - usage_of (lastApiKeyUsage b) i <? 60000)
  ∧ (∀ j, j ≠ i → recently_failed now (marked n i b) j = recently_failed now b j)
  ∧ recently_failed now (failureResetFired i (marked n i b)) i = false.
Proof.
  intros H0. destruct (marked_failures n i b) as (Hi & Hj & Hu).
  unfold recently_failed. rewrite Hi, Hu, H0. split; [done |]. split.
  - intros j Hne. by rewrite (Hj j Hne).
  - simpl. by rewrite usage_insert_eq.
Qed.

Lemma cooldown_witness :
  recently_failed 1000 (marked 4 1 (new_WebSocketBackend two_keys).1) 1 = true.
Proof.
  destruct (cooldown_after_four_failures 4 1 1000 (new_WebSocketBackend two_keys).1 eq_refl)
    as (H & _).
  rewrite H. reflexivity.
Defined.

Lemma fresh_pool_fold (now : Z) (b : Backend) (l : list nat) (b0 : nat) :
  lastApiKeyUsage b = ∅ →
  fold_left (consider now b) l (b0, 0) = (b0, 0).
Proof.
  intros Hu. induction l as [|i l IH]; [done |]. simpl.
  rewrite BackendFacts.consider_eq. simpl.
  assert (Hz : usage_of (lastApiKeyUsage b) i = 0) by (by rewrite Hu).
  rewrite Hz. simpl. by destruct (recently_failed now b i).
Qed.

(** X22: after [updateApiKeys] with a non-empty pool no key is cooling
    down, and the next selection, at any positive clock value, is the
    first key of the new pool, whatever was on record for the old one. *)
Theorem new_pool_starts_afresh (now : Z) (newApiKeys : list string) (b : Backend) :
  newApiKeys ≠ [] →
  0 < now →
  let b' := updateApiKeys newApiKeys b in
  (∀ i later, recently_failed later b' i = false)
  ∧ (getNextApiKey now b').1 = head newApiKeys
  ∧ currentApiKeyIndex (getNextApiKey now b').2 = 0%nat.
Proof.
  intros Hne Hnow b'. split; [done |].
  assert (Hne' : apiKeys (options b') ≠ []) by done.
  destruct (BackendFacts.getNextApiKey_index now b' Hne') as (-> & -> & _).
  assert (Hsel : selectKey now b' = (0%nat, 0)).
  { unfold selectKey. subst b'. simpl.
    destruct newApiKeys as [|k ks]; [done |]. simpl.
    rewrite BackendFacts.consider_eq.
    change (recently_failed now (updateApiKeys (k :: ks) b) 0) with false.
    change (usage_of (lastApiKeyUsage (updateApiKeys (k :: ks) b)) 0) with 0.
    cbv iota. change ((0%nat, now).2) with now.
    destruct (Z.ltb_spec 0 now); [| lia].
    by apply fresh_pool_fold. }
  rewrite Hsel. simpl. split; [| done]. by destruct newApiKeys.
Qed.

Lemma new_pool_witness :
  (getNextApiKey 1000000 (updateApiKeys ["key-three"; "key-four"] both_cooling)).1
  = Some "key-three".
Proof.
  apply (new_pool_starts_afresh 1000000 ["key-three"; "key-four"] both_cooling).
  - discriminate.
  - lia.
Defined.

End RotationFacts.

Module BalanceFacts.

Import WebSocketBackend Wire.





Lemma changes_from_throws (message : option RawMessage) (post pre : list Z) (i : nat) :
  changes_from message post pre i = None
  ↔ (∃ m, message = Some m ∧ rm_accountKeys m = None)
    ∧ ∃ j p, pre !! j = Some p ∧ post !! (i + j)%nat ≠ Some p.
Proof.
  revert i. induction pre as [|p rest IH]; intros i.
  { simpl. split; [done |]. intros (_ & j & p & Hj & _). by rewrite lookup_nil in Hj. }
  assert (Hzero : is_zero (match post !! i with Some q => Num (q - p) | None => NaN end) = true
                  ↔ post !! i = Some p).
  { destruct (post !! i) as [q|]; simpl; [| split; discriminate].
    destruct (Z.eqb_spec (q - p) 0); split; intros H; try done.
    - f_equal. lia.
    - injection H as ->. lia. }
  simpl. destruct (is_zero _) eqn:Hz.
  - clear Hz. assert (Hz : post !! i = Some p) by by apply Hzero.
    rewrite IH. split.
    + intros (Hm & j & p0 & Hj & Hpost). split; [done |]. exists (S j), p0.
      split; [done |]. by replace (i + S j)%nat with (S i + j)%nat by lia.
    + intros (Hm & [|j] & p0 & Hj & Hpost); simpl in Hj.
      * rewrite Nat.add_0_r in Hpost. simplify_eq.
      * split; [done |]. exists j, p0. split; [done |].
        by replace (S i + j)%nat with (i + S j)%nat by lia.
  - assert (Hnz : post !! i ≠ Some p).
    { intros H. apply Hzero in H. discriminate. }
    unfold account_at. destruct message as [m|].
    + destruct (rm_accountKeys m) as [keys|] eqn:Hkeys.
      * destruct (changes_from (Some m) post rest (S i)) eqn:Hrest.
        -- split; [done |]. intros ((m' & Hm' & Hnone) & _). simplify_eq.
        -- apply IH in Hrest as ((m' & Hm' & Hnone) & _). simplify_eq.
      * split; [| done]. intros _. split; [by exists m |].
        exists 0%nat, p. split; [done |]. by rewrite Nat.add_0_r.
    + destruct (changes_from None post rest (S i)) eqn:Hrest.
      * split; [done |]. by intros ((m' & Hm' & _) & _).
      * by apply IH in Hrest as ((m' & Hm' & _) & _).
Qed.

(** X24: [extractBalanceChanges] throws exactly when the notification
    has both balance arrays, a message without account keys, and some
    position of the pre-balance array whose post-balance is different or
    missing; in every other case it returns a list. *)
Theorem balance_changes_throw_exactly (rawData : RawData) :
  extractBalanceChanges rawData = None
  ↔ ∃ meta pre post m,
      rd_meta rawData = Some meta
      ∧ rm_preBalances meta = Some pre
      ∧ rm_postBalances meta = Some post
      ∧ rd_message rawData = Some m
      ∧ rm_accountKeys m = None
      ∧ ∃ j p, pre !! j = Some p ∧ post !! j ≠ Some p.
Proof.
  unfold extractBalanceChanges.
  destruct (rd_meta rawData) as [meta|] eqn:Hmeta.
  2: { split; [done |]. intros (? & ? & ? & ? & H & _). discriminate H. }
  destruct (rm_preBalances meta) as [pre|] eqn:Hpre.
  2: { split; [done |]. intros (? & ? & ? & ? & H & H' & _).
       injection H as <-. congruence. }
  destruct (rm_postBalances meta) as [post|] eqn:Hposts.
  2: { split; [done |]. intros (? & ? & ? & ? & H & _ & H' & _).
       injection H as <-. congruence. }
  rewrite changes_from_throws. split.
  - intros ((m & Hm & Hnone) & j & p & Hj & Hpost). simpl in Hpost.
    exists meta, pre, post, m. do 5 (split; [done |]). by exists j, p.
  - intros (meta' & pre' & post' & m & H1 & H2 & H3 & Hm & Hnone & j & p & Hj & Hpost).
    injection H1 as <-. rewrite Hpre in H2. rewrite Hposts in H3.
    injection H2 as <-. injection H3 as <-.
    split; [by exists m |]. by exists j, p.
Qed.

(** A notification without balance arrays yields no change; a shorter
    post-balance array yields a [NaN] change. *)
Example balance_changes_edges :
  extractBalanceChanges {| rd_meta := None; rd_message := None |} = Some []
  ∧ extractBalanceChanges (notification [5; 6] [5] ["a"; "b"])
    = Some [ {| rb_accountIndex := 1; rb_account := Some "b"; rb_change := NaN;
                rb_preBalance := 6; rb_postBalance := None |} ].
Proof. split; reflexivity. Qed.

End BalanceFacts.

(** ** The tracker: undisturbed schedules, and the history query *)

Module TrackingFacts.

Import WebSocketBackend WalletTracker Replay Tracking JSSetFacts TrackerFacts.

Lemma delete_add_absent (w : string) (s : list string) :
  w ∉ s → JSSet.delete w (JSSet.add w s) = s.
Proof.
  intros Hw. unfold JSSet.add, JSSet.has, JSSet.delete. case_bool_decide; [done |].
  rewrite filter_app. simpl. rewrite filter_cons. case_decide; [done |].
  rewrite filter_nil, app_nil_r.
  induction s as [|x s IH]; [done |].
  rewrite filter_cons. apply not_elem_of_cons in Hw as [Hne Hw].
  case_decide; [| congruence]. f_equal. apply IH; [done |].
  intros Hin. by apply Hw.
Qed.

Lemma delete_not_member (w : string) (s : list string) :
  w ∉ s → JSSet.delete w s = s.
Proof.
  intros Hw. unfold JSSet.delete.
  induction s as [|x s IH]; [done |].
  rewrite filter_cons. apply not_elem_of_cons in Hw as [Hne Hw].
  case_decide; [| congruence]. f_equal. by apply IH.
Qed.

Lemma has_false (w : string) (s : list string) : JSSet.has w s = false → w ∉ s.
Proof. unfold JSSet.has. intros H Hin. by rewrite bool_decide_eq_true_2 in H. Qed.

Lemma elem_of_of_spread (x : string) (a b : list string) :
  x ∈ JSSet.of_spread a b ↔ x ∈ a ∨ x ∈ b.
Proof.
  pose proof (to_gset_of_spread a b) as H. unfold JSSet.to_gset in H.
  split; intros Hx.
  - apply (elem_of_list_to_set (C := gset string)) in Hx. rewrite H in Hx. set_solver.
  - apply (elem_of_list_to_set (C := gset string)). rewrite H. set_solver.
Qed.

(** *** Suspended replays *)

Lemma replays_app (l1 l2 : list Frame) : replays (l1 ++ l2) = replays l1 ++ replays l2.
Proof. unfold replays. by rewrite flat_map_app. Qed.

Lemma replays_cons (f : Frame) (l : list Frame) :
  replays (f :: l) = replays [f] ++ replays l.
Proof. exact (replays_app [f] l). Qed.

Lemma replays_delete (l : list Frame) (k : nat) (f : Frame) (x : list string) :
  l !! k = Some f →
  (x ∈ replays (delete k l) → x ∈ replays l)
  ∧ (x ∈ replays l → x ∈ replays (delete k l) ∨ f = Resubscribing x).
Proof.
  revert k. induction l as [|g l IH]; intros k Hk; [done |].
  destruct k as [|k]; simpl in Hk.
  - injection Hk as ->. change (delete 0%nat (f :: l)) with l.
    rewrite replays_cons, elem_of_app. split.
    + intros H. by right.
    + intros [H | H]; [| by left].
      right. destruct f as [rest| |]; simpl in H;
        [apply list_elem_of_singleton in H; by subst | by apply elem_of_nil in H ..].
  - destruct (IH k Hk) as [IH1 IH2].
    change (delete (S k) (g :: l)) with (g :: delete k l).
    rewrite (replays_cons g (delete k l)), (replays_cons g l), !elem_of_app. split.
    + intros [H | H]; [by left | right; by apply IH1].
    + intros [H | H]; [by left; left |]. destruct (IH2 H); [left; by right | by right].
Qed.

Lemma thrown_no_replay (l : list Attempt) :
  replays (flat_map (λ a, if onError a && negb (settled a)
                          then [ConnectRejected (reschedules a)] else []) l) = [].
Proof.
  induction l as [|a l IH]; [done |]. simpl. rewrite replays_app, IH.
  by destruct (onError a && negb (settled a)).
Qed.

(** *** Handlers that keep the subscription state *)

Lemma kept_refl (b : Backend) : kept b b.
Proof. by repeat split. Qed.

Lemma kept_trans (b1 b2 b3 : Backend) : kept b1 b2 → kept b2 b3 → kept b1 b3.
Proof.
  intros (Hs & Hp & Hc & Hr) (Hs' & Hp' & Hc' & Hr'). repeat split; try congruence.
  intros H. by apply Hc, Hc'.
Qed.

Lemma getNextApiKey_kept (now : Z) (b : Backend) : kept b (getNextApiKey now b).2.
Proof. unfold getNextApiKey. destruct (apiKeys (options b)); by repeat split. Qed.

Lemma connect_kept (now : Z) (b : Backend) : kept b (connect now b).1.2.
Proof.
  unfold connect. destruct (WebSocketBackend.isConnected b || isConnecting b);
    [apply kept_refl |].
  pose proof (getNextApiKey_kept now b) as Hk.
  destruct (getNextApiKey now b) as [[key|] b1]; simpl in *; [| done].
  destruct (truthy_string key); simpl; [| done].
  eapply kept_trans; [exact Hk |]. by repeat split.
Qed.

Lemma scheduleReconnect_kept (b : Backend) : kept b (scheduleReconnect b).1.
Proof.
  unfold scheduleReconnect.
  destruct (reconnectAttempts (options b) <=? reconnectCount b); by repeat split.
Qed.

Lemma markApiKeyFailed_kept (i : nat) (b : Backend) : kept b (markApiKeyFailed i b).1.
Proof. by repeat split. Qed.

Lemma handleClose_kept (code : Z) (b : Backend) : kept b (handleClose code b).1.
Proof.
  unfold handleClose.
  set (b1 := with_connection b (websocket b) false false (reconnectCount b)).
  assert (H2 : kept b (match heartbeatTimer b1 with
                       | Some _ => (with_timers b1 (reconnectTimer b1) None (keyRotationTimer b1),
                                    [ClearTimer HeartbeatTimer])
                       | None => (b1, [])
                       end).1).
  { destruct (heartbeatTimer b1); by repeat split. }
  destruct (match heartbeatTimer b1 with Some _ => _ | None => _ end) as [b2 e2].
  simpl in H2. destruct (negb (code =? 1000)); simpl; [| done].
  pose proof (scheduleReconnect_kept b2) as H3.
  destruct (scheduleReconnect b2) as [b3 e3]. simpl in *. by eapply kept_trans.
Qed.

Lemma reconnectTimerFired_kept (now : Z) (b : Backend) :
  kept b (reconnectTimerFired now b).1.
Proof.
  unfold reconnectTimerFired. set (b1 := with_connection _ _ _ _ _).
  assert (H1 : kept b b1) by by repeat split.
  pose proof (connect_kept now b1) as H2.
  destruct (connect now b1) as [[outcome b2] e2]. simpl in H2.
  eapply kept_trans; [exact H1 |]. eapply kept_trans; [exact H2 |].
  destruct outcome; simpl; [apply kept_refl | |].
  - repeat split; try done. simpl. rewrite replays_app. simpl. by rewrite app_nil_r.
  - by repeat split.
Qed.

Lemma socketError_kept (b : Backend) : kept b (socketError b).1.
Proof.
  unfold socketError, handleError, error_listeners. simpl.
  repeat split; try done. simpl. rewrite replays_app, thrown_no_replay. by rewrite app_nil_r.
Qed.

(** *** The start of a replay *)

Lemma resubscribeAll_spec (b : Backend) :
  WebSocketBackend.isConnected b = true →
  let r := resubscribeAll b in
  effective r.1 = effective b
  ∧ WebSocketBackend.isConnected r.1 = true
  ∧ ∃ tail,
      replays (frames r.1) = replays (frames b) ++ tail
      ∧ (∀ rest w, rest ∈ tail → w ∈ rest →
                   w ∈ subscriptions b ∨ w ∈ pendingSubscriptions b)
      ∧ (∀ w, w ∈ pendingSubscriptions r.1 → ∃ rest, rest ∈ tail ∧ w ∈ rest).
Proof.
  intros Hc. unfold resubscribeAll.
  pose proof (λ x, elem_of_of_spread x (subscriptions b) (pendingSubscriptions b)) as Hall.
  destruct (JSSet.of_spread (subscriptions b) (pendingSubscriptions b)) as [|w0 rest].
  - simpl. split; [done |]. split; [done |]. exists []. rewrite app_nil_r.
    split; [done |]. split.
    + intros ? ? H. by apply elem_of_nil in H.
    + intros w Hw. exfalso. eapply elem_of_nil, Hall. by right.
  - unfold subscribeToWallet. rewrite Hc. simpl. split; [| split; [done |]].
    + unfold effective. simpl. rewrite to_gset_add, to_gset_delete.
      assert (H0 : w0 ∈ subscriptions b ∨ w0 ∈ pendingSubscriptions b).
      { apply Hall. apply elem_of_cons. by left. }
      unfold JSSet.to_gset. apply set_eq. intros x.
      rewrite !elem_of_union, elem_of_difference, !elem_of_list_to_set, elem_of_singleton.
      destruct (decide (x = w0)) as [-> | Hne]; tauto.
    + exists [rest]. rewrite replays_app. split; [done |]. split.
      * intros rest' w Hr Hw. apply list_elem_of_singleton in Hr. subst rest'.
        apply Hall. apply elem_of_cons. by right.
      * intros w Hw. apply list_elem_of_filter in Hw as [Hne Hw].
        exists rest. split; [by apply list_elem_of_singleton |].
        assert (Hin : w ∈ w0 :: rest) by (apply Hall; by right).
        apply elem_of_cons in Hin as [-> | Hin]; done.
Qed.

Lemma socketOpened_spec (b : Backend) :
  let r := socketOpened b in
  effective r.1 = effective b
  ∧ WebSocketBackend.isConnected r.1 = true
  ∧ ∃ tail,
      replays (frames r.1) = replays (frames b) ++ tail
      ∧ (∀ rest w, rest ∈ tail → w ∈ rest →
                   w ∈ subscriptions b ∨ w ∈ pendingSubscriptions b)
      ∧ (∀ w, w ∈ pendingSubscriptions r.1 → ∃ rest, rest ∈ tail ∧ w ∈ rest).
Proof.
  unfold socketOpened, handleOpen, connected_listeners, setupHeartbeat.
  match goal with |- context [resubscribeAll ?x] =>
    pose proof (resubscribeAll_spec x eq_refl) as H; destruct (resubscribeAll x) end.
  exact H.
Qed.

Section WithTransaction.
Context {Tx : Type}.
Implicit Types (t : Tracker Tx) (s : Step Tx).

Lemma not_busy t :
  busy t = false → frames (websocketBackend t) = [] ∧ stopsPending t = 0%nat.
Proof. unfold busy. by destruct (frames _), (stopsPending t). Qed.

Lemma orderly_kept t t' :
  trackedWallets t' = trackedWallets t →
  stopsPending t' = stopsPending t →
  kept (websocketBackend t) (websocketBackend t') →
  (stopsPending t ≠ 0%nat → frames (websocketBackend t') = []) →
  orderly t → orderly t'.
Proof.
  intros Ht Hn (Hs & Hp & Hc & Hr) Hf (H1 & H2 & H3 & H4).
  unfold orderly, in_step, effective in *. rewrite Ht, Hn, Hs, Hp, Hr.
  split; [done |]. split; [| split; [| done]].
  - intros Hne. split; [by apply Hf |]. by destruct (H2 Hne) as (_ & ? & ?).
  - intros Hc'. by apply H3, Hc.
Qed.

(** A step that is not a resumption, taken while nothing is suspended. *)
Lemma call_orderly t s :
  is_resumption s = false → busy t = false → orderly t → orderly (step t s).1.
Proof.
  intros Hs Hcalm Hord. destruct (not_busy t Hcalm) as [Hframes Hstops].
  pose proof Hord as (H1 & H2 & H3 & H4). destruct (H1 Hstops) as [Hstep _].
  assert (Hpending : WebSocketBackend.isConnected (websocketBackend t) = true →
                     pendingSubscriptions (websocketBackend t) = []).
  { intros Hc. destruct (pendingSubscriptions (websocketBackend t)) as [|w l] eqn:E; [done |].
    destruct (H3 Hc w) as (rest & Hr & _); [rewrite ?E; apply elem_of_cons; by left |].
    rewrite Hframes in Hr. by apply elem_of_nil in Hr. }
  assert (Hhandler : ∀ (r : Backend * list Effect),
            kept (websocketBackend t) r.1 →
            orderly (forward r.2 (with_backend t r.1)).1).
  { intros [b e] Hk. simpl in *.
    destruct (forward_frame e (with_backend t b)) as (Hb & Ht & _ & _ & Hn).
    apply (orderly_kept t); rewrite ?Hb, ?Ht, ?Hn; try done. }
  destruct s as [w|w|now| | |code| |now|k| |tx]; try discriminate Hs; unfold step.
  - unfold addWallet. destruct (validateWalletAddress w) eqn:Hv; simpl; [| done].
    destruct (JSSet.has w (trackedWallets t)) eqn:Hhas; simpl; [done |].
    unfold orderly, in_step, effective, subscribeToWallet.
    destruct (WebSocketBackend.isConnected (websocketBackend t)) eqn:Hc; simpl;
      rewrite ?Hc, Hframes; (split; [| split; [done | split]]).
    + intros _. split; [| intros ? ? H; by apply elem_of_nil in H].
      rewrite !to_gset_add, to_gset_delete. unfold in_step, effective in Hstep.
      rewrite <- Hstep. apply set_eq. intros x. destruct (decide (x = w)); set_solver.
    + intros _ w' Hw'. rewrite (Hpending eq_refl) in Hw'. by apply elem_of_nil in Hw'.
    + intros w' Hw'. apply elem_of_add in Hw' as [-> | Hw']; [done | by apply H4].
    + intros _. split; [| intros ? ? H; by apply elem_of_nil in H].
      rewrite !to_gset_add. unfold in_step, effective in Hstep.
      rewrite <- Hstep. set_solver.
    + done.
    + intros w' Hw'. apply elem_of_add in Hw' as [-> | Hw']; [done | by apply H4].
  - unfold removeWallet. destruct (JSSet.has w (trackedWallets t)) eqn:Hhas; simpl; [| done].
    unfold orderly, in_step, effective. simpl. rewrite Hframes.
    split; [| split; [done | split]].
    + intros _. split; [| intros ? ? H; by apply elem_of_nil in H].
      rewrite !to_gset_delete. unfold in_step, effective in Hstep.
      rewrite <- Hstep. set_solver.
    + intros Hc w' Hw'. rewrite (Hpending Hc) in Hw'. by apply elem_of_nil in Hw'.
    + intros w' Hw'. apply list_elem_of_filter in Hw' as [_ Hw']. by apply H4.
  - unfold start.
    pose proof (connect_kept now (websocketBackend t)) as Hk.
    destruct (connect now (websocketBackend t)) as [[outcome b] e].
    apply (Hhandler (b, e)). exact Hk.
  - unfold stop, disconnect.
    match goal with |- context [forward ?e ?t'] =>
      destruct (forward_frame e t') as (Hb & Ht & _ & _ & Hn) end.
    unfold orderly, in_step, effective. rewrite Hb, Ht, Hn. simpl.
    split; [done |]. split; [done |]. split; [done |]. exact H4.
  - pose proof (socketOpened_spec (websocketBackend t)) as (He & Hc & tail & Hr & Htail & Hp).
    destruct (socketOpened (websocketBackend t)) as [b e]. simpl in *.
    destruct (forward_frame e (with_backend t b)) as (Hb & Ht & _ & _ & Hn).
    unfold orderly, in_step. rewrite Hb, Ht, Hn. simpl. rewrite He, Hr, Hframes. simpl.
    split; [| split; [done | split; [| done]]].
    + intros _. split; [exact Hstep |]. intros rest w Hrest Hw.
      apply (elem_of_list_to_set (C := gset string)).
      unfold in_step, JSSet.to_gset in Hstep. rewrite <- Hstep. unfold effective, JSSet.to_gset.
      rewrite elem_of_union, !elem_of_list_to_set. by eapply Htail.
    + intros _ w Hw. by apply Hp.
  - pose proof (handleClose_kept code
                  (with_connection (websocketBackend t)
                     (match websocket (websocketBackend t) with
                      | Some _ => Some CLOSED | None => None end)
                     (WebSocketBackend.isConnected (websocketBackend t))
                     (isConnecting (websocketBackend t))
                     (reconnectCount (websocketBackend t)))) as Hk.
    unfold socketClosed. destruct (handleClose code _) as [b e].
    apply (Hhandler (b, e)). exact Hk.
  - pose proof (socketError_kept (websocketBackend t)) as Hk.
    destruct (socketError (websocketBackend t)) as [b e].
    apply (Hhandler (b, e)). exact Hk.
  - pose proof (reconnectTimerFired_kept now (websocketBackend t)) as Hk.
    destruct (reconnectTimerFired now (websocketBackend t)) as [b e].
    apply (Hhandler (b, e)). exact Hk.
  - apply (orderly_kept t); try done; apply kept_refl.
Qed.

(** A frame that suspends no wallet is taken from the queue by a
    handler that keeps the subscription state. *)
Lemma dropped_orderly t (k : nat) (f : Frame) (r : Backend * list Effect) :
  stopsPending t = 0%nat →
  frames (websocketBackend t) !! k = Some f →
  (∀ w rest, f ≠ Resubscribing (w :: rest)) →
  kept (with_frames (websocketBackend t) (delete k (frames (websocketBackend t)))) r.1 →
  orderly t → orderly (forward r.2 (with_backend t r.1)).1.
Proof.
  intros Hstops Hk Hf (Hs & Hp & Hc & Hr) (H1 & H2 & H3 & H4).
  destruct r as [b e]. simpl in *.
  destruct (forward_frame e (with_backend t b)) as (Hb & Ht & _ & _ & Hn).
  destruct (H1 Hstops) as [Hstep Hrest].
  unfold orderly, in_step, effective. rewrite Hb, Ht, Hn. simpl. rewrite Hs, Hp, Hr.
  split; [| split; [done | split; [| done]]].
  - intros _. split; [exact Hstep |]. intros rest w Hin Hw.
    apply (Hrest rest w); [| done]. by apply (replays_delete _ k f rest Hk).
  - intros Hc' w Hw. destruct (H3 (Hc Hc') w Hw) as (rest & Hin & Hwr).
    destruct (proj2 (replays_delete _ k f rest Hk) Hin) as [Hin' | ->].
    + by exists rest.
    + destruct rest as [|w0 rest]; [by apply elem_of_nil in Hwr | by destruct (Hf w0 rest)].
Qed.

Lemma resumed_orderly t (k : nat) : orderly t → orderly (step t (Resumed k)).1.
Proof.
  intros Hord. pose proof Hord as (H1 & H2 & H3 & H4). unfold step, resume.
  destruct (frames (websocketBackend t) !! k) as [f|] eqn:Hk.
  2: { destruct (forward_frame [] (with_backend t (websocketBackend t)))
         as (Hb & Ht & _ & _ & Hn).
       apply (orderly_kept t); rewrite ?Hb, ?Ht, ?Hn; try done; try apply kept_refl.
       intros Hne. by destruct (H2 Hne). }
  assert (Hstops : stopsPending t = 0%nat).
  { destruct (decide (stopsPending t = 0%nat)) as [| Hne]; [done |].
    destruct (H2 Hne) as (Hf & _). by rewrite Hf in Hk. }
  destruct (H1 Hstops) as [Hstep Hrest].
  set (b0 := with_frames (websocketBackend t) (delete k (frames (websocketBackend t)))).
  destruct f as [[|w rest]|reschedules|].
  - apply (dropped_orderly t k (Resubscribing []) (b0, [])); try done; try apply kept_refl.
  - assert (Hw : w ∈ trackedWallets t).
    { apply (Hrest (w :: rest)); [| apply elem_of_cons; by left].
      apply list_elem_of_In, in_flat_map. exists (Resubscribing (w :: rest)).
      split; [| by left]. apply list_elem_of_In. by eapply list_elem_of_lookup_2. }
    assert (Hin : w ∈ effective (websocketBackend t)).
    { unfold in_step in Hstep. rewrite Hstep. by apply elem_of_list_to_set. }
    assert (Hfound : Resubscribing (w :: rest) ∈ frames (websocketBackend t))
      by by eapply list_elem_of_lookup_2.
    assert (Hlater : ∀ w', w' ∈ rest → w' ∈ trackedWallets t).
    { intros w' Hw'. apply (Hrest (w :: rest)); [| apply elem_of_cons; by right].
      apply list_elem_of_In, in_flat_map. exists (Resubscribing (w :: rest)).
      split; [by apply list_elem_of_In | by left]. }
    assert (Hqueue : ∀ rest' w', rest' ∈ replays (delete k (frames (websocketBackend t))) ++ [rest] →
                                 w' ∈ rest' → w' ∈ trackedWallets t).
    { intros rest' w' Hr Hw'. apply elem_of_app in Hr as [Hr | Hr].
      - apply (Hrest rest' w'); [| done]. by apply (replays_delete _ k _ rest' Hk).
      - apply list_elem_of_singleton in Hr. subst rest'. by apply Hlater. }
    unfold in_step, effective in Hstep. unfold effective in Hin.
    unfold subscribeToWallet.
    destruct (WebSocketBackend.isConnected b0) eqn:Hc; simpl.
    + match goal with |- context [forward ?e ?t'] =>
        destruct (forward_frame e t') as (Hb & Ht & _ & _ & Hn) end.
      unfold orderly, in_step. rewrite Hb, Ht, Hn. simpl. rewrite replays_app. simpl.
      split; [| split; [done | split; [| done]]].
      * intros _. split; [| exact Hqueue].
        unfold effective. simpl. rewrite to_gset_add, to_gset_delete, <- Hstep.
        apply set_eq. intros x. destruct (decide (x = w)) as [-> | Hne]; set_solver.
      * intros Hc' w' Hw'. apply list_elem_of_filter in Hw' as [Hne Hw'].
        destruct (H3 Hc' w' Hw') as (rest' & Hr & Hwr).
        destruct (proj2 (replays_delete _ k _ rest' Hk) Hr) as [Hr' | Heq].
        -- exists rest'. split; [apply elem_of_app; by left | done].
        -- injection Heq as <-. exists rest. split.
           ++ apply elem_of_app. right. by apply list_elem_of_singleton.
           ++ apply elem_of_cons in Hwr as [-> | Hwr]; done.
    + unfold orderly, in_step. simpl. rewrite replays_app. simpl.
      split; [| split; [done | split; [| done]]].
      * intros _. split; [| exact Hqueue].
        unfold effective. simpl. rewrite to_gset_add, <- Hstep. set_solver.
      * intros Hc'. simpl in Hc. congruence.
  - apply (dropped_orderly t k (ConnectRejected reschedules)
             (if reschedules
              then suspend ReconnectFailed
                     (markApiKeyFailed
                        (currentApiKeyIndex b0)
                        (with_connection b0 (websocket b0) (WebSocketBackend.isConnected b0)
                           false (reconnectCount b0))).1
              else (markApiKeyFailed
                      (currentApiKeyIndex b0)
                      (with_connection b0 (websocket b0) (WebSocketBackend.isConnected b0)
                         false (reconnectCount b0))).1,
              (markApiKeyFailed
                 (currentApiKeyIndex b0)
                 (with_connection b0 (websocket b0) (WebSocketBackend.isConnected b0)
                    false (reconnectCount b0))).2)); try done.
    destruct reschedules; repeat split; try done.
    simpl. rewrite replays_app. simpl. by rewrite app_nil_r.
  - pose proof (scheduleReconnect_kept b0) as Hkept.
    pose proof (dropped_orderly t k ReconnectFailed (scheduleReconnect b0)) as Hdrop.
    destruct (scheduleReconnect b0) as [b e]. by apply Hdrop.
Qed.

Lemma stopResumed_orderly t : orderly t → orderly (step t StopResumed).1.
Proof.
  intros Hord. pose proof Hord as (H1 & H2 & H3 & H4). unfold step, stopResumed.
  destruct (stopsPending t) as [|n] eqn:Hn; [exact Hord |].
  destruct (H2 ltac:(lia)) as (Hf & Hs & Hp).
  unfold orderly, in_step, effective. simpl. rewrite Hf, Hs, Hp.
  split; [| split; [done | split]].
  - intros _. split; [done |]. intros ? ? H. by apply elem_of_nil in H.
  - intros _ w Hw. by apply elem_of_nil in Hw.
  - intros w Hw. by apply elem_of_nil in Hw.
Qed.

Lemma step_orderly t s :
  implb (busy t) (is_resumption s) = true → orderly t → orderly (step t s).1.
Proof.
  intros Hcalm Hord. destruct (is_resumption s) eqn:Hs.
  - destruct s; try discriminate Hs; [by apply resumed_orderly | by apply stopResumed_orderly].
  - apply call_orderly; try done. by destruct (busy t).
Qed.

Lemma run_orderly (steps : list (Step Tx)) t :
  undisturbed steps t = true → orderly t → orderly (run steps t).
Proof.
  revert t. induction steps as [|s steps IH]; intros t Hcalm Hord; [done |].
  simpl in *. apply andb_true_iff in Hcalm as [Hs Hrest].
  apply IH; [done |]. by apply step_orderly.
Qed.

Lemma new_orderly (maxTx : Z) (o : Options) : orderly (new_WalletTracker (Tx := Tx) maxTx o).
Proof.
  unfold orderly, in_step, effective. simpl.
  split; [| split; [done | split]].
  - intros _. split; [set_solver |]. intros ? ? H. by apply elem_of_nil in H.
  - done.
  - intros w Hw. by apply elem_of_nil in Hw.
Qed.

(** X25: along every schedule in which whatever is suspended (a replay
    between two wallets, a rejected [connect()], the rest of a [stop()])
    is resumed before anything else happens, the active and the pending
    subscriptions together are the tracked wallets whenever no [stop()]
    is suspended; when nothing is suspended and the backend is
    connected, no subscription is pending and the active ones are the
    tracked wallets; and only valid addresses are tracked. *)
Theorem undisturbed_replay_keeps_step (maxTx : Z) (o : Options) (steps : list (Step Tx)) :
  undisturbed steps (new_WalletTracker maxTx o) = true →
  let t := run steps (new_WalletTracker maxTx o) in
  let b := websocketBackend t in
  (stopsPending t = 0%nat →
   JSSet.to_gset (subscriptions b) ∪ JSSet.to_gset (pendingSubscriptions b)
   = JSSet.to_gset (trackedWallets t))
  ∧ (busy t = false → WebSocketBackend.isConnected b = true →
     pendingSubscriptions b = []
     ∧ JSSet.to_gset (subscriptions b) = JSSet.to_gset (trackedWallets t))
  ∧ (∀ w, w ∈ trackedWallets t → validateWalletAddress w = true).
Proof.
  intros Hcalm t b.
  destruct (run_orderly steps _ Hcalm (new_orderly maxTx o)) as (H1 & H2 & H3 & H4).
  fold t in H1, H2, H3, H4. fold b in H1, H2, H3.
  split; [| split; [| done]].
  - intros Hn. by destruct (H1 Hn).
  - intros Hquiet Hc. destruct (not_busy t Hquiet) as [Hf Hn]. fold b in Hf.
    assert (Hp : pendingSubscriptions b = []).
    { destruct (pendingSubscriptions b) as [|w l] eqn:E; [done |].
      destruct (H3 Hc w) as (rest & Hr & _); [apply elem_of_cons; by left |].
      rewrite Hf in Hr. by apply elem_of_nil in Hr. }
    split; [done |]. destruct (H1 Hn) as [Hstep _].
    unfold in_step, effective in Hstep. fold b in Hstep. rewrite Hp in Hstep.
    rewrite <- Hstep. unfold JSSet.to_gset. set_solver.
Qed.

(** X26: for a valid address that is neither tracked nor held by the
    backend as active or pending, [addWallet] succeeds and tracks it,
    adding it once more changes nothing and notifies nobody, and
    removing it again restores the tracker, its backend included,
    exactly. *)
Theorem add_then_remove_restores t (w : string) :
  validateWalletAddress w = true →
  w ∉ trackedWallets t →
  w ∉ subscriptions (websocketBackend t) →
  w ∉ pendingSubscriptions (websocketBackend t) →
  let added := addWallet w t in
  added.1.1 = true
  ∧ w ∈ trackedWallets added.1.2
  ∧ addWallet w added.1.2 = (true, added.1.2, [])
  ∧ (removeWallet w added.1.2).1 = (true, t).
Proof.
  intros Hv Hw Hs Hp added.
  assert (Hhas : JSSet.has w (trackedWallets t) = false).
  { unfold JSSet.has. by apply bool_decide_eq_false_2. }
  assert (Hhas' : JSSet.has w (JSSet.add w (trackedWallets t)) = true).
  { unfold JSSet.has. apply bool_decide_eq_true_2, elem_of_add. by left. }
  assert (Hadd : added
                 = (true,
                    with_backend (with_tracked t (JSSet.add w (trackedWallets t)))
                      (subscribeToWallet w (websocketBackend t)).1.2,
                    map FromBackend (subscribeToWallet w (websocketBackend t)).2
                      ++ [Notify "walletAdded"])).
  { subst added. unfold addWallet. rewrite Hv, Hhas. simpl.
    by destruct (subscribeToWallet w (websocketBackend t)) as [[? ?] ?]. }
  rewrite Hadd. simpl. clear Hadd added.
  split; [done |]. split; [apply elem_of_add; by left |].
  split.
  { unfold addWallet. rewrite Hv. simpl. by rewrite Hhas'. }
  unfold removeWallet. simpl. rewrite Hhas'. simpl.
  f_equal. rewrite delete_add_absent by done.
  unfold subscribeToWallet.
  destruct (WebSocketBackend.isConnected (websocketBackend t)) eqn:Hc; simpl.
  - rewrite delete_add_absent by done.
    rewrite (delete_not_member w (pendingSubscriptions _)) by done.
    rewrite delete_not_member by done.
    destruct t as [m b tw txs c n]. simpl in *. unfold with_backend, with_tracked. simpl.
    f_equal. by destruct b.
  - rewrite delete_add_absent by done.
    rewrite delete_not_member by done.
    destruct t as [m b tw txs c n]. simpl in *. unfold with_backend, with_tracked. simpl.
    f_equal. by destruct b.
Qed.

End WithTransaction.

Lemma undisturbed_replay_witness :
  let t := run BackendSamples.session (new_WalletTracker 100 BackendSamples.two_keys) in
  JSSet.to_gset (subscriptions (websocketBackend t))
  ∪ JSSet.to_gset (pendingSubscriptions (websocketBackend t))
  = JSSet.to_gset (trackedWallets t).
Proof.
  destruct (undisturbed_replay_keeps_step 100 BackendSamples.two_keys BackendSamples.session
              eq_refl) as (H & _).
  apply H. reflexivity.
Defined.

(** The schedule of the race is not an undisturbed one. *)
Example race_is_disturbed :
  undisturbed BackendSamples.race (new_WalletTracker 100 BackendSamples.two_keys) = false.
Proof. reflexivity. Qed.

Lemma add_then_remove_witness :
  (removeWallet BackendSamples.wallet_one
     (addWallet BackendSamples.wallet_one (new_WalletTracker (Tx := unit) 100 BackendSamples.two_keys)).1.2).1
  = (true, new_WalletTracker 100 BackendSamples.two_keys).
Proof.
  destruct (add_then_remove_restores (Tx := unit)
              (new_WalletTracker 100 BackendSamples.two_keys)
              BackendSamples.wallet_one) as (_ & _ & _ & H).
  - vm_compute. reflexivity.
  - apply not_elem_of_nil.
  - apply not_elem_of_nil.
  - apply not_elem_of_nil.
  - exact H.
Defined.

End TrackingFacts.

Module HistoryQueryFacts.

Import WalletTracker.

Lemma filter_sublist {A} (f : A → bool) (l : list A) : List.filter f l `sublist_of` l.
Proof.
  induction l as [|x l IH]; simpl; [constructor |].
  destruct (f x); by constructor.
Qed.

Lemma elem_of_filter {A} (f : A → bool) (l : list A) (x : A) :
  x ∈ List.filter f l ↔ x ∈ l ∧ f x = true.
Proof. rewrite !list_elem_of_In. apply filter_In. Qed.

Lemma slice0_sublist {A} (l : list A) (e : Z) : slice0 l e `sublist_of` l.
Proof. unfold slice0. destruct (e <? 0); apply sublist_take. Qed.

(** X27: whatever the options, [getTransactions] returns stored
    transactions in their stored order; with a wallet address or a
    token mint given, every one returned carries it; a positive limit
    bounds their number; and without a limit every stored transaction
    that carries what is asked for is returned. *)
Theorem query_returns_matching_history {A} (walletAddressOf tokenMintOf : A → option string)
    (options : Query) (transactions : list A) :
  let result := getTransactions walletAddressOf tokenMintOf options transactions in
  result `sublist_of` transactions
  ∧ (truthy_option (q_walletAddress options) = true →
     ∀ tx, tx ∈ result → walletAddressOf tx = q_walletAddress options)
  ∧ (truthy_option (q_tokenMint options) = true →
     ∀ tx, tx ∈ result → tokenMintOf tx = q_tokenMint options)
  ∧ (∀ limit, q_limit options = Some limit → 0 < limit →
              Z.of_nat (length result) ≤ limit)
  ∧ (q_limit options = None ∨ q_limit options = Some 0 →
     ∀ tx, tx ∈ transactions →
           (truthy_option (q_walletAddress options) = true →
            walletAddressOf tx = q_walletAddress options) →
           (truthy_option (q_tokenMint options) = true →
            tokenMintOf tx = q_tokenMint options) →
           tx ∈ result).
Proof.
  intros result. subst result. unfold getTransactions.
  set (byWallet := if truthy_option (q_walletAddress options)
                   then List.filter _ transactions else transactions).
  set (byMint := if truthy_option (q_tokenMint options)
                 then List.filter _ byWallet else byWallet).
  set (result := match q_limit options with Some _ => _ | None => _ end).
  assert (Hw : byWallet `sublist_of` transactions).
  { clear result byMint. subst byWallet.
    destruct (truthy_option (q_walletAddress options)); [apply filter_sublist | done]. }
  assert (Hm : byMint `sublist_of` byWallet).
  { clear result. subst byMint.
    destruct (truthy_option (q_tokenMint options)); [apply filter_sublist | done]. }
  assert (Hr : result `sublist_of` byMint).
  { subst result. destruct (q_limit options) as [limit|]; [| done].
    destruct (truthy_Z limit); [apply slice0_sublist | done]. }
  split; [by etrans; [| etrans] |]. split; [| split; [| split]].
  - intros Ht tx Htx.
    assert (Hin : tx ∈ byWallet).
    { eapply elem_of_sublist; [| exact Hm]. by eapply elem_of_sublist. }
    subst byWallet. rewrite Ht in Hin. apply elem_of_filter in Hin as [_ Hin].
    by apply bool_decide_eq_true in Hin.
  - intros Ht tx Htx.
    assert (Hin : tx ∈ byMint) by by eapply elem_of_sublist.
    subst byMint. rewrite Ht in Hin. apply elem_of_filter in Hin as [_ Hin].
    by apply bool_decide_eq_true in Hin.
  - intros limit Hl Hpos. subst result. rewrite Hl.
    unfold truthy_Z. destruct (Z.eqb_spec limit 0) as [-> | _]; [lia |]. simpl.
    unfold slice0. destruct (Z.ltb_spec limit 0); [lia |].
    rewrite length_take. lia.
  - intros Hl tx Htx Hwallet Hmint.
    assert (Hres : result = byMint).
    { subst result. by destruct Hl as [-> | ->]. }
    rewrite Hres. subst byMint.
    assert (Hin : tx ∈ byWallet).
    { subst byWallet. destruct (truthy_option (q_walletAddress options)); [| done].
      apply elem_of_filter. split; [done |]. by apply bool_decide_eq_true, Hwallet. }
    destruct (truthy_option (q_tokenMint options)); [| done].
    apply elem_of_filter. split; [done |]. by apply bool_decide_eq_true, Hmint.
Qed.

(** A query by wallet with a limit, on a history of three. *)
Example query_by_wallet :
  getTransactions (A := string * nat) (λ tx, Some tx.1) (λ _, None)
    {| q_walletAddress := Some "alice"; q_tokenMint := None; q_limit := Some 1 |}
    [("bob", 3%nat); ("alice", 2%nat); ("alice", 1%nat)]
  = [("alice", 2%nat)].
Proof. reflexivity. Qed.

End HistoryQueryFacts.

(** ** The event emitter *)

Module EmitterFacts.

Import EventEmitter Listeners JSMapFacts.

Lemma get_on (event : string) (l : Listener) (e : Emitter) (event' : string) :
  JSMap.get event' (events (on event l e))
  = if decide (event' = event) then Some (registered event e ++ [l])
    else JSMap.get event' (events e).
Proof.
  unfold on, registered, JSMap.has. simpl.
  destruct (JSMap.get event (events e)) as [ls|] eqn:Hget.
  - rewrite Hget. case_decide as Heq.
    + subst. apply get_set_eq.
    + by rewrite get_set_ne.
  - rewrite get_set_eq. case_decide as Heq.
    + subst. apply get_set_eq.
    + by rewrite !get_set_ne.
Qed.

Lemma get_prependListener (event : string) (l : Listener) (e : Emitter) (event' : string) :
  JSMap.get event' (events (prependListener event l e))
  = if decide (event' = event) then Some (l :: registered event e)
    else JSMap.get event' (events e).
Proof.
  unfold prependListener, registered, JSMap.has. simpl.
  destruct (JSMap.get event (events e)) as [ls|] eqn:Hget.
  - rewrite Hget. case_decide as Heq.
    + subst. apply get_set_eq.
    + by rewrite get_set_ne.
  - rewrite get_set_eq. case_decide as Heq.
    + subst. apply get_set_eq.
    + by rewrite !get_set_ne.
Qed.

Lemma get_removeListener (event : string) (l : Listener) (e : Emitter) (event' : string) :
  JSMap.get event' (events (removeListener event l e))
  = if decide (event' = event)
    then match remove_first l (registered event e) with
         | [] => None
         | spliced => Some spliced
         end
    else JSMap.get event' (events e).
Proof.
  unfold removeListener, registered.
  destruct (JSMap.get event (events e)) as [ls|] eqn:Hget.
  - destruct (remove_first l ls) as [|x spliced] eqn:Hsp; simpl; case_decide as Heq.
    + subst. apply get_delete_eq.
    + by apply get_delete_ne.
    + subst. apply get_set_eq.
    + by apply get_set_ne.
  - simpl. case_decide as Heq; [by subst | done].
Qed.

Lemma registered_removeListener (event : string) (l : Listener) (e : Emitter)
    (event' : string) :
  registered event' (removeListener event l e)
  = if decide (event' = event) then remove_first l (registered event e)
    else registered event' e.
Proof.
  unfold registered at 1. rewrite get_removeListener.
  case_decide; [| done]. by destruct (remove_first l (registered event e)).
Qed.

Lemma listenerCount_registered (event : string) (e : Emitter) :
  listenerCount event e = Z.of_nat (length (registered event e)).
Proof. unfold listenerCount, registered. by destruct (JSMap.get event (events e)). Qed.

Lemma remove_first_absent (l : Listener) (listeners : list Listener) :
  l ∉ listeners → remove_first l listeners = listeners.
Proof.
  induction listeners as [|x listeners IH]; [done |]. simpl. intros Hl.
  apply not_elem_of_cons in Hl as [Hne Hl].
  case_decide; [congruence |]. f_equal. by apply IH.
Qed.

Lemma remove_first_app (l : Listener) (kept rest : list Listener) :
  l ∉ kept → remove_first l (kept ++ l :: rest) = kept ++ rest.
Proof.
  induction kept as [|x kept IH]; simpl; intros Hl.
  - by case_decide.
  - apply not_elem_of_cons in Hl as [Hne Hl].
    case_decide; [congruence |]. f_equal. by apply IH.
Qed.

Lemma remove_first_length (l : Listener) (listeners : list Listener) :
  l ∈ listeners → S (length (remove_first l listeners)) = length listeners.
Proof.
  induction listeners as [|x listeners IH]; simpl; intros Hl.
  - by apply elem_of_nil in Hl.
  - case_decide as Heq; [done |]. simpl. f_equal. apply IH.
    apply elem_of_cons in Hl as [-> | Hl]; [done | done].
Qed.

Lemma remove_first_other (l l' : Listener) (listeners : list Listener) :
  l' ≠ l → l' ∈ remove_first l listeners ↔ l' ∈ listeners.
Proof.
  intros Hne. induction listeners as [|x listeners IH]; simpl; [done |].
  case_decide as Heq.
  - subst x. rewrite elem_of_cons. naive_solver.
  - rewrite !elem_of_cons, IH. done.
Qed.

(** *** What [emit] does *)

Lemma invoke_eq (event : string) (throws : nat → bool) (e0 : Emitter)
    (called0 : list nat) (l : Listener) :
  invoke event throws (e0, called0) l
  = (if survives throws l then e0 else removeListener event l e0, called0 ++ [body l]).
Proof. destruct l as [f | w f]; simpl; [done |]. by destruct (throws f). Qed.

Lemma invoke_fold (event : string) (throws : nat → bool) (rest kept : list Listener)
    (e0 : Emitter) (called0 : list nat) :
  (∀ l, l ∈ kept → survives throws l = true) →
  registered event e0 = kept ++ rest →
  let r := fold_left (invoke event throws) rest (e0, called0) in
  r.2 = called0 ++ map body rest
  ∧ registered event r.1 = kept ++ List.filter (survives throws) rest
  ∧ ∀ event', event' ≠ event → registered event' r.1 = registered event' e0.
Proof.
  revert kept e0 called0.
  induction rest as [|l rest IH]; intros kept e0 called0 Hkept Hreg.
  { simpl. rewrite !app_nil_r. rewrite app_nil_r in Hreg. done. }
  cbv zeta.
  change (fold_left (invoke event throws) (l :: rest) (e0, called0))
    with (fold_left (invoke event throws) rest (invoke event throws (e0, called0) l)).
  rewrite invoke_eq. simpl map. simpl List.filter.
  destruct (survives throws l) eqn:Hl.
  - destruct (IH (kept ++ [l]) e0 (called0 ++ [body l])) as (Hc & Hr & Ho).
    + intros x Hx. apply elem_of_app in Hx as [Hx | Hx]; [by apply Hkept |].
      apply list_elem_of_singleton in Hx. by subst.
    + by rewrite <- app_assoc.
    + rewrite Hc, Hr, <- !app_assoc. done.
  - assert (Hnotin : l ∉ kept).
    { intros Hin. apply Hkept in Hin. congruence. }
    destruct (IH kept (removeListener event l e0) (called0 ++ [body l])) as (Hc & Hr & Ho).
    + done.
    + rewrite registered_removeListener. case_decide; [| done].
      rewrite Hreg. by apply remove_first_app.
    + rewrite Hc, Hr, <- app_assoc. split; [done |]. split; [done |].
      intros event' Hne. rewrite (Ho event' Hne), registered_removeListener.
      by case_decide.
Qed.

(** X28: [emit] calls the functions of the listeners registered for the
    event, each once and in the order of registration, whether or not
    one of them throws; afterwards the listeners of the event are the
    same without the wrappers of [once] whose function returned, a
    wrapper whose function threw stays registered, and the listeners of
    other events are untouched. *)
Theorem emit_calls_in_order (event : string) (throws : nat → bool) (e : Emitter) :
  let r := emit event throws e in
  r.2 = map body (registered event e)
  ∧ registered event r.1.2 = List.filter (survives throws) (registered event e)
  ∧ ∀ event', event' ≠ event → registered event' r.1.2 = registered event' e.
Proof.
  assert (Hreg : registered event e
                 = match JSMap.get event (events e) with Some ls => ls | None => [] end)
    by done.
  unfold emit. destruct (JSMap.get event (events e)) as [ls|] eqn:Hget.
  - destruct (invoke_fold event throws ls [] e []) as (Hc & Hr & Ho).
    + intros l Hl. by apply elem_of_nil in Hl.
    + done.
    + cbv zeta. simpl. by rewrite Hreg.
  - simpl. by rewrite Hreg.
Qed.

(** A function registered with [once] is called by the first [emit] and
    not by the second; one that throws is called again. *)
Example once_is_called_once :
  let e := once "tick" 7 (on "tick" (Fn 3) (once "tick" 5 new_EventEmitter)) in
  let throws := λ f, bool_decide (f = 7%nat) in
  let first := emit "tick" throws e in
  let second := emit "tick" throws first.1.2 in
  first.2 = [5; 3; 7]%nat ∧ second.2 = [3; 7]%nat.
Proof. split; reflexivity. Qed.

(** *** Removing listeners *)

(** X29: when the listener is registered for the event,
    [removeListener] splices out its first registration: the list is
    [before ++ l :: after] with [l] not in [before], and becomes
    [before ++ after], so later registrations of the same listener and
    every other registration stay in their order; when it is not
    registered, the list stays as it is.  The count goes down by one in
    the first case, and the listeners of other events stay. *)
Theorem removeListener_removes_one (event : string) (l : Listener) (e : Emitter) :
  let e' := removeListener event l e in
  (l ∈ registered event e →
   ∃ before after,
     registered event e = before ++ l :: after
     ∧ (l ∉ before)
     ∧ registered event e' = before ++ after)
  ∧ (l ∉ registered event e → registered event e' = registered event e)
  ∧ listenerCount event e'
    = listenerCount event e - (if bool_decide (l ∈ registered event e) then 1 else 0)
  ∧ ∀ event', event' ≠ event → registered event' e' = registered event' e.
Proof.
  cbv zeta. split; [| split; [| split]].
  - intros Hin. apply list_elem_of_split_l in Hin as (before & after & Heq & Hl).
    exists before, after. split; [done |]. split; [done |].
    rewrite registered_removeListener. case_decide; [| done].
    rewrite Heq. by apply remove_first_app.
  - intros Hl. rewrite registered_removeListener. case_decide; [| done].
    by apply remove_first_absent.
  - rewrite !listenerCount_registered, registered_removeListener.
    case_decide; [| done]. case_bool_decide as Hin.
    + apply remove_first_length in Hin. lia.
    + rewrite remove_first_absent by done. lia.
  - intros event' Hne. rewrite registered_removeListener. by case_decide.
Qed.

(** Only the first of two registrations of a listener goes, and a
    listener registered after others is taken from its own place. *)
Example first_registration_removed :
  let e := on "tick" (Fn 2) (on "tick" (Fn 1) (on "tick" (Fn 2) new_EventEmitter)) in
  registered "tick" e = [Fn 2; Fn 1; Fn 2]
  ∧ registered "tick" (removeListener "tick" (Fn 2) e) = [Fn 1; Fn 2]
  ∧ registered "tick" (removeListener "tick" (Fn 1) e) = [Fn 2; Fn 2].
Proof. repeat split. Qed.

(** The function given to [once] is not the registered listener:
    removing it leaves the wrapper in place. *)
Example once_not_removed_by_function :
  let e := once "tick" 5 new_EventEmitter in
  registered "tick" (removeListener "tick" (Fn 5) e) = [OnceWrapper 0 5].
Proof. reflexivity. Qed.

(** *** No event without listeners *)

Lemma populated_removeListener (event : string) (l : Listener) (e : Emitter) :
  populated e → populated (removeListener event l e).
Proof.
  intros Hpop event' ls. rewrite get_removeListener. case_decide; [| apply Hpop].
  destruct (remove_first l (registered event e)); [done |]. by intros [= <-].
Qed.

Lemma populated_emit (event : string) (throws : nat → bool) (e : Emitter) :
  populated e → populated (emit event throws e).1.2.
Proof.
  unfold emit. destruct (JSMap.get event (events e)) as [ls|]; [| done]. simpl.
  generalize (@nil nat). revert e.
  induction ls as [|l ls IH]; intros e called Hpop; [done |]. simpl.
  rewrite invoke_eq. apply IH.
  destruct (survives throws l); [done |]. by apply populated_removeListener.
Qed.

Lemma populated_call (e : Emitter) (c : Call) : populated e → populated (call e c).
Proof.
  intros Hpop.
  destruct c as [ev f | ev f | ev f | ev f | ev l | ev | ev throws]; simpl.
  - intros event' ls. rewrite get_on. case_decide; [| apply Hpop].
    intros [= <-]. by destruct (registered ev e).
  - intros event' ls. unfold once. simpl.
    change (JSMap.set _ _ _) with (events (on ev (OnceWrapper (nextWrapper e) f) e)).
    rewrite get_on. case_decide; [| apply Hpop].
    intros [= <-]. by destruct (registered ev e).
  - intros event' ls. rewrite get_prependListener. case_decide; [| apply Hpop].
    by intros [= <-].
  - intros event' ls. unfold prependOnceListener. simpl.
    change (JSMap.set _ _ _)
      with (events (prependListener ev (OnceWrapper (nextWrapper e) f) e)).
    rewrite get_prependListener. case_decide; [| apply Hpop].
    by intros [= <-].
  - by apply populated_removeListener.
  - unfold removeAllListeners.
    assert (Hdel : ∀ k, populated (with_events e (JSMap.delete k (events e)))).
    { intros k event' ls. simpl. destruct (decide (k = event')) as [-> | Hne].
      - by rewrite get_delete_eq.
      - rewrite get_delete_ne by done. apply Hpop. }
    destruct ev as [k|]; [destruct (truthy_string k); [apply Hdel |] |]; by intros event' ls.
  - by apply populated_emit.
Qed.

Lemma populated_calls (cs : list Call) (e : Emitter) : populated e → populated (calls cs e).
Proof.
  revert e. induction cs as [|c cs IH]; intros e Hpop; [done |].
  simpl. apply IH. by apply populated_call.
Qed.

(** X30: after any sequence of registrations, removals and emissions on
    a new emitter, [emit] returns [true] exactly for the events that
    have a listener, and these are the events [eventNames] lists. *)
Theorem emit_reports_listeners (cs : list Call) (event : string) (throws : nat → bool) :
  let e := calls cs new_EventEmitter in
  (emit event throws e).1.1 = bool_decide (0 < listenerCount event e)
  ∧ (event ∈ eventNames e ↔ 0 < listenerCount event e).
Proof.
  intros e.
  assert (Hpop : populated e).
  { apply populated_calls. by intros event' ls. }
  specialize (Hpop event).
  assert (Hnames : event ∈ eventNames e ↔ JSMap.get event (events e) ≠ None).
  { pose proof (KeyFacts.get_None_keys event (events e)) as Hk.
    unfold Shape.keys_of in Hk. unfold eventNames.
    destruct (decide (event ∈ map fst (events e))) as [Hin | Hnot].
    - split; [| done]. intros _ Hnone. by apply Hk in Hnone.
    - split; [done |]. intros Hsome. by apply Hk in Hnot. }
  rewrite Hnames. unfold emit, listenerCount.
  destruct (JSMap.get event (events e)) as [ls|]; simpl.
  - specialize (Hpop ls eq_refl). destruct ls; [done |]. simpl.
    split; [done |]. split; [lia | done].
  - split; [done |]. split; [done | lia].
Qed.

End EmitterFacts.
